(** * Vault aggregation and transaction routing of the yearn SDK

    A shallow embedding of [VaultInterface] (interfaces/vault.ts) and of
    [TransactionService.sendTransaction] (services/transaction.ts).

    Promises are modelled by a state-and-error monad over the trace of
    collaborator invocations: a computation receives the invocations made so
    far and returns a settled promise together with the extended trace.
    Every collaborator (registry adapters, zapper, partner service,
    meta service, caches, signer ...) is an oracle of the [World]; its answer
    may depend on the whole history, so that for instance a first send may be
    rejected and a second one accepted. *)

From Stdlib Require Import ZArith QArith Lqa DecimalString.
From stdpp Require Import base gmap strings list sorting.

Open Scope Z_scope.

(** ** JavaScript numbers

    [order], [slippage] and the APY figures are JavaScript numbers.  The
    code only copies them, tests them for truthiness and, in the sort
    comparator, looks at the sign of a difference.  A finite double is a
    rational and the sign of a rounded IEEE difference is the sign of the
    exact one, so finite values are kept as exact rationals. *)

Inductive Number := NaN | NegInfinity | PosInfinity | Finite (q : Q).

Definition number_truthy (n : Number) : bool :=
  match n with
  | NaN => false
  | Finite q => negb (Qeq_bool q 0)
  | _ => true
  end.

Definition number_sub (a b : Number) : Number :=
  match a, b with
  | NaN, _ | _, NaN => NaN
  | PosInfinity, PosInfinity | NegInfinity, NegInfinity => NaN
  | PosInfinity, _ => PosInfinity
  | NegInfinity, _ => NegInfinity
  | Finite _, PosInfinity => NegInfinity
  | Finite _, NegInfinity => PosInfinity
  | Finite x, Finite y => Finite (x - y)
  end.

Definition number_max (a b : Number) : Number :=
  match a, b with
  | NaN, _ | _, NaN => NaN
  | PosInfinity, _ | _, PosInfinity => PosInfinity
  | NegInfinity, y => y
  | x, NegInfinity => x
  | Finite x, Finite y => if Qle_bool x y then Finite y else Finite x
  end.

(** [Math.max(...args)]: the largest argument, and [-Infinity] when called
    without arguments. *)
Definition Math_max (args : list Number) : Number :=
  foldr number_max NegInfinity args.

(** A comparator result [v] makes [sort] place the first argument after the
    second exactly when [v > 0]; [NaN] counts as [+0]. *)
Definition number_positive (v : Number) : bool :=
  match v with
  | PosInfinity => true
  | Finite q => negb (Qle_bool q 0)
  | _ => false
  end.

(** [Array.prototype.sort(compareFn)].  The sort is stable, and for a
    consistent comparator its result is the unique stable ordering, which
    insertion from the right computes. *)
Fixpoint sort_insert {A} (compareFn : A → A → Number) (x : A) (l : list A) : list A :=
  match l with
  | [] => [x]
  | y :: l' =>
      if number_positive (compareFn x y) then y :: sort_insert compareFn x l'
      else x :: l
  end.

Definition Array_sort {A} (compareFn : A → A → Number) (l : list A) : list A :=
  foldr (sort_insert compareFn) [] l.

(** ** Plain objects: transaction requests and call overrides

    [TransactionRequest] and [CallOverrides] are used as property bags:
    they are spread into each other and properties are set to [undefined].
    A key that is present with value [undefined] is not the same object
    as one where the key is missing, hence a finite map into values that
    include [undefined]. *)

Inductive Val :=
  | VUndefined
  | VBool (b : bool)
  | VNumber (n : Number)
  | VString (s : string)
  | VBigNumber (z : Z).

Definition truthy (v : Val) : bool :=
  match v with
  | VUndefined => false
  | VBool b => b
  | VNumber n => number_truthy n
  | VString s => negb (String.eqb s "")
  | VBigNumber _ => true
  end.

Abbreviation Obj := (gmap string Val).
Abbreviation TransactionRequest := (gmap string Val) (only parsing).
Abbreviation CallOverrides := (gmap string Val) (only parsing).

(** [o.k]: reading a missing property yields [undefined]. *)
Definition prop (o : Obj) (k : string) : Val := default VUndefined (o !! k).

(** [{ ...a, ...b }] *)
Definition spread (a b : Obj) : Obj := b ∪ a.

(** [a || b] on values. *)
Definition or_else (a b : Val) : Val := if truthy a then a else b.

Abbreviation Address := string.
Abbreviation Integer := string.

Definition MaxUint256 : Z := 2 ^ 256 - 1.

(** [BigNumber.prototype.toString]: decimal digits (non-negative values). *)
Definition BigNumber_toString (z : Z) : string :=
  NilZero.string_of_uint (N.to_uint (Z.to_N z)).

(** ** Domain records (types/) *)

Module Apy.
Record Fees := mkFees {
  performance : option Number;
  withdrawal : option Number;
  management : option Number;
  keep_crv : option Number;
  cvx_keep_crv : option Number }.
Record t := mk {
  type : string;
  gross_apr : Number;
  net_apy : Number;
  fees : Fees;
  points : option (Number * Number * Number);
  composite : option (list (string * Number)) }.
End Apy.

Module VaultStatic.
Record t := mk {
  address : Address;
  typeId : string;
  token : Address;
  name : string;
  version : string;
  symbol : string;
  decimals : string }.
End VaultStatic.

Module StrategiesMetadata.
Record t := mk {
  vaultAddress : Address;
  strategiesMetadata : list (Address * string) }.
End StrategiesMetadata.

Module AssetHistoricEarnings.
Record t := mk {
  assetAddress : Address;
  dayData : list (string * string) }.
End AssetHistoricEarnings.

Module Metadata.
Record t := mk {
  symbol : string;
  pricePerShare : Integer;
  displayName : string;
  displayIcon : string;
  defaultDisplayToken : Address;
  apy : option Apy.t;
  emergencyShutdown : option bool;
  hideIfNoDeposits : option bool;
  migrationAvailable : option bool;
  depositsDisabled : option bool;
  withdrawalsDisabled : option bool;
  allowZapIn : option bool;
  allowZapOut : option bool;
  zapInWith : option string;
  zapOutWith : option string;
  migrationContract : option Address;
  migrationTargetVault : option Address;
  vaultNameOverride : option string;
  vaultDetailPageAssets : option (list string);
  strategies : option StrategiesMetadata.t;
  historicEarnings : option (list (string * string)) }.

(** Property assignments [metadata.f = v]. *)
Definition set_symbol (v : string) (m : t) : t :=
  {| symbol := v;
     pricePerShare := pricePerShare m;
     displayName := displayName m;
     displayIcon := displayIcon m;
     defaultDisplayToken := defaultDisplayToken m;
     apy := apy m;
     emergencyShutdown := emergencyShutdown m;
     hideIfNoDeposits := hideIfNoDeposits m;
     migrationAvailable := migrationAvailable m;
     depositsDisabled := depositsDisabled m;
     withdrawalsDisabled := withdrawalsDisabled m;
     allowZapIn := allowZapIn m;
     allowZapOut := allowZapOut m;
     zapInWith := zapInWith m;
     zapOutWith := zapOutWith m;
     migrationContract := migrationContract m;
     migrationTargetVault := migrationTargetVault m;
     vaultNameOverride := vaultNameOverride m;
     vaultDetailPageAssets := vaultDetailPageAssets m;
     strategies := strategies m;
     historicEarnings := historicEarnings m |}.
Definition set_displayName (v : string) (m : t) : t :=
  {| symbol := symbol m;
     pricePerShare := pricePerShare m;
     displayName := v;
     displayIcon := displayIcon m;
     defaultDisplayToken := defaultDisplayToken m;
     apy := apy m;
     emergencyShutdown := emergencyShutdown m;
     hideIfNoDeposits := hideIfNoDeposits m;
     migrationAvailable := migrationAvailable m;
     depositsDisabled := depositsDisabled m;
     withdrawalsDisabled := withdrawalsDisabled m;
     allowZapIn := allowZapIn m;
     allowZapOut := allowZapOut m;
     zapInWith := zapInWith m;
     zapOutWith := zapOutWith m;
     migrationContract := migrationContract m;
     migrationTargetVault := migrationTargetVault m;
     vaultNameOverride := vaultNameOverride m;
     vaultDetailPageAssets := vaultDetailPageAssets m;
     strategies := strategies m;
     historicEarnings := historicEarnings m |}.
Definition set_displayIcon (v : string) (m : t) : t :=
  {| symbol := symbol m;
     pricePerShare := pricePerShare m;
     displayName := displayName m;
     displayIcon := v;
     defaultDisplayToken := defaultDisplayToken m;
     apy := apy m;
     emergencyShutdown := emergencyShutdown m;
     hideIfNoDeposits := hideIfNoDeposits m;
     migrationAvailable := migrationAvailable m;
     depositsDisabled := depositsDisabled m;
     withdrawalsDisabled := withdrawalsDisabled m;
     allowZapIn := allowZapIn m;
     allowZapOut := allowZapOut m;
     zapInWith := zapInWith m;
     zapOutWith := zapOutWith m;
     migrationContract := migrationContract m;
     migrationTargetVault := migrationTargetVault m;
     vaultNameOverride := vaultNameOverride m;
     vaultDetailPageAssets := vaultDetailPageAssets m;
     strategies := strategies m;
     historicEarnings := historicEarnings m |}.
Definition set_defaultDisplayToken (v : Address) (m : t) : t :=
  {| symbol := symbol m;
     pricePerShare := pricePerShare m;
     displayName := displayName m;
     displayIcon := displayIcon m;
     defaultDisplayToken := v;
     apy := apy m;
     emergencyShutdown := emergencyShutdown m;
     hideIfNoDeposits := hideIfNoDeposits m;
     migrationAvailable := migrationAvailable m;
     depositsDisabled := depositsDisabled m;
     withdrawalsDisabled := withdrawalsDisabled m;
     allowZapIn := allowZapIn m;
     allowZapOut := allowZapOut m;
     zapInWith := zapInWith m;
     zapOutWith := zapOutWith m;
     migrationContract := migrationContract m;
     migrationTargetVault := migrationTargetVault m;
     vaultNameOverride := vaultNameOverride m;
     vaultDetailPageAssets := vaultDetailPageAssets m;
     strategies := strategies m;
     historicEarnings := historicEarnings m |}.
Definition set_apy (v : option Apy.t) (m : t) : t :=
  {| symbol := symbol m;
     pricePerShare := pricePerShare m;
     displayName := displayName m;
     displayIcon := displayIcon m;
     defaultDisplayToken := defaultDisplayToken m;
     apy := v;
     emergencyShutdown := emergencyShutdown m;
     hideIfNoDeposits := hideIfNoDeposits m;
     migrationAvailable := migrationAvailable m;
     depositsDisabled := depositsDisabled m;
     withdrawalsDisabled := withdrawalsDisabled m;
     allowZapIn := allowZapIn m;
     allowZapOut := allowZapOut m;
     zapInWith := zapInWith m;
     zapOutWith := zapOutWith m;
     migrationContract := migrationContract m;
     migrationTargetVault := migrationTargetVault m;
     vaultNameOverride := vaultNameOverride m;
     vaultDetailPageAssets := vaultDetailPageAssets m;
     strategies := strategies m;
     historicEarnings := historicEarnings m |}.
Definition set_strategies (v : option StrategiesMetadata.t) (m : t) : t :=
  {| symbol := symbol m;
     pricePerShare := pricePerShare m;
     displayName := displayName m;
     displayIcon := displayIcon m;
     defaultDisplayToken := defaultDisplayToken m;
     apy := apy m;
     emergencyShutdown := emergencyShutdown m;
     hideIfNoDeposits := hideIfNoDeposits m;
     migrationAvailable := migrationAvailable m;
     depositsDisabled := depositsDisabled m;
     withdrawalsDisabled := withdrawalsDisabled m;
     allowZapIn := allowZapIn m;
     allowZapOut := allowZapOut m;
     zapInWith := zapInWith m;
     zapOutWith := zapOutWith m;
     migrationContract := migrationContract m;
     migrationTargetVault := migrationTargetVault m;
     vaultNameOverride := vaultNameOverride m;
     vaultDetailPageAssets := vaultDetailPageAssets m;
     strategies := v;
     historicEarnings := historicEarnings m |}.
Definition set_historicEarnings (v : option (list (string * string))) (m : t) : t :=
  {| symbol := symbol m;
     pricePerShare := pricePerShare m;
     displayName := displayName m;
     displayIcon := displayIcon m;
     defaultDisplayToken := defaultDisplayToken m;
     apy := apy m;
     emergencyShutdown := emergencyShutdown m;
     hideIfNoDeposits := hideIfNoDeposits m;
     migrationAvailable := migrationAvailable m;
     depositsDisabled := depositsDisabled m;
     withdrawalsDisabled := withdrawalsDisabled m;
     allowZapIn := allowZapIn m;
     allowZapOut := allowZapOut m;
     zapInWith := zapInWith m;
     zapOutWith := zapOutWith m;
     migrationContract := migrationContract m;
     migrationTargetVault := migrationTargetVault m;
     vaultNameOverride := vaultNameOverride m;
     vaultDetailPageAssets := vaultDetailPageAssets m;
     strategies := strategies m;
     historicEarnings := v |}.
End Metadata.

Module VaultDynamic.
Record t := mk {
  address : Address;
  typeId : string;
  tokenId : Address;
  underlyingTokenBalance : Integer * Integer;
  metadata : Metadata.t }.

Definition set_metadata (v : Metadata.t) (d : t) : t :=
  {| address := address d;
     typeId := typeId d;
     tokenId := tokenId d;
     underlyingTokenBalance := underlyingTokenBalance d;
     metadata := v |}.
End VaultDynamic.

(** [Vault = VaultStatic & VaultDynamic], built by [{ ...asset, ...dynamic }]. *)
Module Vault.
Record t := mk {
  address : Address;
  typeId : string;
  token : Address;
  name : string;
  version : string;
  symbol : string;
  decimals : string;
  tokenId : Address;
  underlyingTokenBalance : Integer * Integer;
  metadata : Metadata.t }.
End Vault.

Module Overrides.
Record t := mk {
  address : Address;
  hideAlways : option bool;
  order : option Number;
  displayName : option string;
  vaultSymbolOverride : option string;
  vaultIconOverride : option string;
  vaultNameOverride : option string;
  vaultDetailPageAssets : option (list string);
  apyTypeOverride : option string;
  apyOverride : option Number;
  depositsDisabled : option bool;
  withdrawalsDisabled : option bool;
  allowZapIn : option bool;
  allowZapOut : option bool;
  zapInWith : option string;
  zapOutWith : option string;
  migrationAvailable : option bool;
  migrationContract : option Address;
  migrationTargetVault : option Address;
  retired : option bool }.
End Overrides.

Module Position.
Record t := mk {
  assetAddress : Address;
  tokenAddress : Address;
  typeId : string;
  balance : Integer }.
End Position.

Module TokenAllowance.
Record t := mk {
  owner : Address;
  token : Address;
  spender : Address;
  amount : Integer }.
End TokenAllowance.

Record TransactionResponse := { hash : string }.

Inductive ZapProtocol := PICKLE | YEARN.

Inductive ContractAddressId := pickleZapIn | zapperZapIn | zapperZapOut.

Record DepositOptions := { deposit_slippage : option Number }.
Record WithdrawOptions := { slippage : option Number; signature : option string }.

(** The answer of [zapper.zapIn] / [zapper.zapOut]; the amounts are decimal
    strings which the code turns into big numbers with [BigNumber.from]. *)
Module ZapParams.
Record t := mk {
  to : Address;
  from : Address;
  data : string;
  value : Z;
  gas : Z;
  gasPrice : Z }.
End ZapParams.

(** ** Errors and settled promises *)

Inductive Error :=
  | SdkError (message : string)
  | TypeError (message : string)
  | RpcError (code : Z) (message : string)
  | OtherError (message : string).

(** [(error as { code: number }).code] *)
Definition error_code (e : Error) : option Z :=
  match e with
  | RpcError c _ => Some c
  | _ => None
  end.

Inductive Settled (A : Type) :=
  | Fulfilled (a : A)
  | Rejected (e : Error).
Arguments Fulfilled {A} a.
Arguments Rejected {A} e.

(** ** Collaborator invocations *)

Inductive Event :=
  | CacheFetch (key : string)
  | MetaVaults
  | AssetsStatic (adapter : nat) (addresses : option (list Address))
      (overrides : option Obj)
  | AssetsDynamic (adapter : nat) (addresses : option (list Address))
      (overrides : option Obj)
  | AdapterPositionsOf (adapter : nat) (account : Address)
      (addresses : option (list Address)) (overrides : option Obj)
  | ZapperSupportedVaultAddresses
  | VisionApy (addresses : list Address)
  | VaultsStrategiesMetadata (addresses : list Address)
  | AssetsHistoricEarnings
  | PartnerAddress
  | PartnerPopulateDeposit (vault : Address) (amount : Integer) (overrides : Obj)
  | AddressById (id : ContractAddressId)
  | TokensAllowance (owner token spender : Address)
  | TokensApprove (owner token spender : Address) (amount : Integer)
      (overrides : option Obj)
  | ZapperZapIn (account token : Address) (amount : Integer) (vault : Address)
      (gasPrice : string) (slippage : Number) (skipGasEstimate : bool)
      (zapProtocol : ZapProtocol) (partnerId : option string)
  | ZapperZapOut (account token : Address) (amount : Integer) (vault : Address)
      (gasPrice : string) (slippage : Number) (skipGasEstimate : bool)
      (signature : option string)
  | ContractPopulate (contract : Address) (method : string) (amount : Integer)
      (overrides : Obj)
  | ValidateCalldata (to data : Val)
  | SignerSendTransaction (transaction : Obj).

Definition Trace := list Event.

(** ** The promise monad *)

Definition Async (A : Type) : Type := Trace → Settled A * Trace.

Definition resolve {A} (a : A) : Async A := λ t, (Fulfilled a, t).
Definition throw {A} (e : Error) : Async A := λ t, (Rejected e, t).

Definition bind {A B} (m : Async A) (k : A → Async B) : Async B :=
  λ t, match m t with
       | (Fulfilled a, t') => k a t'
       | (Rejected e, t') => (Rejected e, t')
       end.

Notation "'let*' x ':=' m 'in' k" := (bind m (λ x, k))
  (at level 10, x name, m at level 100, k at level 200, only parsing).

(** [try { ... } catch (error) { ... }] *)
Definition try_catch {A} (m : Async A) (handler : Error → Async A) : Async A :=
  λ t, match m t with
       | (Fulfilled a, t') => (Fulfilled a, t')
       | (Rejected e, t') => handler e t'
       end.

(** A collaborator invocation: the oracle answers from the history, and
    the invocation is recorded. *)
Definition invoke {A} (ev : Event) (answer : Trace → Settled A) : Async A :=
  λ t, (answer t, t ++ [ev]).

(** [Promise.all]: every promise of the list has been started, so every one
    runs whatever the others do, and the whole is rejected as soon as one
    is.  The promises are run here one after the other and the rejection
    taken is the first in list order.  For promises that make one
    invocation each, when they are created (the adapter queries of
    [getStatic], the chunk queries of [positionsOf] for one adapter), this
    is the order of the source.  Promises that make several invocations
    interleave in the source, at every [await] and as the collaborators
    answer, and the rejection that wins is the first in time; of such
    promises the theorems state only what holds of every interleaving: the
    results when all are fulfilled, the rejection when all are rejected
    with the same error, which invocations are made and how many, and an
    exact trace nowhere but where this order is the source's. *)
Fixpoint Promise_all {A} (ps : list (Async A)) : Async (list A) :=
  match ps with
  | [] => resolve []
  | p :: ps' =>
      λ t, let '(r, t1) := p t in
           let '(rs, t2) := Promise_all ps' t1 in
           (match r, rs with
            | Rejected e, _ => Rejected e
            | Fulfilled _, Rejected e => Rejected e
            | Fulfilled a, Fulfilled l => Fulfilled (a :: l)
            end, t2)
  end.

(** [Array.prototype.includes] and [find] on addresses *)
Definition includes (l : list Address) (a : Address) : bool :=
  existsb (String.eqb a) l.

(** ** The world: configuration and collaborators *)

Module Partner.
Record t := mk {
  partnerId : string;
  address : Trace → Settled (option Address);
  isAllowed : Address → bool;
  populateDepositTransaction :
    Trace → Address → Integer → Obj → Settled (option Obj) }.
End Partner.

Record World := {
  (* ../chain and ../helpers, ../services/partners/pickle, ./helpers *)
  chainId : Z;
  isEthereum : Z → bool;
  isFantom : Z → bool;
  isNativeToken : Address → bool;
  EthAddress : Address;
  WethAddress : Address;
  FANTOM_TOKEN_address : Address;
  PickleJars : list Address;
  mergeZapPropsWithAddressables :
    list Overrides.t → list Address → string → string → list Overrides.t;
  (* Object.values(this.yearn.services.lens.adapters.vaults) *)
  adapters : list nat;
  (* caches *)
  cachedFetcherGet : Trace → Settled (option (list Vault.t));
  cachedFetcherGetDynamic : Trace → Settled (option (list VaultDynamic.t));
  (* services *)
  meta_vaults : Trace → Settled (list Overrides.t);
  adapter_assetsStatic :
    Trace → nat → option (list Address) → option Obj → Settled (list VaultStatic.t);
  adapter_assetsDynamic :
    Trace → nat → option (list Address) → option Obj → Settled (list VaultDynamic.t);
  adapter_positionsOf :
    Trace → nat → Address → option (list Address) → option Obj →
    Settled (list Position.t);
  zapper_supportedVaultAddresses : Trace → Settled (list Address);
  vision_apy : Trace → list Address → Settled (gmap string Apy.t);
  asset_icon : Address → option string;
  asset_alias : Address → option string;
  strategies_vaultsStrategiesMetadata :
    Trace → list Address → Settled (list StrategiesMetadata.t);
  earnings_assetsHistoricEarnings : Trace → Settled (list AssetHistoricEarnings.t);
  partner : option Partner.t;
  addressProvider_addressById : Trace → ContractAddressId → Settled Address;
  tokens_allowance : Trace → Address → Address → Address → Settled TokenAllowance.t;
  tokens_approve :
    Trace → Address → Address → Address → Integer → option Obj →
    Settled TransactionResponse;
  zapper_zapIn :
    Trace → Address → Address → Integer → Address → string → Number → bool →
    ZapProtocol → option string → Settled ZapParams.t;
  zapper_zapOut :
    Trace → Address → Address → Integer → Address → string → Number → bool →
    option string → Settled ZapParams.t;
  contract_populateTransaction :
    Trace → Address → string → Integer → Obj → Settled Obj;
  allowListService : option (Trace → Val → Val → Settled (bool * option string));
  signer_sendTransaction : Trace → Obj → Settled TransactionResponse }.

(** Modelled from the spec: [chunkArray] of ../helpers is not among the
    sources.  It splits an array into consecutive chunks of a fixed size,
    the last chunk holding what remains ("the full address set is split
    into fixed-size chunks (chunk size = 30)", "61 addresses ... 3 chunk
    queries (30/30/1)").  The recursion consumes [size] elements per step;
    the length of the array is enough fuel for any positive size. *)
Fixpoint chunk_from {A} (fuel size : nat) (array : list A) : list (list A) :=
  match fuel, array with
  | _, [] => []
  | O, _ => []
  | S fuel', _ => take size array :: chunk_from fuel' size (drop size array)
  end.

Definition chunkArray {A} (array : list A) (size : nat) : list (list A) :=
  chunk_from (length array) size array.

(** ** services/transaction.ts and interfaces/vault.ts *)

Section Engine.
Context (w : World).

(** *** TransactionService *)

Definition validateTx (transaction : TransactionRequest) : Async (bool * option string) :=
  match allowListService w with
  | None => resolve (true, None)
  | Some validateCalldata =>
      let to := prop transaction "to" in
      let data := prop transaction "data" in
      invoke (ValidateCalldata to data) (λ t, validateCalldata t to data)
  end.

(** The outcome of the validation is logged and otherwise unused. *)
Definition sendTransaction (transaction : TransactionRequest) : Async TransactionResponse :=
  let* _ := validateTx transaction in
  invoke (SignerSendTransaction transaction)
         (λ t, signer_sendTransaction w t transaction).

(** *** Static part of the vaults *)

Definition getStatic (addresses : option (list Address))
    (overrides : option CallOverrides) : Async (list VaultStatic.t) :=
  let* arr :=
    Promise_all
      (map (λ adapter,
              invoke (AssetsStatic adapter addresses overrides)
                     (λ t, adapter_assetsStatic w t adapter addresses overrides))
           (adapters w)) in
  resolve (concat arr).

(** [const [vault] = await this.getStatic([vaultAddress]); vault.token === tokenAddress] *)
Definition isUnderlyingToken (vaultAddress tokenAddress : Address) : Async bool :=
  let* statics := getStatic (Some [vaultAddress]) None in
  match statics with
  | [] => throw (TypeError "Cannot read properties of undefined (reading 'token')")
  | vault :: _ => resolve (String.eqb (VaultStatic.token vault) tokenAddress)
  end.

Definition isZappingIntoPickleJar (vault : Address) : bool :=
  includes (PickleJars w) vault.

Definition shouldUsePartnerService (vault : Address) : bool :=
  match partner w with
  | Some p => Partner.isAllowed p vault
  | None => false
  end.

(** *** Route resolution for allowances and approvals *)

Definition getDepositContractAddress (vaultAddress tokenAddress : Address) : Async Address :=
  if isNativeToken w tokenAddress then resolve vaultAddress
  else
    let willZapToPickleJar := isZappingIntoPickleJar vaultAddress in
    let* willDepositUnderlyingToken :=
      if negb willZapToPickleJar then isUnderlyingToken vaultAddress tokenAddress
      else resolve false in
    let shouldUsePartnerService := shouldUsePartnerService vaultAddress in
    if willDepositUnderlyingToken && shouldUsePartnerService then
      let* partnerTrackingContractAddress :=
        match partner w with
        | Some p => invoke PartnerAddress (Partner.address p)
        | None => resolve None
        end in
      match partnerTrackingContractAddress with
      | None => throw (SdkError "Partner Tracking Contract Address not defined")
      | Some a =>
          if String.eqb a "" then
            throw (SdkError "Partner Tracking Contract Address not defined")
          else resolve a
      end
    else if willDepositUnderlyingToken then resolve vaultAddress
    else if isFantom w (chainId w) then
      resolve "0x7Bbd6348db83C2fb3633Eebb70367E1AEc258764"%string
    else
      let zapContractId := if willZapToPickleJar then pickleZapIn else zapperZapIn in
      invoke (AddressById zapContractId)
             (λ t, addressProvider_addressById w t zapContractId).

Definition getWithdrawContractAddress (vaultAddress tokenAddress : Address) : Async Address :=
  let* willWithdrawToUnderlyingToken := isUnderlyingToken vaultAddress tokenAddress in
  if willWithdrawToUnderlyingToken then resolve vaultAddress
  else if isFantom w (chainId w) then
    resolve "0x7Bbd6348db83C2fb3633Eebb70367E1AEc258764"%string
  else
    invoke (AddressById zapperZapOut)
           (λ t, addressProvider_addressById w t zapperZapOut).

Definition allowance (owner token spender : Address) : Async TokenAllowance.t :=
  invoke (TokensAllowance owner token spender)
         (λ t, tokens_allowance w t owner token spender).

Definition approve (owner token spender : Address) (amount : Integer)
    (overrides : option CallOverrides) : Async TransactionResponse :=
  invoke (TokensApprove owner token spender amount overrides)
         (λ t, tokens_approve w t owner token spender amount overrides).

Definition getDepositAllowance (accountAddress vaultAddress tokenAddress : Address)
  : Async TokenAllowance.t :=
  let* spenderAddress := getDepositContractAddress vaultAddress tokenAddress in
  allowance accountAddress tokenAddress spenderAddress.

Definition getWithdrawAllowance (accountAddress vaultAddress tokenAddress : Address)
  : Async TokenAllowance.t :=
  let* spenderAddress := getWithdrawContractAddress vaultAddress tokenAddress in
  allowance accountAddress vaultAddress spenderAddress.

(** [amount ?? MaxUint256.toString()] *)
Definition approveDeposit (accountAddress vaultAddress tokenAddress : Address)
    (amount : option Integer) (overrides : option CallOverrides)
  : Async TransactionResponse :=
  let* spenderAddress := getDepositContractAddress vaultAddress tokenAddress in
  approve accountAddress tokenAddress spenderAddress
          (default (BigNumber_toString MaxUint256) amount) overrides.

Definition approveWithdraw (accountAddress vaultAddress tokenAddress : Address)
    (amount : option Integer) (overrides : option CallOverrides)
  : Async TransactionResponse :=
  let* spenderAddress := getWithdrawContractAddress vaultAddress tokenAddress in
  approve accountAddress vaultAddress spenderAddress
          (default (BigNumber_toString MaxUint256) amount) overrides.

(** *** Submission with the gas-parameter fallback *)

Definition executeZapperTransaction (transactionRequest : TransactionRequest)
    (overrides : CallOverrides) (fallbackGasPrice : Val) : Async TransactionResponse :=
  try_catch
    (let combinedParams := spread transactionRequest overrides in
     let combinedParams := <["gasPrice" := VUndefined]> combinedParams in
     sendTransaction combinedParams)
    (λ error,
       if bool_decide (error_code error = Some (-32602)) then
         let combinedParams := spread transactionRequest overrides in
         let combinedParams := <["maxFeePerGas" := VUndefined]> combinedParams in
         let combinedParams := <["maxPriorityFeePerGas" := VUndefined]> combinedParams in
         let combinedParams :=
           <["gasPrice" := or_else (prop overrides "gasPrice") fallbackGasPrice]>
             combinedParams in
         sendTransaction combinedParams
       else throw error).

(** [overrides] is one object that the function updates in place: the
    second call of [makeTransaction] sees the properties written before
    the first one. *)
Definition executeVaultContractTransaction
    (makeTransaction : CallOverrides → Async TransactionResponse)
    (overrides : CallOverrides) : Async TransactionResponse :=
  let originalGasPrice := prop overrides "gasPrice" in
  let overrides := <["gasPrice" := VUndefined]> overrides in
  try_catch
    (makeTransaction overrides)
    (λ error,
       if bool_decide (error_code error = Some (-32602)) then
         let overrides := <["maxFeePerGas" := VUndefined]> overrides in
         let overrides := <["maxPriorityFeePerGas" := VUndefined]> overrides in
         let overrides := <["gasPrice" := originalGasPrice]> overrides in
         makeTransaction overrides
       else throw error).

(** *** Deposit and withdraw

    [this.ctx.provider.write.getSigner(account)] only builds a local
    signer object and is left out. *)

(** [this.yearn.services.wido.deposit(...)] and [.withdraw(...)]: the
    service that yearn.ts builds is [new WidoService(chainId, ctx)], and
    the methods of WidoService are supportedTokens, balances,
    supportedVaultAddresses, getContractAddress, the four approval
    methods, zapIn and zapOut.  The property read for the call is
    therefore undefined, and once the arguments (plain values) are
    evaluated the call throws a TypeError; inside the async function this
    is a rejection, and no collaborator has been invoked. *)
Definition wido_call (method : string) : Async Obj :=
  throw (TypeError ("this.yearn.services.wido." +:+ method +:+ " is not a function")).

Definition zapIn (vault token : Address) (amount : Integer) (account : Address)
    (options : DepositOptions) (zapProtocol : ZapProtocol)
    (overrides : CallOverrides) : Async TransactionResponse :=
  match deposit_slippage options with
  | None => throw (SdkError "zap operations should have a slippage set")
  | Some slippage =>
      if isFantom w (chainId w) then
        let* populatedTransaction := wido_call "deposit" in
        sendTransaction populatedTransaction
      else
        let partnerId := Partner.partnerId <$> partner w in
        let* zapInParams :=
          invoke (ZapperZapIn account token amount vault "0" slippage false
                              zapProtocol partnerId)
                 (λ t, zapper_zapIn w t account token amount vault "0" slippage false
                                    zapProtocol partnerId) in
        let transactionRequest : TransactionRequest :=
          {[ "to" := VString (ZapParams.to zapInParams);
             "from" := VString (ZapParams.from zapInParams);
             "data" := VString (ZapParams.data zapInParams);
             "value" := VBigNumber (ZapParams.value zapInParams);
             "gasLimit" := VBigNumber (ZapParams.gas zapInParams) ]} in
        executeZapperTransaction transactionRequest overrides
          (VBigNumber (ZapParams.gasPrice zapInParams))
  end.

Definition populateDepositTransaction (vault : Address) (amount : Integer)
    (overrides : CallOverrides) : Async (option Obj) :=
  if shouldUsePartnerService vault then
    match partner w with
    | Some p =>
        invoke (PartnerPopulateDeposit vault amount overrides)
               (λ t, Partner.populateDepositTransaction p t vault amount overrides)
    | None => resolve None
    end
  else
    let* tx :=
      invoke (ContractPopulate vault "deposit" amount overrides)
             (λ t, contract_populateTransaction w t vault "deposit" amount overrides) in
    resolve (Some tx).

Definition deposit (vault token : Address) (amount : Integer) (account : Address)
    (options : DepositOptions) (overrides : CallOverrides) : Async TransactionResponse :=
  if isZappingIntoPickleJar vault then
    zapIn vault token amount account options PICKLE overrides
  else
    let* statics := getStatic (Some [vault]) (Some overrides) in
    match statics with
    | [] => throw (TypeError "Cannot read properties of undefined (reading 'token')")
    | vaultRef :: _ =>
        if negb (String.eqb (VaultStatic.token vaultRef) token) then
          zapIn vault token amount account options YEARN overrides
        else
          executeVaultContractTransaction
            (λ overrides,
               let* populatedTransaction :=
                 populateDepositTransaction vault amount overrides in
               match populatedTransaction with
               | None => throw (SdkError "deposit transaction failed")
               | Some tx => sendTransaction tx
               end)
            overrides
    end.

Definition withdraw (vault token : Address) (amount : Integer) (account : Address)
    (options : WithdrawOptions) (overrides : CallOverrides) : Async TransactionResponse :=
  let* statics := getStatic (Some [vault]) (Some overrides) in
  match statics with
  | [] => throw (TypeError "Cannot read properties of undefined (reading 'token')")
  | vaultRef :: _ =>
      if String.eqb (VaultStatic.token vaultRef) token then
        let makeTransaction (overrides : CallOverrides) : Async TransactionResponse :=
          let* tx :=
            invoke (ContractPopulate vault "withdraw" amount overrides)
                   (λ t, contract_populateTransaction w t vault "withdraw" amount
                                                      overrides) in
          sendTransaction tx in
        executeVaultContractTransaction makeTransaction overrides
      else
        match slippage options with
        | None => throw (SdkError "zap operations should have a slippage set")
        | Some slippage =>
            if isFantom w (chainId w) then
              let* populatedTransaction := wido_call "withdraw" in
              sendTransaction populatedTransaction
            else
              let* zapOutParams :=
                invoke (ZapperZapOut account token amount vault "0" slippage false
                                     (signature options))
                       (λ t, zapper_zapOut w t account token amount vault "0" slippage
                                           false (signature options)) in
              let transactionRequest : TransactionRequest :=
                {[ "to" := VString (ZapParams.to zapOutParams);
                   "from" := VString (ZapParams.from zapOutParams);
                   "gasPrice" := VBigNumber (ZapParams.gasPrice zapOutParams);
                   "gasLimit" := VBigNumber (ZapParams.gas zapOutParams);
                   "data" := VString (ZapParams.data zapOutParams);
                   "value" := VBigNumber (ZapParams.value zapOutParams) ]} in
              executeZapperTransaction transactionRequest overrides
                (VBigNumber (ZapParams.gasPrice zapOutParams))
        end
  end.

(** *** Metadata overrides *)

Definition makeEmptyApy : Apy.t :=
  {| Apy.type := "manual_override";
     Apy.gross_apr := Finite 0;
     Apy.net_apy := Finite 0;
     Apy.fees := Apy.mkFees None None None None None;
     Apy.points := None;
     Apy.composite := None |}.

(** Truthiness of optional properties. *)
Definition string_set (o : option string) : bool :=
  match o with Some s => negb (String.eqb s "") | None => false end.
Definition number_set (o : option Number) : bool :=
  match o with Some n => number_truthy n | None => false end.
Definition flag_set (o : option bool) : bool := default false o.

Definition fillMetadataOverrides (dynamic : VaultDynamic.t) (overrides : Overrides.t)
  : VaultDynamic.t :=
  let m := VaultDynamic.metadata dynamic in
  let m :=
    if string_set (Overrides.displayName overrides)
    then Metadata.set_displayName (default "" (Overrides.displayName overrides)) m
    else m in
  let m :=
    if string_set (Overrides.vaultSymbolOverride overrides)
    then Metadata.set_symbol (default "" (Overrides.vaultSymbolOverride overrides)) m
    else m in
  let m :=
    if string_set (Overrides.vaultIconOverride overrides)
    then Metadata.set_displayIcon (default "" (Overrides.vaultIconOverride overrides)) m
    else m in
  let m :=
    if string_set (Overrides.apyTypeOverride overrides) then
      let apy := default makeEmptyApy (Metadata.apy m) in
      Metadata.set_apy
        (Some {| Apy.type := default "" (Overrides.apyTypeOverride overrides);
                 Apy.gross_apr := Apy.gross_apr apy;
                 Apy.net_apy := Apy.net_apy apy;
                 Apy.fees := Apy.fees apy;
                 Apy.points := Apy.points apy;
                 Apy.composite := Apy.composite apy |}) m
    else m in
  let m :=
    if number_set (Overrides.apyOverride overrides) then
      let apy := default makeEmptyApy (Metadata.apy m) in
      Metadata.set_apy
        (Some {| Apy.type := "override";
                 Apy.gross_apr := Apy.gross_apr apy;
                 Apy.net_apy := default NaN (Overrides.apyOverride overrides);
                 Apy.fees := Apy.fees apy;
                 Apy.points := Apy.points apy;
                 Apy.composite := Apy.composite apy |}) m
    else m in
  VaultDynamic.set_metadata
    {| Metadata.symbol := Metadata.symbol m;
       Metadata.pricePerShare := Metadata.pricePerShare m;
       Metadata.displayName := Metadata.displayName m;
       Metadata.displayIcon := Metadata.displayIcon m;
       Metadata.defaultDisplayToken := Metadata.defaultDisplayToken m;
       Metadata.apy := Metadata.apy m;
       Metadata.emergencyShutdown := Metadata.emergencyShutdown m;
       Metadata.depositsDisabled := Overrides.depositsDisabled overrides;
       Metadata.withdrawalsDisabled := Overrides.withdrawalsDisabled overrides;
       Metadata.allowZapIn := Overrides.allowZapIn overrides;
       Metadata.allowZapOut := Overrides.allowZapOut overrides;
       Metadata.zapInWith := Overrides.zapInWith overrides;
       Metadata.zapOutWith := Overrides.zapOutWith overrides;
       Metadata.migrationContract := Overrides.migrationContract overrides;
       Metadata.migrationTargetVault := Overrides.migrationTargetVault overrides;
       Metadata.vaultNameOverride := Overrides.vaultNameOverride overrides;
       Metadata.vaultDetailPageAssets := Overrides.vaultDetailPageAssets overrides;
       Metadata.hideIfNoDeposits :=
         Some (flag_set (Metadata.emergencyShutdown m)
               || flag_set (Overrides.retired overrides)
               || flag_set (Overrides.migrationAvailable overrides));
       Metadata.migrationAvailable :=
         Some (flag_set (Metadata.migrationAvailable m)
               || flag_set (Overrides.migrationAvailable overrides));
       Metadata.strategies := Metadata.strategies m;
       Metadata.historicEarnings := Metadata.historicEarnings m |}
    dynamic.

Definition findOverrides (vaultMetadataOverrides : list Overrides.t) (address : Address)
  : option Overrides.t :=
  find (λ override, String.eqb (Overrides.address override) address)
       vaultMetadataOverrides.

(** *** Dynamic part of the vaults *)

Definition metaVaultsOrEmpty : Async (list Overrides.t) :=
  try_catch (invoke MetaVaults (meta_vaults w)) (λ _, resolve []).

(** The enrichment of one record inside [getDynamic]. *)
Definition enrichDynamic (metadataOverrides : list Overrides.t)
    (assetsApy : gmap string Apy.t) (dynamic : VaultDynamic.t) : VaultDynamic.t :=
  let overrides := findOverrides metadataOverrides (VaultDynamic.address dynamic) in
  let m := VaultDynamic.metadata dynamic in
  let m := Metadata.set_apy (assetsApy !! VaultDynamic.address dynamic) m in
  let m :=
    if String.eqb (VaultDynamic.tokenId dynamic) (WethAddress w) then
      let icon := default "" (asset_icon w (EthAddress w)) in
      Metadata.set_defaultDisplayToken (EthAddress w)
        (Metadata.set_displayName "ETH" (Metadata.set_displayIcon icon m))
    else
      let icon := default "" (asset_icon w (VaultDynamic.tokenId dynamic)) in
      let alias := asset_alias w (VaultDynamic.tokenId dynamic) in
      Metadata.set_defaultDisplayToken (VaultDynamic.tokenId dynamic)
        (Metadata.set_displayName (default "" alias) (Metadata.set_displayIcon icon m)) in
  let dynamic := VaultDynamic.set_metadata m dynamic in
  match overrides with
  | Some overrides => fillMetadataOverrides dynamic overrides
  | None => dynamic
  end.

Definition getDynamic (addresses : option (list Address))
    (vaultMetadataOverrides : option (list Overrides.t))
    (overrides : option CallOverrides) : Async (list VaultDynamic.t) :=
  let* cached := invoke (CacheFetch "vaults/getDynamic") (cachedFetcherGetDynamic w) in
  match cached with
  | Some cached =>
      match addresses with
      | Some addresses =>
          resolve (List.filter (λ vault, includes addresses (VaultDynamic.address vault))
                               cached)
      | None => resolve cached
      end
  | None =>
      let* metadataOverrides :=
        match vaultMetadataOverrides with
        | Some vaultMetadataOverrides => resolve vaultMetadataOverrides
        | None => metaVaultsOrEmpty
        end in
      let* metadataOverrides :=
        if isEthereum w (chainId w) then
          let* vaultTokenMarketData :=
            invoke ZapperSupportedVaultAddresses (zapper_supportedVaultAddresses w) in
          resolve (mergeZapPropsWithAddressables w metadataOverrides
                     vaultTokenMarketData "zapperZapIn" "zapperZapOut")
        else resolve metadataOverrides in
      let metadataOverrides :=
        if isFantom w (chainId w) then
          mergeZapPropsWithAddressables w metadataOverrides
            [FANTOM_TOKEN_address w] "ftmApeZap" "ftmApeZap"
        else metadataOverrides in
      let* arr :=
        Promise_all
          (map (λ adapter,
                  let* data :=
                    invoke (AssetsDynamic adapter addresses overrides)
                           (λ t, adapter_assetsDynamic w t adapter addresses overrides) in
                  let addrs := map VaultDynamic.address data in
                  let* assetsApy := invoke (VisionApy addrs) (λ t, vision_apy w t addrs) in
                  resolve (map (enrichDynamic metadataOverrides assetsApy) data))
               (adapters w)) in
      resolve (concat arr)
  end.

(** *** The merged listing *)

(** Lines 67-75 of [get]: the unchunked query, and on any failure the
    same query per chunk of 30 addresses of the static records. *)
Definition get_assetsDynamic (addresses : option (list Address))
    (vaultMetadataOverrides : list Overrides.t) (assetsStatic : list VaultStatic.t)
    (overrides : option CallOverrides) : Async (list VaultDynamic.t) :=
  try_catch
    (getDynamic addresses (Some vaultMetadataOverrides) overrides)
    (λ _,
       let allAddresses := map VaultStatic.address assetsStatic in
       let chunks := chunkArray allAddresses 30 in
       let promises :=
         map (λ chunk, getDynamic (Some chunk) (Some vaultMetadataOverrides) overrides)
             chunks in
       let* chunks := Promise_all promises in
       resolve (concat chunks)).

(** One entry of [assetsWithOrder].  The vault [{ ...asset, ...dynamic }]
    copies the top-level properties and shares the [metadata] object of
    the dynamic record; the entry therefore keeps the position of that
    record in [assetsDynamic] next to the copied properties. *)
Record Ordered := {
  ordered_asset : VaultStatic.t;
  ordered_dynamic : VaultDynamic.t;
  ordered_ref : nat;
  order : Number }.

(** Lines 96-114 of [get]: the loop over the static records.  The dynamic
    records are updated in place, so the list of them is threaded through
    the loop. *)
Fixpoint get_loop (vaultMetadataOverrides : list Overrides.t)
    (strategiesMetadata : list StrategiesMetadata.t)
    (assetsHistoricEarnings : list AssetHistoricEarnings.t)
    (assetsStatic : list VaultStatic.t) (assetsDynamic : list VaultDynamic.t)
    (assetsWithOrder : list Ordered)
  : Settled (list VaultDynamic.t * list Ordered) :=
  match assetsStatic with
  | [] => Fulfilled (assetsDynamic, assetsWithOrder)
  | asset :: rest =>
      match list_find (λ d, VaultDynamic.address d = VaultStatic.address asset)
                      assetsDynamic with
      | None =>
          Rejected (SdkError ("Dynamic asset does not exist for "
                              +:+ VaultStatic.address asset))
      | Some (ref, dynamic) =>
          let overrides := findOverrides vaultMetadataOverrides (VaultStatic.address asset) in
          if flag_set (overrides ≫= Overrides.hideAlways) then
            get_loop vaultMetadataOverrides strategiesMetadata assetsHistoricEarnings
                     rest assetsDynamic assetsWithOrder
          else
            let order := default (Math_max []) (overrides ≫= Overrides.order) in
            let m := VaultDynamic.metadata dynamic in
            let m :=
              Metadata.set_displayName
                (if negb (String.eqb (Metadata.displayName m) "")
                 then Metadata.displayName m else VaultStatic.name asset) m in
            let m :=
              Metadata.set_strategies
                (find (λ metadata,
                         String.eqb (StrategiesMetadata.vaultAddress metadata)
                                    (VaultStatic.address asset))
                      strategiesMetadata) m in
            let m :=
              Metadata.set_historicEarnings
                (AssetHistoricEarnings.dayData <$>
                   find (λ earnings,
                           String.eqb (AssetHistoricEarnings.assetAddress earnings)
                                      (VaultStatic.address asset))
                        assetsHistoricEarnings) m in
            let dynamic := VaultDynamic.set_metadata m dynamic in
            get_loop vaultMetadataOverrides strategiesMetadata assetsHistoricEarnings
                     rest (<[ref := dynamic]> assetsDynamic)
                     (assetsWithOrder ++ [{| ordered_asset := asset;
                                             ordered_dynamic := dynamic;
                                             ordered_ref := ref;
                                             order := order |}])
      end
  end.

(** The vault of an entry, read once the loop is over. *)
Definition vault_of (assetsDynamic : list VaultDynamic.t) (entry : Ordered) : Vault.t :=
  let asset := ordered_asset entry in
  let dynamic := ordered_dynamic entry in
  {| Vault.address := VaultDynamic.address dynamic;
     Vault.typeId := VaultDynamic.typeId dynamic;
     Vault.token := VaultStatic.token asset;
     Vault.name := VaultStatic.name asset;
     Vault.version := VaultStatic.version asset;
     Vault.symbol := VaultStatic.symbol asset;
     Vault.decimals := VaultStatic.decimals asset;
     Vault.tokenId := VaultDynamic.tokenId dynamic;
     Vault.underlyingTokenBalance := VaultDynamic.underlyingTokenBalance dynamic;
     Vault.metadata :=
       VaultDynamic.metadata (default dynamic (assetsDynamic !! ordered_ref entry)) |}.

(** Lines 94-116 of [get]. *)
Definition get_merge (vaultMetadataOverrides : list Overrides.t)
    (strategiesMetadata : list StrategiesMetadata.t)
    (assetsHistoricEarnings : list AssetHistoricEarnings.t)
    (assetsStatic : list VaultStatic.t) (assetsDynamic : list VaultDynamic.t)
  : Settled (list Vault.t) :=
  match get_loop vaultMetadataOverrides strategiesMetadata assetsHistoricEarnings
                 assetsStatic assetsDynamic [] with
  | Rejected e => Rejected e
  | Fulfilled (assetsDynamic, assetsWithOrder) =>
      Fulfilled
        (map (vault_of assetsDynamic)
             (Array_sort (λ lhs rhs, number_sub (order lhs) (order rhs))
                         assetsWithOrder))
  end.

(** Lines 57-92 of [get]: everything that is fetched on a cache miss. *)
Definition get_fetch (addresses : option (list Address)) (overrides : option CallOverrides)
  : Async (list Overrides.t * list VaultStatic.t * list VaultDynamic.t
           * list StrategiesMetadata.t * list AssetHistoricEarnings.t) :=
  let* vaultMetadataOverrides := metaVaultsOrEmpty in
  let* assetsStatic := getStatic addresses overrides in
  let* assetsDynamic :=
    get_assetsDynamic addresses vaultMetadataOverrides assetsStatic overrides in
  let addrs := map VaultDynamic.address assetsDynamic in
  let* strategiesMetadata :=
    try_catch
      (invoke (VaultsStrategiesMetadata addrs)
              (λ t, strategies_vaultsStrategiesMetadata w t addrs))
      (λ _, resolve []) in
  let* assetsHistoricEarnings :=
    try_catch (invoke AssetsHistoricEarnings (earnings_assetsHistoricEarnings w))
              (λ _, resolve []) in
  resolve (vaultMetadataOverrides, assetsStatic, assetsDynamic,
           strategiesMetadata, assetsHistoricEarnings).

Definition get (addresses : option (list Address)) (overrides : option CallOverrides)
  : Async (list Vault.t) :=
  let* cached := invoke (CacheFetch "vaults/get") (cachedFetcherGet w) in
  match cached with
  | Some cached =>
      match addresses with
      | Some addresses =>
          resolve (List.filter (λ vault, includes addresses (Vault.address vault)) cached)
      | None => resolve cached
      end
  | None =>
      let* fetched := get_fetch addresses overrides in
      let '(vaultMetadataOverrides, assetsStatic, assetsDynamic,
            strategiesMetadata, assetsHistoricEarnings) := fetched in
      λ t, (get_merge vaultMetadataOverrides strategiesMetadata assetsHistoricEarnings
                      assetsStatic assetsDynamic, t)
  end.

(** *** Positions *)

Definition adapter_positions (adapter : nat) (address : Address)
    (addresses : option (list Address)) (overrides : option CallOverrides)
  : Async (list Position.t) :=
  invoke (AdapterPositionsOf adapter address addresses overrides)
         (λ t, adapter_positionsOf w t adapter address addresses overrides).

(** What [positionsOf] does for one adapter. *)
Definition positionsOf_adapter (adapter : nat) (address : Address)
    (addresses : option (list Address)) (overrides : option CallOverrides)
  : Async (list Position.t) :=
  try_catch
    (adapter_positions adapter address addresses overrides)
    (λ _,
       let* allAddresses :=
         match addresses with
         | Some addresses => resolve addresses
         | None =>
             let* assets := getStatic addresses overrides in
             resolve (map VaultStatic.address assets)
         end in
       let chunks := chunkArray allAddresses 30 in
       let promises :=
         map (λ chunk, adapter_positions adapter address (Some chunk) overrides) chunks in
       let* chunks := Promise_all promises in
       resolve (concat chunks)).

Definition positionsOf (address : Address) (addresses : option (list Address))
    (overrides : option CallOverrides) : Async (list Position.t) :=
  let* arr :=
    Promise_all
      (map (λ adapter, positionsOf_adapter adapter address addresses overrides)
           (adapters w)) in
  resolve (concat arr).

End Engine.

(** ** Sample worlds

    Small worlds on which the engine is run: one registry adapter that
    answers from a table, a zapper that quotes a fixed transaction, and a
    node whose behaviour on [sendTransaction] is a parameter. *)

Module Sample.

Definition ETH : Address := "0xEeeeeEeeeEeEeeEeEeEeeEEEeeeeEeeeeeeeEEeE".
Definition WETH : Address := "0xC02aaA39b223FE8D0A0e5C4F27eAD9083C756Cc2".
Definition WFTM : Address := "0x21be370D5312f44cB42ce377BC9b8a0cEF1A4C83".
Definition DAI : Address := "0x6B175474E89094C44Da98b954EedeAC495271d0F".
Definition account : Address := "0xAccount".
Definition zapContract : Address := "0xZapContract".
Definition partnerContract : Address := "0xPartnerTracker".

Definition static (address token name : string) : VaultStatic.t :=
  {| VaultStatic.address := address;
     VaultStatic.typeId := "VAULT_V2";
     VaultStatic.token := token;
     VaultStatic.name := name;
     VaultStatic.version := "0.4.3";
     VaultStatic.symbol := name;
     VaultStatic.decimals := "18" |}.

Definition metadata : Metadata.t :=
  {| Metadata.symbol := "yv";
     Metadata.pricePerShare := "1000000000000000000";
     Metadata.displayName := "";
     Metadata.displayIcon := "";
     Metadata.defaultDisplayToken := "";
     Metadata.apy := None;
     Metadata.emergencyShutdown := Some false;
     Metadata.hideIfNoDeposits := Some false;
     Metadata.migrationAvailable := Some false;
     Metadata.depositsDisabled := None;
     Metadata.withdrawalsDisabled := None;
     Metadata.allowZapIn := None;
     Metadata.allowZapOut := None;
     Metadata.zapInWith := None;
     Metadata.zapOutWith := None;
     Metadata.migrationContract := None;
     Metadata.migrationTargetVault := None;
     Metadata.vaultNameOverride := None;
     Metadata.vaultDetailPageAssets := None;
     Metadata.strategies := None;
     Metadata.historicEarnings := None |}.

Definition dynamic (address token : string) : VaultDynamic.t :=
  {| VaultDynamic.address := address;
     VaultDynamic.typeId := "VAULT_V2";
     VaultDynamic.tokenId := token;
     VaultDynamic.underlyingTokenBalance := ("0", "0");
     VaultDynamic.metadata := metadata |}.

(** A dynamic record that already carries zap hints and disabled flags. *)
Definition zappable (address token : string) : VaultDynamic.t :=
  {| VaultDynamic.address := address;
     VaultDynamic.typeId := "VAULT_V2";
     VaultDynamic.tokenId := token;
     VaultDynamic.underlyingTokenBalance := ("0", "0");
     VaultDynamic.metadata :=
       {| Metadata.symbol := "yvDAI";
          Metadata.pricePerShare := "1000000000000000000";
          Metadata.displayName := "DAI";
          Metadata.displayIcon := "dai.png";
          Metadata.defaultDisplayToken := token;
          Metadata.apy := None;
          Metadata.emergencyShutdown := Some false;
          Metadata.hideIfNoDeposits := Some false;
          Metadata.migrationAvailable := Some false;
          Metadata.depositsDisabled := Some true;
          Metadata.withdrawalsDisabled := Some false;
          Metadata.allowZapIn := Some true;
          Metadata.allowZapOut := Some true;
          Metadata.zapInWith := Some "zapperZapIn";
          Metadata.zapOutWith := Some "zapperZapOut";
          Metadata.migrationContract := Some "0xMigrator";
          Metadata.migrationTargetVault := Some "0xTarget";
          Metadata.vaultNameOverride := None;
          Metadata.vaultDetailPageAssets := None;
          Metadata.strategies := None;
          Metadata.historicEarnings := None |} |}.

(** An override record that sets nothing but [hideAlways] and [order]. *)
Definition override (address : string) (hideAlways : option bool)
    (order : option Number) : Overrides.t :=
  {| Overrides.address := address;
     Overrides.hideAlways := hideAlways;
     Overrides.order := order;
     Overrides.displayName := None;
     Overrides.vaultSymbolOverride := None;
     Overrides.vaultIconOverride := None;
     Overrides.vaultNameOverride := None;
     Overrides.vaultDetailPageAssets := None;
     Overrides.apyTypeOverride := None;
     Overrides.apyOverride := None;
     Overrides.depositsDisabled := None;
     Overrides.withdrawalsDisabled := None;
     Overrides.allowZapIn := None;
     Overrides.allowZapOut := None;
     Overrides.zapInWith := None;
     Overrides.zapOutWith := None;
     Overrides.migrationAvailable := None;
     Overrides.migrationContract := None;
     Overrides.migrationTargetVault := None;
     Overrides.retired := None |}.

(** The records of a table for the requested addresses, in the order of
    the request; the whole table when there is no filter. *)
Definition answer {A} (address : A → Address) (table : list A)
    (addresses : option (list Address)) : list A :=
  match addresses with
  | None => table
  | Some addresses =>
      omap (λ a, find (λ r, String.eqb (address r) a) table) addresses
  end.

(** A multi-address query is rejected when it asks for more than
    [limit] records. *)
Definition limited {A B} (limit : nat) (table : list B)
    (addresses : option (list Address)) (r : list A) : Settled (list A) :=
  if (length (default (repeat ""%string (length table)) addresses) <=? limit)%nat
  then Fulfilled r
  else Rejected (OtherError "call size limit exceeded").

Definition position (d : VaultDynamic.t) : Position.t :=
  {| Position.assetAddress := VaultDynamic.address d;
     Position.tokenAddress := VaultDynamic.tokenId d;
     Position.typeId := "DEPOSIT";
     Position.balance := "0" |}.

Definition quote (gasPrice : Z) : ZapParams.t :=
  {| ZapParams.to := zapContract;
     ZapParams.from := account;
     ZapParams.data := "0xzap";
     ZapParams.value := 0;
     ZapParams.gas := 500000;
     ZapParams.gasPrice := gasPrice |}.

Definition populated (to data : string) : Obj :=
  {[ "to" := VString to; "data" := VString data ]}.

Definition trackingPartner : Partner.t :=
  {| Partner.partnerId := "0xPartnerId";
     Partner.address := λ _, Fulfilled (Some partnerContract);
     Partner.isAllowed := λ _, true;
     Partner.populateDepositTransaction :=
       λ _ vault _ _, Fulfilled (Some (populated partnerContract "0xdeposit")) |}.

(** Nodes: one that accepts every transaction, one that does not know
    the EIP-1559 parameters and rejects every transaction that leaves
    [gasPrice] undefined, one that rejects everything with that code. *)
Definition accepting : Trace → Obj → Settled TransactionResponse :=
  λ _ _, Fulfilled {| hash := "0xhash" |}.

Definition legacyOnly : Trace → Obj → Settled TransactionResponse :=
  λ _ tx, if truthy (prop tx "gasPrice") then Fulfilled {| hash := "0xhash" |}
          else Rejected (RpcError (-32602) "invalid argument").

Definition rejecting : Trace → Obj → Settled TransactionResponse :=
  λ _ _, Rejected (RpcError (-32602) "invalid argument").

Definition world (chain : Z) (jars : list Address) (partner : option Partner.t)
    (statics : list VaultStatic.t) (dynamics : list VaultDynamic.t) (limit : nat)
    (overrides : list Overrides.t)
    (node : Trace → Obj → Settled TransactionResponse) : World :=
  {| chainId := chain;
     isEthereum := λ c, (c =? 1) || (c =? 1337);
     isFantom := λ c, c =? 250;
     isNativeToken := λ a, String.eqb a ETH;
     EthAddress := ETH;
     WethAddress := WETH;
     FANTOM_TOKEN_address := WFTM;
     PickleJars := jars;
     mergeZapPropsWithAddressables := λ addressables _ _ _, addressables;
     adapters := [0%nat];
     cachedFetcherGet := λ _, Fulfilled None;
     cachedFetcherGetDynamic := λ _, Fulfilled None;
     meta_vaults := λ _, Fulfilled overrides;
     adapter_assetsStatic :=
       λ _ _ addresses _, Fulfilled (answer VaultStatic.address statics addresses);
     adapter_assetsDynamic :=
       λ _ _ addresses _,
         limited limit dynamics addresses (answer VaultDynamic.address dynamics addresses);
     adapter_positionsOf :=
       λ _ _ _ addresses _,
         limited limit dynamics addresses
           (map position (answer VaultDynamic.address dynamics addresses));
     zapper_supportedVaultAddresses := λ _, Fulfilled [];
     vision_apy := λ _ _, Fulfilled ∅;
     asset_icon := λ _, None;
     asset_alias := λ _, None;
     strategies_vaultsStrategiesMetadata := λ _ _, Fulfilled [];
     earnings_assetsHistoricEarnings := λ _, Fulfilled [];
     partner := partner;
     addressProvider_addressById := λ _ _, Fulfilled zapContract;
     tokens_allowance :=
       λ _ owner token spender,
         Fulfilled {| TokenAllowance.owner := owner;
                      TokenAllowance.token := token;
                      TokenAllowance.spender := spender;
                      TokenAllowance.amount := "0" |};
     tokens_approve := λ _ _ _ _ _ _, Fulfilled {| hash := "0xapprove" |};
     zapper_zapIn := λ _ _ _ _ _ _ _ _ _ _, Fulfilled (quote 7);
     zapper_zapOut := λ _ _ _ _ _ _ _ _ _, Fulfilled (quote 7);
     contract_populateTransaction :=
       λ _ contract method _ overrides,
         Fulfilled (spread (populated contract method) overrides);
     allowListService := Some (λ _ _ _, Fulfilled (true, None));
     signer_sendTransaction := node |}.

(** 61 vaults on one chain. *)
Definition manyAddresses : list Address :=
  map (λ i, "0xVault" +:+ NilZero.string_of_uint (Nat.to_uint i)) (seq 0 61).

Definition jar : Address := "0xPickleJar".
Definition vaultA : Address := "0xVaultA".
Definition vaultB : Address := "0xVaultB".

(** Ethereum, the vault [jar] is a pickle jar and every vault is allowed
    by the partner service. *)
Definition jarWorld : World :=
  world 1 [jar] (Some trackingPartner)
        [static jar WETH "pickle"] [dynamic jar WETH] 100 [] accepting.

(** Ethereum, two DAI vaults, [vaultA] with [order = 1] and [vaultB]
    without an override. *)
Definition orderWorld : World :=
  world 1 [] None
        [static vaultA DAI "A"; static vaultB DAI "B"]
        [dynamic vaultA DAI; dynamic vaultB DAI] 100
        [override vaultA None (Some (Finite 1))] accepting.

(** Fantom, with a node that rejects with code -32602. *)
Definition fantomWorld : World :=
  world 250 [] None [static vaultA DAI "A"] [dynamic vaultA DAI] 100 [] rejecting.

(** Ethereum, with a node that only takes legacy gas prices. *)
Definition legacyWorld : World :=
  world 1 [] None [static vaultA DAI "A"] [dynamic vaultA DAI] 100 [] legacyOnly.

(** Ethereum, the static record [vaultB] has no dynamic record and is
    hidden by its override. *)
Definition divergedWorld : World :=
  world 1 [] None
        [static vaultA DAI "A"; static vaultB DAI "B"]
        [dynamic vaultA DAI] 100
        [override vaultB (Some true) None] accepting.

(** Ethereum, 61 vaults and an adapter that answers at most 30
    addresses per query. *)
Definition chunkWorld : World :=
  world 1 [] None
        (map (λ a, static a DAI "v") manyAddresses)
        (map (λ a, dynamic a DAI) manyAddresses) 30 [] accepting.

End Sample.

(** ** Predicates used by the statements *)

(** The order in which the comparator [lhs.order - rhs.order] leaves two
    keys: [a] may stay in front of [b]. *)
Definition key_le (a b : Number) : Prop :=
  number_positive (number_sub a b) = false.

(** The keys that [get] computes from well-formed overrides: a finite
    [order], or [Math.max()]. *)
Definition regular (k : Number) : Prop :=
  match k with
  | NegInfinity | Finite _ => True
  | _ => False
  end.

(** Every invocation that [m] adds to the trace satisfies [P]. *)
Definition emits {A} (P : Event → Prop) (m : Async A) : Prop :=
  ∀ t, ∃ evs, (m t).2 = t ++ evs ∧ Forall P evs.

(** The number of transactions handed to the signer. *)
Definition sends (t : Trace) : nat :=
  length (List.filter (λ e, match e with SignerSendTransaction _ => true | _ => false end) t).

(** [m] hands at most [n] transactions to the signer. *)
Definition sends_at_most {A} (n : nat) (m : Async A) : Prop :=
  ∀ t, (sends (m t).2 ≤ sends t + n)%nat.



(** The world with another test for the native asset. *)
Definition withNativeToken (isNative : Address → bool) (w : World) : World :=
  {| chainId := chainId w;
     isEthereum := isEthereum w;
     isFantom := isFantom w;
     isNativeToken := isNative;
     EthAddress := EthAddress w;
     WethAddress := WethAddress w;
     FANTOM_TOKEN_address := FANTOM_TOKEN_address w;
     PickleJars := PickleJars w;
     mergeZapPropsWithAddressables := mergeZapPropsWithAddressables w;
     adapters := adapters w;
     cachedFetcherGet := cachedFetcherGet w;
     cachedFetcherGetDynamic := cachedFetcherGetDynamic w;
     meta_vaults := meta_vaults w;
     adapter_assetsStatic := adapter_assetsStatic w;
     adapter_assetsDynamic := adapter_assetsDynamic w;
     adapter_positionsOf := adapter_positionsOf w;
     zapper_supportedVaultAddresses := zapper_supportedVaultAddresses w;
     vision_apy := vision_apy w;
     asset_icon := asset_icon w;
     asset_alias := asset_alias w;
     strategies_vaultsStrategiesMetadata := strategies_vaultsStrategiesMetadata w;
     earnings_assetsHistoricEarnings := earnings_assetsHistoricEarnings w;
     partner := partner w;
     addressProvider_addressById := addressProvider_addressById w;
     tokens_allowance := tokens_allowance w;
     tokens_approve := tokens_approve w;
     zapper_zapIn := zapper_zapIn w;
     zapper_zapOut := zapper_zapOut w;
     contract_populateTransaction := contract_populateTransaction w;
     allowListService := allowListService w;
     signer_sendTransaction := signer_sendTransaction w |}.

(** The dynamic queries and the position queries of a trace: which
    adapter was asked, and for which addresses. *)
Definition dynamic_queries (t : Trace) : list (nat * option (list Address)) :=
  omap (λ e, match e with
             | AssetsDynamic adapter addresses _ => Some (adapter, addresses)
             | _ => None
             end) t.

Definition position_queries (t : Trace) : list (nat * option (list Address)) :=
  omap (λ e, match e with
             | AdapterPositionsOf adapter _ addresses _ => Some (adapter, addresses)
             | _ => None
             end) t.

(** One query per chunk and adapter. *)
Definition chunk_queries (adapters : list nat) (chunks : list (list Address))
  : list (nat * option (list Address)) :=
  concat (map (λ chunk, map (λ adapter, (adapter, Some chunk)) adapters) chunks).

(** The registry adapters serve the chunks: whatever the history, the
    adapter [adapter] answers the query for [chunk] with
    [records chunk adapter], and the answers of all adapters to a chunk
    hold, together, one record for each address of the chunk. *)
Definition serves_chunks {R} (adapters : list nat) (chunks : list (list Address))
    (query : Trace → nat → option (list Address) → Settled (list R))
    (key : R → Address) (records : list Address → nat → list R) : Prop :=
  ∀ chunk, chunk ∈ chunks →
    (∀ t adapter, adapter ∈ adapters →
       query t adapter (Some chunk) = Fulfilled (records chunk adapter))
    ∧ concat (map (λ adapter, map key (records chunk adapter)) adapters) ≡ₚ chunk.

Definition MaxUint256_string : string :=
  "115792089237316195423570985008687907853269984665640564039457584007913129639935".

Definition approves_unlimited (owner token : Address) (e : Event) : Prop :=
  match e with
  | TokensApprove o tk _ amount _ => o = owner ∧ tk = token ∧ amount = MaxUint256_string
  | _ => True
  end.

Definition reads_allowance_of (owner token : Address) (e : Event) : Prop :=
  match e with
  | TokensAllowance o tk _ => o = owner ∧ tk = token
  | _ => True
  end.

Definition missing_slippage : Error :=
  SdkError "zap operations should have a slippage set".

Definition missing_dynamic (address : Address) : Error :=
  SdkError ("Dynamic asset does not exist for " +:+ address).

(** ** More predicates and worlds for the statements *)

(** The [hideAlways] test and the sort key of [get] for one address. *)
Definition hidden (vaultMetadataOverrides : list Overrides.t) (address : Address) : bool :=
  flag_set (findOverrides vaultMetadataOverrides address ≫= Overrides.hideAlways).

Definition sort_key (vaultMetadataOverrides : list Overrides.t) (address : Address)
  : Number :=
  default (Math_max []) (findOverrides vaultMetadataOverrides address ≫= Overrides.order).

(** The properties that a vault takes from its static record; [typeId]
    is in both records and the dynamic one wins in the spread. *)
Definition static_fields (asset : VaultStatic.t)
  : Address * Address * string * string * string * string :=
  (VaultStatic.address asset, VaultStatic.token asset, VaultStatic.name asset,
   VaultStatic.version asset, VaultStatic.symbol asset, VaultStatic.decimals asset).

Definition static_part (vault : Vault.t)
  : Address * Address * string * string * string * string :=
  (Vault.address vault, Vault.token vault, Vault.name vault,
   Vault.version vault, Vault.symbol vault, Vault.decimals vault).

(** What the loop of [get] keeps true of the entries it has pushed. *)
Definition entry_ok (vaultMetadataOverrides : list Overrides.t) (e : Ordered) : Prop :=
  VaultDynamic.address (ordered_dynamic e) = VaultStatic.address (ordered_asset e)
  ∧ order e = sort_key vaultMetadataOverrides (VaultStatic.address (ordered_asset e)).

(** [m] is fulfilled from every history. *)
Definition reliable {A} (m : Async A) : Prop :=
  ∀ t, ∃ a t', m t = (Fulfilled a, t').

(** The world [w] with a meta service, a strategies service and an earnings
    service that reject every request. *)
Definition withoutEnrichment (w : World) : World :=
  {| chainId := chainId w;
     isEthereum := isEthereum w;
     isFantom := isFantom w;
     isNativeToken := isNativeToken w;
     EthAddress := EthAddress w;
     WethAddress := WethAddress w;
     FANTOM_TOKEN_address := FANTOM_TOKEN_address w;
     PickleJars := PickleJars w;
     mergeZapPropsWithAddressables := mergeZapPropsWithAddressables w;
     adapters := adapters w;
     cachedFetcherGet := cachedFetcherGet w;
     cachedFetcherGetDynamic := cachedFetcherGetDynamic w;
     meta_vaults := λ _, Rejected (OtherError "meta service unavailable");
     adapter_assetsStatic := adapter_assetsStatic w;
     adapter_assetsDynamic := adapter_assetsDynamic w;
     adapter_positionsOf := adapter_positionsOf w;
     zapper_supportedVaultAddresses := zapper_supportedVaultAddresses w;
     vision_apy := vision_apy w;
     asset_icon := asset_icon w;
     asset_alias := asset_alias w;
     strategies_vaultsStrategiesMetadata := λ _ _, Rejected (OtherError "strategies unavailable");
     earnings_assetsHistoricEarnings := λ _, Rejected (OtherError "earnings unavailable");
     partner := partner w;
     addressProvider_addressById := addressProvider_addressById w;
     tokens_allowance := tokens_allowance w;
     tokens_approve := tokens_approve w;
     zapper_zapIn := zapper_zapIn w;
     zapper_zapOut := zapper_zapOut w;
     contract_populateTransaction := contract_populateTransaction w;
     allowListService := allowListService w;
     signer_sendTransaction := signer_sendTransaction w |}.

(** The world [w] with a zapper that rejects the query for its supported
    vaults. *)
Definition withoutZapper (e : Error) (w : World) : World :=
  {| chainId := chainId w;
     isEthereum := isEthereum w;
     isFantom := isFantom w;
     isNativeToken := isNativeToken w;
     EthAddress := EthAddress w;
     WethAddress := WethAddress w;
     FANTOM_TOKEN_address := FANTOM_TOKEN_address w;
     PickleJars := PickleJars w;
     mergeZapPropsWithAddressables := mergeZapPropsWithAddressables w;
     adapters := adapters w;
     cachedFetcherGet := cachedFetcherGet w;
     cachedFetcherGetDynamic := cachedFetcherGetDynamic w;
     meta_vaults := meta_vaults w;
     adapter_assetsStatic := adapter_assetsStatic w;
     adapter_assetsDynamic := adapter_assetsDynamic w;
     adapter_positionsOf := adapter_positionsOf w;
     zapper_supportedVaultAddresses := λ _, Rejected e;
     vision_apy := vision_apy w;
     asset_icon := asset_icon w;
     asset_alias := asset_alias w;
     strategies_vaultsStrategiesMetadata := strategies_vaultsStrategiesMetadata w;
     earnings_assetsHistoricEarnings := earnings_assetsHistoricEarnings w;
     partner := partner w;
     addressProvider_addressById := addressProvider_addressById w;
     tokens_allowance := tokens_allowance w;
     tokens_approve := tokens_approve w;
     zapper_zapIn := zapper_zapIn w;
     zapper_zapOut := zapper_zapOut w;
     contract_populateTransaction := contract_populateTransaction w;
     allowListService := allowListService w;
     signer_sendTransaction := signer_sendTransaction w |}.

(** The world [w] with another allow-list service. *)
Definition withAllowList (service : option (Trace → Val → Val → Settled (bool * option string))) (w : World) : World :=
  {| chainId := chainId w;
     isEthereum := isEthereum w;
     isFantom := isFantom w;
     isNativeToken := isNativeToken w;
     EthAddress := EthAddress w;
     WethAddress := WethAddress w;
     FANTOM_TOKEN_address := FANTOM_TOKEN_address w;
     PickleJars := PickleJars w;
     mergeZapPropsWithAddressables := mergeZapPropsWithAddressables w;
     adapters := adapters w;
     cachedFetcherGet := cachedFetcherGet w;
     cachedFetcherGetDynamic := cachedFetcherGetDynamic w;
     meta_vaults := meta_vaults w;
     adapter_assetsStatic := adapter_assetsStatic w;
     adapter_assetsDynamic := adapter_assetsDynamic w;
     adapter_positionsOf := adapter_positionsOf w;
     zapper_supportedVaultAddresses := zapper_supportedVaultAddresses w;
     vision_apy := vision_apy w;
     asset_icon := asset_icon w;
     asset_alias := asset_alias w;
     strategies_vaultsStrategiesMetadata := strategies_vaultsStrategiesMetadata w;
     earnings_assetsHistoricEarnings := earnings_assetsHistoricEarnings w;
     partner := partner w;
     addressProvider_addressById := addressProvider_addressById w;
     tokens_allowance := tokens_allowance w;
     tokens_approve := tokens_approve w;
     zapper_zapIn := zapper_zapIn w;
     zapper_zapOut := zapper_zapOut w;
     contract_populateTransaction := contract_populateTransaction w;
     allowListService := service;
     signer_sendTransaction := signer_sendTransaction w |}.

(** The world [w] with another list of registry adapters and another
    static answer. *)
Definition withAdapters (ids : list nat)
    (assetsStatic : Trace → nat → option (list Address) → option Obj →
                    Settled (list VaultStatic.t)) (w : World) : World :=
  {| chainId := chainId w;
     isEthereum := isEthereum w;
     isFantom := isFantom w;
     isNativeToken := isNativeToken w;
     EthAddress := EthAddress w;
     WethAddress := WethAddress w;
     FANTOM_TOKEN_address := FANTOM_TOKEN_address w;
     PickleJars := PickleJars w;
     mergeZapPropsWithAddressables := mergeZapPropsWithAddressables w;
     adapters := ids;
     cachedFetcherGet := cachedFetcherGet w;
     cachedFetcherGetDynamic := cachedFetcherGetDynamic w;
     meta_vaults := meta_vaults w;
     adapter_assetsStatic := assetsStatic;
     adapter_assetsDynamic := adapter_assetsDynamic w;
     adapter_positionsOf := adapter_positionsOf w;
     zapper_supportedVaultAddresses := zapper_supportedVaultAddresses w;
     vision_apy := vision_apy w;
     asset_icon := asset_icon w;
     asset_alias := asset_alias w;
     strategies_vaultsStrategiesMetadata := strategies_vaultsStrategiesMetadata w;
     earnings_assetsHistoricEarnings := earnings_assetsHistoricEarnings w;
     partner := partner w;
     addressProvider_addressById := addressProvider_addressById w;
     tokens_allowance := tokens_allowance w;
     tokens_approve := tokens_approve w;
     zapper_zapIn := zapper_zapIn w;
     zapper_zapOut := zapper_zapOut w;
     contract_populateTransaction := contract_populateTransaction w;
     allowListService := allowListService w;
     signer_sendTransaction := signer_sendTransaction w |}.

(** The world [w] with another dynamic answer of the registry adapters. *)
Definition withDynamicAnswer (assetsDynamic : Trace → nat → option (list Address) → option Obj →
                     Settled (list VaultDynamic.t)) (w : World) : World :=
  {| chainId := chainId w;
     isEthereum := isEthereum w;
     isFantom := isFantom w;
     isNativeToken := isNativeToken w;
     EthAddress := EthAddress w;
     WethAddress := WethAddress w;
     FANTOM_TOKEN_address := FANTOM_TOKEN_address w;
     PickleJars := PickleJars w;
     mergeZapPropsWithAddressables := mergeZapPropsWithAddressables w;
     adapters := adapters w;
     cachedFetcherGet := cachedFetcherGet w;
     cachedFetcherGetDynamic := cachedFetcherGetDynamic w;
     meta_vaults := meta_vaults w;
     adapter_assetsStatic := adapter_assetsStatic w;
     adapter_assetsDynamic := assetsDynamic;
     adapter_positionsOf := adapter_positionsOf w;
     zapper_supportedVaultAddresses := zapper_supportedVaultAddresses w;
     vision_apy := vision_apy w;
     asset_icon := asset_icon w;
     asset_alias := asset_alias w;
     strategies_vaultsStrategiesMetadata := strategies_vaultsStrategiesMetadata w;
     earnings_assetsHistoricEarnings := earnings_assetsHistoricEarnings w;
     partner := partner w;
     addressProvider_addressById := addressProvider_addressById w;
     tokens_allowance := tokens_allowance w;
     tokens_approve := tokens_approve w;
     zapper_zapIn := zapper_zapIn w;
     zapper_zapOut := zapper_zapOut w;
     contract_populateTransaction := contract_populateTransaction w;
     allowListService := allowListService w;
     signer_sendTransaction := signer_sendTransaction w |}.

(** More sample worlds. *)
Module Fixtures.

Import Sample.

Definition vaultC : Address := "0xVaultC".

(** Ethereum, three DAI vaults: [vaultA] has order 2, [vaultB] is hidden
    and [vaultC] has order 1. *)
Definition hiddenWorld : World :=
  world 1 [] None
        [static vaultA DAI "A"; static vaultB DAI "B"; static vaultC DAI "C"]
        [dynamic vaultA DAI; dynamic vaultB DAI; dynamic vaultC DAI] 100
        [override vaultA None (Some (Finite 2));
         override vaultB (Some true) (Some (Finite 0));
         override vaultC None (Some (Finite 1))] accepting.

(** The world of [orderWorld] with adapters that answer queries of any
    size and without meta, strategies and earnings services. *)
Definition degradedWorld : World :=
  withoutEnrichment
    (withDynamicAnswer
       (λ _ _ addresses _,
          Fulfilled (answer VaultDynamic.address
                            [dynamic vaultA DAI; dynamic vaultB DAI] addresses))
       orderWorld).

(** An override record with branding, an APY override and a retirement. *)
Definition branding (address : string) : Overrides.t :=
  {| Overrides.address := address;
     Overrides.hideAlways := None;
     Overrides.order := None;
     Overrides.displayName := Some "Dai Stablecoin";
     Overrides.vaultSymbolOverride := Some "yvDAI-2";
     Overrides.vaultIconOverride := Some "dai-2.png";
     Overrides.vaultNameOverride := None;
     Overrides.vaultDetailPageAssets := None;
     Overrides.apyTypeOverride := Some "new";
     Overrides.apyOverride := Some (Finite (7 # 100));
     Overrides.depositsDisabled := Some true;
     Overrides.withdrawalsDisabled := None;
     Overrides.allowZapIn := None;
     Overrides.allowZapOut := None;
     Overrides.zapInWith := None;
     Overrides.zapOutWith := None;
     Overrides.migrationAvailable := None;
     Overrides.migrationContract := None;
     Overrides.migrationTargetVault := None;
     Overrides.retired := Some true |}.

(** Ethereum, no vault at all. *)
Definition emptyWorld : World := world 1 [] None [] [] 100 [] accepting.

(** Fantom, the vault [jar] is a pickle jar whose underlying token is DAI. *)
Definition fantomJarWorld : World :=
  world 250 [jar] (Some trackingPartner) [static jar DAI "pickle"] [dynamic jar DAI]
        100 [] accepting.

(** Ethereum, [vaultA] is a DAI vault and the partner service allows every
    vault but populates no deposit. *)
Definition silentPartner : Partner.t :=
  {| Partner.partnerId := "0xPartnerId";
     Partner.address := λ _, Fulfilled (Some partnerContract);
     Partner.isAllowed := λ _, true;
     Partner.populateDepositTransaction := λ _ _ _ _, Fulfilled None |}.

Definition silentPartnerWorld : World :=
  world 1 [] (Some silentPartner) [static vaultA DAI "A"] [dynamic vaultA DAI] 100 []
        rejecting.

(** The world of [legacyWorld] with an allow list that refuses everything. *)
Definition refusingWorld : World :=
  withAllowList (Some (λ _ _ _, Fulfilled (false, Some "destination not allowed")))
                legacyWorld.

End Fixtures.

(** The two invocations of a [getDynamic] that stops at the zapper. *)
Definition stopped_at_zapper : Trace :=
  [CacheFetch "vaults/getDynamic"; ZapperSupportedVaultAddresses].

(** The router that the code names for the zaps of Fantom. *)
Definition widoRouter : Address := "0x7Bbd6348db83C2fb3633Eebb70367E1AEc258764".

Definition not_address_lookup (e : Event) : Prop :=
  match e with AddressById _ => False | _ => True end.

(** The invocations of a zap deposit into a pickle jar. *)
Definition jar_zap_only (e : Event) : Prop :=
  match e with
  | ZapperZapIn _ _ _ _ _ _ _ PICKLE _
  | ValidateCalldata _ _ | SignerSendTransaction _ => True
  | _ => False
  end.

(** The properties that the gas fallback rewrites. *)
Definition gas_keys : list string := ["gasPrice"; "maxFeePerGas"; "maxPriorityFeePerGas"].

Definition agree_outside_gas (a b : Obj) : Prop :=
  ∀ k, k ∉ gas_keys → a !! k = b !! k.

(** The invocations of a direct withdraw after the static lookup. *)
Definition direct_withdraw_only (vault : Address) (amount : Integer) (overrides : Obj)
    (e : Event) : Prop :=
  match e with
  | ContractPopulate contract method a o =>
      contract = vault ∧ method = "withdraw"%string ∧ a = amount
      ∧ agree_outside_gas o overrides
  | ValidateCalldata _ _ | SignerSendTransaction _ => True
  | _ => False
  end.

(** Transactions handed to the signer agree with [base] outside the gas
    properties, and nothing but validation and sending happens. *)
Definition sends_like (base : Obj) (e : Event) : Prop :=
  match e with
  | SignerSendTransaction tx => agree_outside_gas tx base
  | ValidateCalldata _ _ => True
  | _ => False
  end.

(** Position queries for one account, and nothing else. *)
Definition positions_of_account (account : Address) (e : Event) : Prop :=
  match e with
  | AdapterPositionsOf _ a _ _ => a = account
  | _ => False
  end.

(** The metadata that [fillMetadataOverrides] leaves, written property by
    property. *)
Definition overridden_apy (m : Metadata.t) (o : Overrides.t) : option Apy.t :=
  let typed :=
    if string_set (Overrides.apyTypeOverride o) then
      let apy := default makeEmptyApy (Metadata.apy m) in
      Some {| Apy.type := default "" (Overrides.apyTypeOverride o);
              Apy.gross_apr := Apy.gross_apr apy;
              Apy.net_apy := Apy.net_apy apy;
              Apy.fees := Apy.fees apy;
              Apy.points := Apy.points apy;
              Apy.composite := Apy.composite apy |}
    else Metadata.apy m in
  if number_set (Overrides.apyOverride o) then
    let apy := default makeEmptyApy typed in
    Some {| Apy.type := "override";
            Apy.gross_apr := Apy.gross_apr apy;
            Apy.net_apy := default NaN (Overrides.apyOverride o);
            Apy.fees := Apy.fees apy;
            Apy.points := Apy.points apy;
            Apy.composite := Apy.composite apy |}
  else typed.

Definition overridden (m : Metadata.t) (o : Overrides.t) : Metadata.t :=
  {| Metadata.symbol :=
       if string_set (Overrides.vaultSymbolOverride o)
       then default "" (Overrides.vaultSymbolOverride o) else Metadata.symbol m;
     Metadata.pricePerShare := Metadata.pricePerShare m;
     Metadata.displayName :=
       if string_set (Overrides.displayName o)
       then default "" (Overrides.displayName o) else Metadata.displayName m;
     Metadata.displayIcon :=
       if string_set (Overrides.vaultIconOverride o)
       then default "" (Overrides.vaultIconOverride o) else Metadata.displayIcon m;
     Metadata.defaultDisplayToken := Metadata.defaultDisplayToken m;
     Metadata.apy := overridden_apy m o;
     Metadata.emergencyShutdown := Metadata.emergencyShutdown m;
     Metadata.hideIfNoDeposits :=
       Some (flag_set (Metadata.emergencyShutdown m)
             || flag_set (Overrides.retired o)
             || flag_set (Overrides.migrationAvailable o));
     Metadata.migrationAvailable :=
       Some (flag_set (Metadata.migrationAvailable m)
             || flag_set (Overrides.migrationAvailable o));
     Metadata.depositsDisabled := Overrides.depositsDisabled o;
     Metadata.withdrawalsDisabled := Overrides.withdrawalsDisabled o;
     Metadata.allowZapIn := Overrides.allowZapIn o;
     Metadata.allowZapOut := Overrides.allowZapOut o;
     Metadata.zapInWith := Overrides.zapInWith o;
     Metadata.zapOutWith := Overrides.zapOutWith o;
     Metadata.migrationContract := Overrides.migrationContract o;
     Metadata.migrationTargetVault := Overrides.migrationTargetVault o;
     Metadata.vaultNameOverride := Overrides.vaultNameOverride o;
     Metadata.vaultDetailPageAssets := Overrides.vaultDetailPageAssets o;
     Metadata.strategies := Metadata.strategies m;
     Metadata.historicEarnings := Metadata.historicEarnings m |}.

(** The invocations of a partner deposit after the static lookup. *)
Definition partner_deposit_only (vault : Address) (amount : Integer) (e : Event) : Prop :=
  match e with
  | PartnerPopulateDeposit v a _ => v = vault ∧ a = amount
  | ValidateCalldata _ _ | SignerSendTransaction _ => True
  | _ => False
  end.

(** ** Tokens, balances and the wido service

    The remaining operations of the vault interface ([tokens], [balances],
    [metadataOf]) and the wido service talk to collaborators of their own.
    Their promises are the same state-and-error monad, over the trace of
    the invocations of those collaborators. *)

Section Promise.
Context {E : Type}.

Definition Promise (A : Type) : Type := list E → Settled A * list E.

Definition fulfil {A} (a : A) : Promise A := λ t, (Fulfilled a, t).
Definition reject {A} (e : Error) : Promise A := λ t, (Rejected e, t).

Definition andThen {A B} (m : Promise A) (k : A → Promise B) : Promise B :=
  λ t, match m t with
       | (Fulfilled a, t') => k a t'
       | (Rejected e, t') => (Rejected e, t')
       end.

Definition call {A} (ev : E) (answer : list E → Settled A) : Promise A :=
  λ t, (answer t, t ++ [ev]).

(** [Promise.all], run like [Promise_all]: one promise after the other.
    Of promises that make several invocations only what holds of every
    interleaving is stated. *)
Fixpoint allOf {A} (ps : list (Promise A)) : Promise (list A) :=
  match ps with
  | [] => fulfil []
  | p :: ps' =>
      λ t, let '(r, t1) := p t in
           let '(rs, t2) := allOf ps' t1 in
           (match r, rs with
            | Rejected e, _ => Rejected e
            | Fulfilled _, Rejected e => Rejected e
            | Fulfilled a, Fulfilled l => Fulfilled (a :: l)
            end, t2)
  end.

(** [Promise.all] of two promises that were both started. *)
Definition both {A B} (p : Promise A) (q : Promise B) : Promise (A * B) :=
  λ t, let '(r, t1) := p t in
       let '(r', t2) := q t1 in
       (match r, r' with
        | Rejected e, _ => Rejected e
        | Fulfilled _, Rejected e => Rejected e
        | Fulfilled a, Fulfilled b => Fulfilled (a, b)
        end, t2).

End Promise.

Notation "'let+' x ':=' m 'in' k" := (andThen m (λ x, k))
  (at level 10, x name, m at level 100, k at level 200, only parsing).

(** [Array.prototype.map] with a callback that may throw: the first
    exception ends the map. *)
Fixpoint traverse {A B} (f : A → Settled B) (l : list A) : Settled (list B) :=
  match l with
  | [] => Fulfilled []
  | x :: l' =>
      match f x with
      | Rejected e => Rejected e
      | Fulfilled y =>
          match traverse f l' with
          | Rejected e => Rejected e
          | Fulfilled ys => Fulfilled (y :: ys)
          end
      end
  end.

Module ERC20.
Record t := mk {
  address : Address;
  name : string;
  symbol : string;
  decimals : string }.
End ERC20.

Module TokenMetadata.
Record t := mk {
  address : Address;
  tokenIconOverride : option string;
  tokenSymbolOverride : option string;
  tokenNameOverride : option string;
  description : option string }.
End TokenMetadata.

Module Token.
Record t := mk {
  address : Address;
  name : string;
  symbol : string;
  decimals : string;
  icon : option string;
  priceUsdc : option Integer;
  dataSource : string;
  supported : list (string * bool);
  metadata : option TokenMetadata.t }.

Definition set_icon (v : option string) (token : t) : t :=
  {| address := address token; name := name token; symbol := symbol token;
     decimals := decimals token; icon := v; priceUsdc := priceUsdc token;
     dataSource := dataSource token; supported := supported token;
     metadata := metadata token |}.

Definition set_symbol (v : string) (token : t) : t :=
  {| address := address token; name := name token; symbol := v;
     decimals := decimals token; icon := icon token; priceUsdc := priceUsdc token;
     dataSource := dataSource token; supported := supported token;
     metadata := metadata token |}.

Definition set_name (v : string) (token : t) : t :=
  {| address := address token; name := v; symbol := symbol token;
     decimals := decimals token; icon := icon token; priceUsdc := priceUsdc token;
     dataSource := dataSource token; supported := supported token;
     metadata := metadata token |}.
End Token.

(** What [helper.tokenBalances] answers per token. *)
Module TokenBalance.
Record t := mk {
  address : Address;
  balance : Integer;
  balanceUsdc : Integer;
  priceUsdc : Integer }.
End TokenBalance.

(** [Balance]: a token balance together with its token. *)
Module Balance.
Record t (T : Type) := mk {
  address : Address;
  token : T;
  balance : Integer;
  balanceUsdc : Integer;
  priceUsdc : Integer }.
Arguments mk {T}.
Arguments address {T}.
Arguments token {T}.
Arguments balance {T}.
Arguments balanceUsdc {T}.
Arguments priceUsdc {T}.
End Balance.

Module VaultUserMetadata.
Record t := mk {
  assetAddress : Address;
  earned : Integer }.
End VaultUserMetadata.

Module AccountAssetsData.
Record t := mk {
  earnings : Integer;
  holdings : Integer;
  grossApy : Number;
  estimatedYearlyYield : Integer;
  earningsAssetData : list VaultUserMetadata.t }.
End AccountAssetsData.

Inductive TokenCall :=
  | CachedTokensFetch
  | AssetReady
  | AdapterTokens (adapter : nat) (overrides : option Obj)
  | HelperTokens (addresses : list Address) (overrides : option Obj)
  | TokensMetadata (addresses : list Address)
  | OracleGetPriceUsdc (token : Address) (overrides : option Obj)
  | HelperTokenBalances (account : Address) (tokens : list Address)
      (overrides : option Obj)
  | AccountAssetsDataOf (account : Address).

Record TokenServices := {
  cachedFetcherTokens : list TokenCall → Settled (option (list Token.t));
  asset_ready : list TokenCall → Settled unit;
  (* [asset.icon] on an array of addresses: the icon per address *)
  asset_icons : list Address → Address → option string;
  adapter_tokens : list TokenCall → nat → option Obj → Settled (list Address);
  helper_tokens : list TokenCall → list Address → option Obj → Settled (list ERC20.t);
  tokens_metadata : list TokenCall → list Address → Settled (list TokenMetadata.t);
  oracle_getPriceUsdc : list TokenCall → Address → option Obj → Settled Integer;
  helper_tokenBalances :
    list TokenCall → Address → list Address → option Obj → Settled (list TokenBalance.t);
  earnings_accountAssetsData : list TokenCall → Address → Settled AccountAssetsData.t }.

Definition fillTokenMetadataOverrides (token : Token.t) (overrides : TokenMetadata.t)
  : Token.t :=
  let token :=
    if string_set (TokenMetadata.tokenIconOverride overrides)
    then Token.set_icon (TokenMetadata.tokenIconOverride overrides) token
    else token in
  let token :=
    if string_set (TokenMetadata.tokenSymbolOverride overrides)
    then Token.set_symbol (default "" (TokenMetadata.tokenSymbolOverride overrides)) token
    else token in
  if string_set (TokenMetadata.tokenNameOverride overrides)
  then Token.set_name (default "" (TokenMetadata.tokenNameOverride overrides)) token
  else token.

Section TokenInterface.
Context (w : World) (s : TokenServices).

(** The token that [tokens] builds from one answer of the helper, once the
    price has arrived. *)
Definition tokenOf (icons : Address → option string)
    (tokensMetadata : list TokenMetadata.t) (token : ERC20.t) (priceUsdc : Integer)
  : Token.t :=
  let tokenMetadata :=
    find (λ metadata, String.eqb (TokenMetadata.address metadata) (ERC20.address token))
         tokensMetadata in
  let result :=
    {| Token.address := ERC20.address token;
       Token.name := ERC20.name token;
       Token.symbol := ERC20.symbol token;
       Token.decimals := ERC20.decimals token;
       Token.icon := icons (ERC20.address token);
       Token.priceUsdc := Some priceUsdc;
       Token.dataSource := "vaults";
       Token.supported := [("vaults"%string, true)];
       Token.metadata := tokenMetadata |} in
  let symbolOverride := asset_alias w (ERC20.address token) in
  let result :=
    if string_set symbolOverride then Token.set_symbol (default "" symbolOverride) result
    else result in
  match tokenMetadata with
  | Some tokenMetadata => fillTokenMetadataOverrides result tokenMetadata
  | None => result
  end.

Definition tokens (overrides : option CallOverrides) : Promise (list Token.t) :=
  let+ cached := call CachedTokensFetch (cachedFetcherTokens s) in
  match cached with
  | Some cached => fulfil cached
  | None =>
      let+ _ := call AssetReady (asset_ready s) in
      let+ arr :=
        allOf
          (map (λ adapter,
                  let+ tokenAddresses :=
                    call (AdapterTokens adapter overrides)
                         (λ t, adapter_tokens s t adapter overrides) in
                  let icons := asset_icons s (tokenAddresses ++ [EthAddress w]) in
                  let+ answers :=
                    both (call (HelperTokens tokenAddresses overrides)
                               (λ t, helper_tokens s t tokenAddresses overrides))
                         (call (TokensMetadata tokenAddresses)
                               (λ t, tokens_metadata s t tokenAddresses)) in
                  allOf
                    (map (λ token,
                            let+ priceUsdc :=
                              call (OracleGetPriceUsdc (ERC20.address token) overrides)
                                   (λ t, oracle_getPriceUsdc s t (ERC20.address token)
                                                             overrides) in
                            fulfil (tokenOf icons answers.2 token priceUsdc))
                         answers.1))
               (adapters w)) in
      fulfil (concat arr)
  end.

(** The body of the map of [balances]. *)
Definition balanceOf (tokens : list Token.t) (balance : TokenBalance.t)
  : Settled (Balance.t Token.t) :=
  match find (λ token, String.eqb (Token.address token) (TokenBalance.address balance))
             tokens with
  | None =>
      Rejected (SdkError ("Token does not exist for Balance("
                          +:+ TokenBalance.address balance +:+ ")"))
  | Some token =>
      Fulfilled {| Balance.address := TokenBalance.address balance;
                   Balance.token := token;
                   Balance.balance := TokenBalance.balance balance;
                   Balance.balanceUsdc := TokenBalance.balanceUsdc balance;
                   Balance.priceUsdc := TokenBalance.priceUsdc balance |}
  end.

Definition balances (address : Address) (overrides : option CallOverrides)
  : Promise (list (Balance.t Token.t)) :=
  let+ tokens := tokens None in
  let addresses := map Token.address tokens in
  let+ balances :=
    call (HelperTokenBalances address addresses overrides)
         (λ t, helper_tokenBalances s t address addresses overrides) in
  λ t, (traverse (balanceOf tokens) balances, t).

Definition metadataOf (address : Address) (addresses : option (list Address))
  : Promise (list VaultUserMetadata.t) :=
  let+ data :=
    call (AccountAssetsDataOf address) (λ t, earnings_accountAssetsData s t address) in
  match addresses with
  | None => fulfil (AccountAssetsData.earningsAssetData data)
  | Some addresses =>
      fulfil (List.filter (λ asset, includes addresses (VaultUserMetadata.assetAddress asset))
                          (AccountAssetsData.earningsAssetData data))
  end.

Definition summaryOf (address : Address) : Promise (Integer * Integer * Number * Integer) :=
  let+ data :=
    call (AccountAssetsDataOf address) (λ t, earnings_accountAssetsData s t address) in
  fulfil (AccountAssetsData.earnings data, AccountAssetsData.holdings data,
          AccountAssetsData.grossApy data, AccountAssetsData.estimatedYearlyYield data).

End TokenInterface.

(** ** services/wido.ts *)

Module Wido.

(** The records of the wido library. *)
Record LibToken := {
  t_address : string;
  t_symbol : string;
  t_decimals : Z }.

Record LibBalance := {
  b_address : string;
  b_symbol : string;
  b_decimals : Z;
  b_balance : Integer;
  b_balanceUsdValue : string;
  b_tokenUsdPrice : string }.

Record QuoteRequest := {
  fromChainId : Z;
  fromToken : Address;
  toChainId : Z;
  toToken : Address;
  amount : Integer;
  slippagePercentage : Number;
  user : Address }.

Inductive LibCall :=
  | GetSupportedTokens (chainId : Z)
  | GetBalances (address : Address) (chainIds : list Z)
  | GetTokenAllowance (accountAddress spenderAddress tokenAddress : Address)
  | ApproveForZap (chainId : Z) (tokenAddress : Address) (amount : Integer)
  | Quote (request : QuoteRequest).

(** The wido library, [getAddress] of ethers, and what the service takes
    from ../chain and ../helpers. *)
Record Lib := {
  getSupportedTokens : list LibCall → Z → Settled (list LibToken);
  getBalances : list LibCall → Address → list Z → Settled (list LibBalance);
  getTokenAllowance : list LibCall → Address → Address → Address → Settled Integer;
  approveForZap : list LibCall → Z → Address → Integer → Settled (string * Address);
  quote : list LibCall → QuoteRequest → Settled (string * Address);
  getWidoContractAddress : Z → Settled Address;
  getAddress : string → Settled Address;
  Chains : Z → string;
  EthAddress : Address;
  ZeroAddress : Address;
  SUPPORTED_ZAP_OUT_TOKEN_SYMBOLS : list string;
  usdc : string → Integer;
  toUpperCase : string → string;
  toLowerCase : string → string;
  String_of_number : Z → string }.

Definition Unsupported : Error := OtherError "Unsupported".

Section Service.
Context (chainId : Z) (lib : Lib).

(** [x === ZeroAddress ? EthAddress : getAddress(x)] *)
Definition normalise (address : string) : Settled Address :=
  if String.eqb address (ZeroAddress lib) then Fulfilled (EthAddress lib)
  else getAddress lib address.

Definition supportedToken (token : LibToken) : Settled Token.t :=
  match normalise (t_address token) with
  | Rejected e => Rejected e
  | Fulfilled address =>
      Fulfilled
        {| Token.address := address;
           Token.decimals := String_of_number lib (t_decimals token);
           Token.icon :=
             Some ("https://assets.yearn.network/tokens/" +:+ Chains lib chainId +:+ "/"
                   +:+ toLowerCase lib (t_address token) +:+ ".png");
           Token.name := t_symbol token;
           Token.priceUsdc := Some (usdc lib "0");
           Token.dataSource := "wido";
           Token.supported :=
             [("widoZapIn"%string, true);
              ("widoZapOut"%string,
               existsb (String.eqb (toUpperCase lib (t_symbol token)))
                       (SUPPORTED_ZAP_OUT_TOKEN_SYMBOLS lib))];
           Token.symbol := t_symbol token;
           Token.metadata := None |}
  end.

Definition supportedTokens : Promise (list Token.t) :=
  if chainId =? 1337 then reject Unsupported
  else
    let+ tokenList := call (GetSupportedTokens chainId)
                           (λ t, getSupportedTokens lib t chainId) in
    λ t, (traverse supportedToken
                   (List.filter (λ token, negb (String.eqb (t_symbol token) "")) tokenList),
          t).

Definition balanceOf (balance : LibBalance) : Settled (Balance.t ERC20.t) :=
  match normalise (b_address balance) with
  | Rejected e => Rejected e
  | Fulfilled address =>
      Fulfilled
        {| Balance.address := address;
           Balance.token :=
             {| ERC20.address := address;
                ERC20.name := b_symbol balance;
                ERC20.symbol := b_symbol balance;
                ERC20.decimals := String_of_number lib (b_decimals balance) |};
           Balance.balance := b_balance balance;
           Balance.balanceUsdc := usdc lib (b_balanceUsdValue balance);
           Balance.priceUsdc := usdc lib (b_tokenUsdPrice balance) |}
  end.

Definition balances (address : Address) : Promise (list (Balance.t ERC20.t)) :=
  if chainId =? 1337 then reject Unsupported
  else
    let+ balances := call (GetBalances address [chainId])
                          (λ t, getBalances lib t address [chainId]) in
    λ t, (traverse balanceOf balances, t).

Definition supportedVaultAddresses : Promise (E := LibCall) (list Address) :=
  if negb (chainId =? 1) then reject Unsupported
  else
    fulfil ["0x1b905331F7dE2748F4D6a0678e1521E20347643F";
            "0x490bD0886F221A5F79713D3E84404355A9293C50";
            "0x595a68a8c9D5C230001848B69b1947ee2A607164";
            "0x59518884EeBFb03e90a18ADBAAAB770d4666471e";
            "0x528D50dC9a333f01544177a924893FA1F5b9F748";
            "0x4B5BfD52124784745c1071dcB244C6688d2533d3";
            "0x30FCf7c6cDfC46eC237783D94Fc78553E79d4E9C";
            "0x8b9C0c24307344B6D7941ab654b2Aeee25347473";
            "0xC4dAf3b5e2A9e93861c3FBDd25f1e943B8D87417";
            "0x8ee57c05741aA9DB947A744E713C15d4d19D8822";
            "0x5e69e8b51B71C8596817fD442849BD44219bb095";
            "0x1025b1641d1F23C289412Dd5E5701e9810103a93";
            "0x6B5ce31AF687a671a804d8070Ddda99Cab926dfE";
            "0x2e5c7e9B1Da0D9Cb2832eBb06241d18552A85400";
            "0x9A39f31DD5EDF5919A5C0c2433cE053fAD2E0336";
            "0xF6B9DFE6bc42ed2eaB44D6B829017f7B78B29f88"]%string.

(** A synchronous method: it throws or returns. *)
Definition getContractAddress : Settled Address :=
  if chainId =? 1337 then Rejected Unsupported
  else getWidoContractAddress lib chainId.

(** [zapInApprovalState] and [zapOutApprovalState] have the same body,
    for the token and for the vault. *)
Definition approvalState (token account : Address) : Promise TokenAllowance.t :=
  if chainId =? 1337 then reject Unsupported
  else
    match getWidoContractAddress lib chainId with
    | Rejected e => reject e
    | Fulfilled widoContract =>
        let+ allowance :=
          call (GetTokenAllowance account widoContract token)
               (λ t, getTokenAllowance lib t account widoContract token) in
        fulfil {| TokenAllowance.token := token;
                  TokenAllowance.owner := account;
                  TokenAllowance.spender := widoContract;
                  TokenAllowance.amount := allowance |}
    end.

Definition zapInApprovalState (token account : Address) : Promise TokenAllowance.t :=
  approvalState token account.

Definition zapOutApprovalState (vault account : Address) : Promise TokenAllowance.t :=
  approvalState vault account.

Definition approvalTransaction (token : Address) (amount : Integer) : Promise Obj :=
  if chainId =? 1337 then reject Unsupported
  else
    let+ approval := call (ApproveForZap chainId token amount)
                          (λ t, approveForZap lib t chainId token amount) in
    fulfil ({[ "data" := VString approval.1; "to" := VString approval.2 ]} : Obj).

Definition zapInApprovalTransaction (token : Address) (amount : Integer) : Promise Obj :=
  approvalTransaction token amount.

Definition zapOutApprovalTransaction (vault : Address) (amount : Integer) : Promise Obj :=
  approvalTransaction vault amount.

Definition zapIn (vault token : Address) (amount : Integer) (account : Address)
    (slippagePercentage : Number) : Promise Obj :=
  if chainId =? 1337 then reject Unsupported
  else
    let request :=
      {| fromChainId := chainId; fromToken := token;
         toChainId := chainId; toToken := vault;
         amount := amount; slippagePercentage := slippagePercentage;
         user := account |} in
    let+ quoted := call (Quote request) (λ t, quote lib t request) in
    fulfil ({[ "data" := VString quoted.1; "to" := VString quoted.2;
               "from" := VString account ]} : Obj).

Definition zapOut (vault token : Address) (amount : Integer) (account : Address)
    (slippagePercentage : Number) : Promise Obj :=
  if chainId =? 1337 then reject Unsupported
  else
    let request :=
      {| fromChainId := chainId; fromToken := vault;
         toChainId := chainId; toToken := token;
         amount := amount; slippagePercentage := slippagePercentage;
         user := account |} in
    let+ quoted := call (Quote request) (λ t, quote lib t request) in
    fulfil ({[ "data" := VString quoted.1; "to" := VString quoted.2 ]} : Obj).

End Service.

(** A library for the examples: three listed tokens, one of them the
    native asset under the zero address and one without a symbol. *)
Definition zero : Address := "0x0000000000000000000000000000000000000000".

Definition sampleLib : Lib :=
  {| getSupportedTokens :=
       λ _ _, Fulfilled [ {| t_address := zero; t_symbol := "ETH"; t_decimals := 18 |};
                          {| t_address := "0xdai"; t_symbol := "DAI"; t_decimals := 18 |};
                          {| t_address := "0xnone"; t_symbol := ""; t_decimals := 6 |} ];
     getBalances := λ _ _ _, Fulfilled [];
     getTokenAllowance := λ _ _ _ _, Fulfilled "0"%string;
     approveForZap := λ _ _ _ _, Fulfilled ("0xapprove"%string, "0xWido"%string);
     quote := λ _ _, Fulfilled ("0xquote"%string, "0xWido"%string);
     getWidoContractAddress := λ _, Fulfilled "0xWido"%string;
     getAddress := λ a, Fulfilled a;
     Chains := λ c, if c =? 1 then "ethereum"%string else "fantom"%string;
     EthAddress := Sample.ETH;
     ZeroAddress := zero;
     SUPPORTED_ZAP_OUT_TOKEN_SYMBOLS := ["ETH"; "DAI"; "USDC"]%string;
     usdc := λ v, v;
     toUpperCase := λ v, v;
     toLowerCase := λ v, v;
     String_of_number := BigNumber_toString |}.

End Wido.

(** Services for the examples: one token list with an alias-free DAI and
    no cache. *)
Definition sampleTokenServices : TokenServices :=
  {| cachedFetcherTokens := λ _, Fulfilled None;
     asset_ready := λ _, Fulfilled tt;
     asset_icons := λ _ _, Some "icon.png"%string;
     adapter_tokens := λ _ _ _, Fulfilled [Sample.DAI];
     helper_tokens :=
       λ _ addresses _,
         Fulfilled (map (λ a, {| ERC20.address := a; ERC20.name := "Dai";
                                 ERC20.symbol := "DAI"; ERC20.decimals := "18" |})
                        addresses);
     tokens_metadata :=
       λ _ addresses,
         Fulfilled (map (λ a, {| TokenMetadata.address := a;
                                 TokenMetadata.tokenIconOverride := None;
                                 TokenMetadata.tokenSymbolOverride := Some "DAI.e"%string;
                                 TokenMetadata.tokenNameOverride := None;
                                 TokenMetadata.description := None |})
                        addresses);
     oracle_getPriceUsdc := λ _ _ _, Fulfilled "1000000"%string;
     helper_tokenBalances :=
       λ _ _ _ _,
         Fulfilled [ {| TokenBalance.address := Sample.DAI; TokenBalance.balance := "5";
                        TokenBalance.balanceUsdc := "5"; TokenBalance.priceUsdc := "1" |};
                     {| TokenBalance.address := Sample.WETH; TokenBalance.balance := "1";
                        TokenBalance.balanceUsdc := "1"; TokenBalance.priceUsdc := "1" |} ];
     earnings_accountAssetsData :=
       λ _ _,
         Fulfilled {| AccountAssetsData.earnings := "0";
                      AccountAssetsData.holdings := "0";
                      AccountAssetsData.grossApy := Finite 0;
                      AccountAssetsData.estimatedYearlyYield := "0";
                      AccountAssetsData.earningsAssetData :=
                        [ {| VaultUserMetadata.assetAddress := Sample.vaultA;
                             VaultUserMetadata.earned := "1" |};
                          {| VaultUserMetadata.assetAddress := Sample.vaultB;
                             VaultUserMetadata.earned := "2" |} ] |} |}.

(** The same services with another answer of [helper.tokenBalances]. *)
Definition withTokenBalances
    (answer : list TokenCall → Address → list Address → option Obj
              → Settled (list TokenBalance.t))
    (s : TokenServices) : TokenServices :=
  {| cachedFetcherTokens := cachedFetcherTokens s;
     asset_ready := asset_ready s;
     asset_icons := asset_icons s;
     adapter_tokens := adapter_tokens s;
     helper_tokens := helper_tokens s;
     tokens_metadata := tokens_metadata s;
     oracle_getPriceUsdc := oracle_getPriceUsdc s;
     helper_tokenBalances := answer;
     earnings_accountAssetsData := earnings_accountAssetsData s |}.

(** A helper that answers one balance for each token it is asked for. *)
Definition exactTokenServices : TokenServices :=
  withTokenBalances
    (λ _ _ tokens _,
       Fulfilled (map (λ a, {| TokenBalance.address := a; TokenBalance.balance := "5";
                               TokenBalance.balanceUsdc := "5";
                               TokenBalance.priceUsdc := "1" |})
                      tokens))
    sampleTokenServices.

(** ** Predicates on tokens and balances *)

(** The metadata entry that [tokens] attaches to a token. *)
Definition metadata_for (tokensMetadata : list TokenMetadata.t) (address : Address)
  : option TokenMetadata.t :=
  find (λ metadata, String.eqb (TokenMetadata.address metadata) address) tokensMetadata.

(** What [tokens] builds on a cache miss. *)
Definition vault_token (token : Token.t) : Prop :=
  Token.dataSource token = "vaults"%string
  ∧ Token.supported token = [("vaults"%string, true)]
  ∧ is_Some (Token.priceUsdc token)
  ∧ ∀ metadata, Token.metadata token = Some metadata →
                TokenMetadata.address metadata = Token.address token.

Definition paired_with (tokens : list Token.t) (balance : Balance.t Token.t) : Prop :=
  Balance.token balance ∈ tokens
  ∧ Token.address (Balance.token balance) = Balance.address balance.

(** The balance that [balances] returns for one balance of the helper:
    the helper's address and amounts, and as token the first token of the
    list with that address. *)
Definition keeps_entry (tokens : list Token.t) (entry : TokenBalance.t)
    (balance : Balance.t Token.t) : Prop :=
  Balance.address balance = TokenBalance.address entry
  ∧ Balance.balance balance = TokenBalance.balance entry
  ∧ Balance.balanceUsdc balance = TokenBalance.balanceUsdc entry
  ∧ Balance.priceUsdc balance = TokenBalance.priceUsdc entry
  ∧ find (λ token, String.eqb (Token.address token) (TokenBalance.address entry)) tokens
    = Some (Balance.token balance).

Definition known_token (tokens : list Token.t) (balance : TokenBalance.t) : Prop :=
  TokenBalance.address balance ∈ map Token.address tokens.


Definition has_symbol (token : Wido.LibToken) : bool :=
  negb (String.eqb (Wido.t_symbol token) "").

(** What [WidoService.balances] builds from one balance of the library. *)
Definition wido_balance (lib : Wido.Lib) (entry : Wido.LibBalance)
    (balance : Balance.t ERC20.t) : Prop :=
  Wido.normalise lib (Wido.b_address entry) = Fulfilled (Balance.address balance)
  ∧ ERC20.address (Balance.token balance) = Balance.address balance
  ∧ ERC20.name (Balance.token balance) = Wido.b_symbol entry
  ∧ ERC20.symbol (Balance.token balance) = Wido.b_symbol entry
  ∧ Balance.balance balance = Wido.b_balance entry.

(** A library whose address check refuses one address. *)
Definition strictLib (malformed : string) : Wido.Lib :=
  {| Wido.getSupportedTokens :=
       λ _ _, Fulfilled [ {| Wido.t_address := "0xdai"; Wido.t_symbol := "DAI";
                             Wido.t_decimals := 18 |};
                          {| Wido.t_address := malformed; Wido.t_symbol := "BAD";
                             Wido.t_decimals := 18 |} ];
     Wido.getBalances :=
       λ _ _ _, Fulfilled [ {| Wido.b_address := Wido.zero; Wido.b_symbol := "ETH";
                               Wido.b_decimals := 18; Wido.b_balance := "7";
                               Wido.b_balanceUsdValue := "7";
                               Wido.b_tokenUsdPrice := "1" |} ];
     Wido.getTokenAllowance := Wido.getTokenAllowance Wido.sampleLib;
     Wido.approveForZap := Wido.approveForZap Wido.sampleLib;
     Wido.quote := Wido.quote Wido.sampleLib;
     Wido.getWidoContractAddress := Wido.getWidoContractAddress Wido.sampleLib;
     Wido.getAddress :=
       λ a, if String.eqb a malformed then Rejected (OtherError "invalid address")
            else Fulfilled a;
     Wido.Chains := Wido.Chains Wido.sampleLib;
     Wido.EthAddress := Wido.EthAddress Wido.sampleLib;
     Wido.ZeroAddress := Wido.ZeroAddress Wido.sampleLib;
     Wido.SUPPORTED_ZAP_OUT_TOKEN_SYMBOLS := Wido.SUPPORTED_ZAP_OUT_TOKEN_SYMBOLS Wido.sampleLib;
     Wido.usdc := Wido.usdc Wido.sampleLib;
     Wido.toUpperCase := Wido.toUpperCase Wido.sampleLib;
     Wido.toLowerCase := Wido.toLowerCase Wido.sampleLib;
     Wido.String_of_number := Wido.String_of_number Wido.sampleLib |}.

(** * Properties *)

(** ** The promise monad *)

Section Monad.
Context {A B : Type}.

Lemma bind_fulfilled (m : Async A) (k : A → Async B) t a t' :
  m t = (Fulfilled a, t') → bind m k t = k a t'.
Proof. unfold bind. by intros ->. Qed.

Lemma bind_rejected (m : Async A) (k : A → Async B) t e t' :
  m t = (Rejected e, t') → bind m k t = (Rejected e, t').
Proof. unfold bind. by intros ->. Qed.

Lemma emits_resolve P (a : A) : emits P (resolve a).
Proof. intros t. exists []. by rewrite app_nil_r. Qed.

Lemma emits_throw P e : emits P (@throw A e).
Proof. intros t. exists []. by rewrite app_nil_r. Qed.

Lemma emits_invoke (P : Event → Prop) ev (answer : Trace → Settled A) :
  P ev → emits P (invoke ev answer).
Proof. intros H t. exists [ev]. split; [done | by constructor]. Qed.

Lemma emits_bind P (m : Async A) (k : A → Async B) :
  emits P m → (∀ a, emits P (k a)) → emits P (bind m k).
Proof.
  intros Hm Hk t. unfold bind.
  destruct (Hm t) as (evs & Ht & HP).
  destruct (m t) as [[a | e] t']; simpl in Ht; subst t'.
  - destruct (Hk a (t ++ evs)) as (evs' & -> & HP').
    exists (evs ++ evs'). rewrite app_assoc. split; [done | by apply Forall_app].
  - by exists evs.
Qed.

Lemma emits_try_catch P (m : Async A) (handler : Error → Async A) :
  emits P m → (∀ e, emits P (handler e)) → emits P (try_catch m handler).
Proof.
  intros Hm Hh t. unfold try_catch.
  destruct (Hm t) as (evs & Ht & HP).
  destruct (m t) as [[a | e] t']; simpl in Ht; subst t'.
  - by exists evs.
  - destruct (Hh e (t ++ evs)) as (evs' & -> & HP').
    exists (evs ++ evs'). rewrite app_assoc. split; [done | by apply Forall_app].
Qed.

End Monad.

Section MonadAll.
Context {A : Type}.

Lemma emits_Promise_all P (ps : list (Async A)) :
  Forall (emits P) ps → emits P (Promise_all ps).
Proof.
  induction 1 as [| p ps Hp _ IH]; [apply emits_resolve |].
  intros t. simpl.
  destruct (Hp t) as (evs & Ht & HP).
  destruct (p t) as [r t1]; simpl in Ht; subst t1.
  destruct (IH (t ++ evs)) as (evs' & Ht' & HP').
  destruct (Promise_all ps (t ++ evs)) as [rs t2]; simpl in *; subst t2.
  exists (evs ++ evs'). rewrite app_assoc. split; [done | by apply Forall_app].
Qed.

(** Every promise handed to [Promise.all] makes its invocation, whatever
    the answers are. *)
Lemma Promise_all_invoke_trace {X} (ev : X → Event) (answer : X → Trace → Settled A)
    (l : list X) t :
  (Promise_all (map (λ x, invoke (ev x) (answer x)) l) t).2 = t ++ map ev l.
Proof.
  revert t. induction l as [| x l IH]; intros t; simpl.
  - by rewrite app_nil_r.
  - unfold invoke at 1.
    specialize (IH (t ++ [ev x])).
    destruct (Promise_all _ (t ++ [ev x])) as [rs t2]; simpl in *.
    by rewrite IH, <- app_assoc.
Qed.
End MonadAll.

Lemma sends_app t1 t2 : sends (t1 ++ t2) = (sends t1 + sends t2)%nat.
Proof. unfold sends. by rewrite List.filter_app, length_app. Qed.

(** ** Route resolution *)

Section Routes.
Context (w : World).

Lemma getStatic_trace addresses overrides t :
  (getStatic w addresses overrides t).2
  = t ++ map (λ adapter, AssetsStatic adapter addresses overrides) (adapters w).
Proof.
  unfold getStatic, bind.
  pose proof (Promise_all_invoke_trace
                (λ adapter, AssetsStatic adapter addresses overrides)
                (λ adapter t, adapter_assetsStatic w t adapter addresses overrides)
                (adapters w) t) as H.
  destruct (Promise_all _ t) as [[arr | e] t']; simpl in *; by subst.
Qed.

Lemma emits_getStatic P addresses overrides :
  (∀ adapter, P (AssetsStatic adapter addresses overrides)) →
  emits P (getStatic w addresses overrides).
Proof.
  intros HP t. exists (map (λ adapter, AssetsStatic adapter addresses overrides) (adapters w)).
  split; [apply getStatic_trace |].
  apply Forall_forall. intros e He. apply list_elem_of_In, in_map_iff in He. 
  by destruct He as (adapter & <- & _).
Qed.

Lemma emits_isUnderlyingToken P vault token :
  (∀ adapter, P (AssetsStatic adapter (Some [vault]) None)) →
  emits P (isUnderlyingToken w vault token).
Proof.
  intros HP. apply emits_bind; [by apply emits_getStatic |].
  intros [| v l]; [apply emits_throw | apply emits_resolve].
Qed.

Lemma emits_getWithdrawContractAddress P vault token :
  (∀ adapter, P (AssetsStatic adapter (Some [vault]) None)) →
  P (AddressById zapperZapOut) →
  emits P (getWithdrawContractAddress w vault token).
Proof.
  intros HP1 HP2. apply emits_bind; [by apply emits_isUnderlyingToken |].
  intros [|]; [apply emits_resolve |].
  destruct (isFantom w (chainId w)); [apply emits_resolve | by apply emits_invoke].
Qed.

Lemma emits_getDepositContractAddress P vault token :
  (∀ adapter, P (AssetsStatic adapter (Some [vault]) None)) →
  P PartnerAddress → (∀ id, P (AddressById id)) →
  emits P (getDepositContractAddress w vault token).
Proof.
  intros HP1 HP2 HP3. unfold getDepositContractAddress.
  destruct (isNativeToken w token); [apply emits_resolve |].
  apply emits_bind.
  { destruct (negb _); [by apply emits_isUnderlyingToken | apply emits_resolve]. }
  intros underlying.
  destruct (underlying && _).
  { apply emits_bind.
    - destruct (partner w); [by apply emits_invoke | apply emits_resolve].
    - intros [a |]; [| apply emits_throw].
      destruct (String.eqb a ""); [apply emits_throw | apply emits_resolve]. }
  destruct underlying; [apply emits_resolve |].
  destruct (isFantom w (chainId w)); [apply emits_resolve | by apply emits_invoke].
Qed.

End Routes.

Import Sample.

(** C1 (amended).  [getDepositContractAddress] resolves a deposit of the
    chain's native asset to the vault itself, without consulting any
    collaborator and whatever the pickle-jar membership of the vault and
    the partner eligibility.  [deposit] never looks at whether the token is
    native: whatever the token, a vault of the pickle-jar set is routed
    through [zapIn] with the PICKLE protocol, and another vault is routed
    through [zapIn] with the YEARN protocol as soon as the token differs
    from the underlying token of the vault; replacing the test for the
    native asset by any other leaves [deposit] as it is. *)
Theorem C1_native_deposit_routes (w : World) vault token amount account options
    overrides t :
  (isNativeToken w token = true →
   getDepositContractAddress w vault token t = (Fulfilled vault, t))
  ∧ (isZappingIntoPickleJar w vault = true →
     deposit w vault token amount account options overrides t
     = zapIn w vault token amount account options PICKLE overrides t)
  ∧ (isZappingIntoPickleJar w vault = false →
     ∀ vaultRef rest t',
       getStatic w (Some [vault]) (Some overrides) t = (Fulfilled (vaultRef :: rest), t') →
       VaultStatic.token vaultRef ≠ token →
       deposit w vault token amount account options overrides t
       = zapIn w vault token amount account options YEARN overrides t')
  ∧ (∀ isNative,
       deposit (withNativeToken isNative w) vault token amount account options overrides t
       = deposit w vault token amount account options overrides t).
Proof.
  split; [| split; [| split]].
  - intros Hnative. unfold getDepositContractAddress. by rewrite Hnative.
  - intros Hjar. unfold deposit. by rewrite Hjar.
  - intros Hjar vaultRef rest t' Hstatic Hne. unfold deposit. rewrite Hjar.
    rewrite (bind_fulfilled _ _ _ _ _ Hstatic).
    apply String.eqb_neq in Hne. by rewrite Hne.
  - intros isNative. reflexivity.
Qed.

Lemma C1_native_deposit_routes_witness :
  getDepositContractAddress jarWorld jar ETH [] = (Fulfilled jar, [])
  ∧ deposit jarWorld jar DAI "1000" account {| deposit_slippage := None |} ∅ []
    = zapIn jarWorld jar DAI "1000" account {| deposit_slippage := None |} PICKLE ∅ []
  ∧ deposit legacyWorld vaultA WETH "1000" account {| deposit_slippage := None |} ∅ []
    = zapIn legacyWorld vaultA WETH "1000" account {| deposit_slippage := None |} YEARN ∅
            [AssetsStatic 0 (Some [vaultA]) (Some ∅)].
Proof.
  destruct (C1_native_deposit_routes jarWorld jar ETH "1000" account
              {| deposit_slippage := None |} ∅ []) as (Haddress & _).
  destruct (C1_native_deposit_routes jarWorld jar DAI "1000" account
              {| deposit_slippage := None |} ∅ []) as (_ & Hjar & _).
  destruct (C1_native_deposit_routes legacyWorld vaultA WETH "1000" account
              {| deposit_slippage := None |} ∅ []) as (_ & _ & Hzap & _).
  split; [exact (Haddress eq_refl) |]. split; [exact (Hjar eq_refl) |].
  refine (Hzap eq_refl (static vaultA DAI "A") [] _ _ _); [reflexivity | discriminate].
Defined.

(** C1 as stated fails: the native asset deposited into a pickle jar by a
    partner-eligible account is quoted by the zapper with the PICKLE
    protocol and sent to the contract of the quote, not to the vault. *)
Lemma C1_native_deposit_into_jar_is_zapped :
  isNativeToken jarWorld ETH = true
  ∧ isZappingIntoPickleJar jarWorld jar = true
  ∧ shouldUsePartnerService jarWorld jar = true
  ∧ ∃ tx,
      deposit jarWorld jar ETH "1000" account
              {| deposit_slippage := Some (Finite (1 # 100)) |} ∅ []
      = (Fulfilled {| hash := "0xhash" |},
         [ZapperZapIn account ETH "1000" jar "0" (Finite (1 # 100)) false PICKLE
                      (Some "0xPartnerId");
          ValidateCalldata (VString zapContract) (VString "0xzap");
          SignerSendTransaction tx])
      ∧ prop tx "to" = VString zapContract
      ∧ prop tx "to" ≠ VString jar.
Proof.
  repeat split; try reflexivity.
  eexists. split; [vm_compute; reflexivity |]. split; [reflexivity | discriminate].
Qed.

(** C2 (amended).  A withdraw whose token is not the underlying token of
    the vault and whose options carry no slippage is rejected with the
    missing-slippage error right after the static record of the vault has
    been fetched: the only invocations are the [assetsStatic] queries of
    the registry adapters, and no quote, population or send is made. *)
Theorem C2_withdraw_without_slippage (w : World) vault token amount account options
    overrides t vaultRef rest t' :
  getStatic w (Some [vault]) (Some overrides) t = (Fulfilled (vaultRef :: rest), t') →
  VaultStatic.token vaultRef ≠ token →
  slippage options = None →
  withdraw w vault token amount account options overrides t
  = (Rejected missing_slippage, t')
  ∧ t' = t ++ map (λ adapter, AssetsStatic adapter (Some [vault]) (Some overrides))
                  (adapters w).
Proof.
  intros Hstatic Hne Hslippage. split.
  - unfold withdraw. rewrite (bind_fulfilled _ _ _ _ _ Hstatic).
    apply String.eqb_neq in Hne. by rewrite Hne, Hslippage.
  - pose proof (getStatic_trace w (Some [vault]) (Some overrides) t) as Htrace.
    by rewrite Hstatic in Htrace.
Qed.

Lemma C2_withdraw_without_slippage_witness :
  withdraw legacyWorld vaultA WETH "1000" account
           {| slippage := None; signature := None |} ∅ []
  = (Rejected missing_slippage, [AssetsStatic 0 (Some [vaultA]) (Some ∅)]).
Proof.
  refine (proj1 (C2_withdraw_without_slippage legacyWorld vaultA WETH "1000" account
                   {| slippage := None; signature := None |} ∅ []
                   (static vaultA DAI "A") [] _ _ _ _)).
  - reflexivity.
  - discriminate.
  - reflexivity.
Defined.

(** C2 as stated fails: the error is raised after one collaborator has
    been invoked, the registry adapter that serves the static record. *)
Lemma C2_static_lookup_precedes_the_error :
  withdraw legacyWorld vaultA WETH "1000" account
           {| slippage := None; signature := None |} ∅ []
  = (Rejected missing_slippage, [AssetsStatic 0 (Some [vaultA]) (Some ∅)])
  ∧ (withdraw legacyWorld vaultA WETH "1000" account
              {| slippage := None; signature := None |} ∅ []).2 ≠ [].
Proof. split; [reflexivity | discriminate]. Qed.

(** C8.  When the amount is omitted, [approveDeposit] and [approveWithdraw]
    approve the decimal rendering of [MaxUint256], that is 2^256 - 1: once
    the spender is resolved the approval is requested with that amount,
    and no other approval is requested. *)
Theorem C8_default_approval_is_unlimited (w : World) account vault token overrides t :
  BigNumber_toString MaxUint256 = MaxUint256_string
  ∧ approveDeposit w account vault token None overrides t
    = match getDepositContractAddress w vault token t with
      | (Fulfilled spender, t') =>
          (tokens_approve w t' account token spender MaxUint256_string overrides,
           t' ++ [TokensApprove account token spender MaxUint256_string overrides])
      | (Rejected e, t') => (Rejected e, t')
      end
  ∧ approveWithdraw w account vault token None overrides t
    = match getWithdrawContractAddress w vault token t with
      | (Fulfilled spender, t') =>
          (tokens_approve w t' account vault spender MaxUint256_string overrides,
           t' ++ [TokensApprove account vault spender MaxUint256_string overrides])
      | (Rejected e, t') => (Rejected e, t')
      end
  ∧ emits (approves_unlimited account token)
          (approveDeposit w account vault token None overrides)
  ∧ emits (approves_unlimited account vault)
          (approveWithdraw w account vault token None overrides).
Proof.
  assert (BigNumber_toString MaxUint256 = MaxUint256_string) as Hmax
    by (vm_compute; reflexivity).
  split; [exact Hmax |].
  unfold approveDeposit, approveWithdraw. simpl default. rewrite Hmax.
  split; [| split; [| split]].
  - unfold bind. by destruct (getDepositContractAddress w vault token t) as [[s | e] t'].
  - unfold bind. by destruct (getWithdrawContractAddress w vault token t) as [[s | e] t'].
  - apply emits_bind; [by apply emits_getDepositContractAddress |].
    intros spender. by apply emits_invoke.
  - apply emits_bind; [by apply emits_getWithdrawContractAddress |].
    intros spender. by apply emits_invoke.
Qed.

(** C9.  [getWithdrawAllowance] reads the allowance of the vault's share
    token, i.e. of the vault address, granted by the account to the spender
    that [getWithdrawContractAddress] resolves; the token parameter only
    reaches that resolution, and no allowance of another token or owner is
    read. *)
Theorem C9_withdraw_allowance_reads_vault_token (w : World) account vault token t :
  getWithdrawAllowance w account vault token t
  = match getWithdrawContractAddress w vault token t with
    | (Fulfilled spender, t') =>
        (tokens_allowance w t' account vault spender,
         t' ++ [TokensAllowance account vault spender])
    | (Rejected e, t') => (Rejected e, t')
    end
  ∧ emits (reads_allowance_of account vault) (getWithdrawAllowance w account vault token).
Proof.
  split.
  - unfold getWithdrawAllowance, bind.
    by destruct (getWithdrawContractAddress w vault token t) as [[s | e] t'].
  - apply emits_bind; [by apply emits_getWithdrawContractAddress |].
    intros spender. by apply emits_invoke.
Qed.

(** ** Submission *)

Section Sends.
Context {A B : Type}.

Lemma sends_resolve (a : A) : sends_at_most 0 (resolve a).
Proof. intros t. simpl. lia. Qed.





End Sends.

Section Submission.
Context (w : World).

Lemma emits_sendTransaction P tx :
  P (ValidateCalldata (prop tx "to") (prop tx "data")) →
  P (SignerSendTransaction tx) →
  emits P (sendTransaction w tx).
Proof.
  intros Hvalidate Hsend. apply emits_bind; [| intros; by apply emits_invoke].
  unfold validateTx. destruct (allowListService w); [by apply emits_invoke |].
  apply emits_resolve.
Qed.

Lemma emits_weaken {A} (P Q : Event → Prop) (m : Async A) :
  (∀ e, P e → Q e) → emits P m → emits Q m.
Proof.
  intros HPQ Hm t. destruct (Hm t) as (evs & Ht & HP). exists evs.
  split; [done |]. by eapply Forall_impl.
Qed.










Lemma sends_snoc t e :
  match e with SignerSendTransaction _ => False | _ => True end →
  sends (t ++ [e]) = sends t.
Proof. intros He. rewrite sends_app. unfold sends. simpl. destruct e; try done; lia. Qed.









End Submission.



(** On Fantom a zapped withdraw ends at the call of the missing method: a
    TypeError, after the static query, and nothing reaches the signer. *)
Example fantom_zap_is_rejected_before_any_send :
  withdraw fantomWorld vaultA WETH "1000" account
           {| slippage := Some (Finite 1); signature := None |} ∅ []
  = (Rejected (TypeError "this.yearn.services.wido.withdraw is not a function"),
     [AssetsStatic 0 (Some [vaultA]) (Some ∅)])
  ∧ deposit fantomWorld vaultA WETH "1000" account
            {| deposit_slippage := Some (Finite 1) |} ∅ []
    = (Rejected (TypeError "this.yearn.services.wido.deposit is not a function"),
       [AssetsStatic 0 (Some [vaultA]) (Some ∅)]).
Proof. split; vm_compute; reflexivity. Qed.

(** The fallback at work on a node that only takes legacy gas prices: a
    direct withdraw with an EIP-1559 override is sent twice, the second time
    with the caller's legacy gas price and without the fee fields. *)
Example legacy_node_is_served_by_the_second_attempt :
  ∃ populate1 tx1 populate2 tx2,
    withdraw legacyWorld vaultA DAI "1000" account
             {| slippage := None; signature := None |}
             {[ "gasPrice" := VBigNumber 9; "maxFeePerGas" := VBigNumber 3 ]} []
    = (Fulfilled {| hash := "0xhash" |},
       [AssetsStatic 0 (Some [vaultA])
          (Some {[ "gasPrice" := VBigNumber 9; "maxFeePerGas" := VBigNumber 3 ]});
        populate1; ValidateCalldata (VString vaultA) (VString "withdraw");
        SignerSendTransaction tx1;
        populate2; ValidateCalldata (VString vaultA) (VString "withdraw");
        SignerSendTransaction tx2])
    ∧ prop tx1 "gasPrice" = VUndefined
    ∧ prop tx1 "maxFeePerGas" = VBigNumber 3
    ∧ prop tx2 "gasPrice" = VBigNumber 9
    ∧ prop tx2 "maxFeePerGas" = VUndefined.
Proof. do 4 eexists. split; [vm_compute; reflexivity | done]. Qed.

(** ** The merged listing *)

Section Merge.
Context (vaultMetadataOverrides : list Overrides.t)
        (strategiesMetadata : list StrategiesMetadata.t)
        (assetsHistoricEarnings : list AssetHistoricEarnings.t).

Local Abbreviation loop :=
  (get_loop vaultMetadataOverrides strategiesMetadata assetsHistoricEarnings).

(** Updating a dynamic record in place does not change its address. *)
Lemma insert_same_address (assetsDynamic : list VaultDynamic.t) ref dynamic m :
  assetsDynamic !! ref = Some dynamic →
  map VaultDynamic.address (<[ref := VaultDynamic.set_metadata m dynamic]> assetsDynamic)
  = map VaultDynamic.address assetsDynamic.
Proof.
  intros Href. change (@map) with (@fmap list _).
  rewrite list_fmap_insert. apply list_insert_id.
  by rewrite list_lookup_fmap, Href.
Qed.

Lemma find_dynamic_None (assetsDynamic : list VaultDynamic.t) address :
  list_find (λ d, VaultDynamic.address d = address) assetsDynamic = None
  ↔ address ∉ map VaultDynamic.address assetsDynamic.
Proof.
  rewrite list_find_None, Forall_forall. split.
  - intros Hall Hin. apply list_elem_of_In, in_map_iff in Hin.
    destruct Hin as (d & Hd & Hin). apply list_elem_of_In in Hin. by apply (Hall d).
  - intros Hnot d Hin Hd. apply Hnot, list_elem_of_In, in_map_iff.
    exists d. split; [done | by apply list_elem_of_In].
Qed.

(** The loop stops at the first static record without a dynamic one. *)
Lemma get_loop_missing assetsStatic assetsDynamic assetsWithOrder asset :
  asset ∈ assetsStatic →
  VaultStatic.address asset ∉ map VaultDynamic.address assetsDynamic →
  ∃ a, a ∈ assetsStatic
       ∧ (VaultStatic.address a ∉ map VaultDynamic.address assetsDynamic)
       ∧ loop assetsStatic assetsDynamic assetsWithOrder
         = Rejected (missing_dynamic (VaultStatic.address a)).
Proof.
  revert assetsDynamic assetsWithOrder.
  induction assetsStatic as [| asset0 rest IH]; intros assetsDynamic assetsWithOrder Hin Hmiss.
  { by apply elem_of_nil in Hin. }
  simpl.
  destruct (list_find _ assetsDynamic) as [[ref dynamic] |] eqn:Hfind.
  - apply list_find_Some in Hfind as (Href & Haddr & _).
    apply elem_of_cons in Hin as [-> | Hin].
    { exfalso. apply Hmiss, list_elem_of_In, in_map_iff.
      exists dynamic. split; [done |]. apply list_elem_of_In. by eapply list_elem_of_lookup_2. }
    destruct (flag_set _).
    + destruct (IH assetsDynamic assetsWithOrder Hin Hmiss) as (a & Ha & Hna & Heq).
      exists a. split; [by right | done].
    + match goal with
      | |- context [loop rest (<[ref := VaultDynamic.set_metadata ?m dynamic]> _) ?acc] =>
          destruct (IH (<[ref := VaultDynamic.set_metadata m dynamic]> assetsDynamic) acc Hin)
            as (a & Ha & Hna & Heq);
          [by rewrite insert_same_address |
           rewrite insert_same_address in Hna by done]
      end.
      exists a. split; [by right | done].
  - apply find_dynamic_None in Hfind.
    exists asset0. split; [by left | done].
Qed.

(** When every static record has a dynamic one the loop completes. *)
Lemma get_loop_complete assetsStatic assetsDynamic assetsWithOrder :
  (∀ asset, asset ∈ assetsStatic →
            VaultStatic.address asset ∈ map VaultDynamic.address assetsDynamic) →
  ∃ result, loop assetsStatic assetsDynamic assetsWithOrder = Fulfilled result.
Proof.
  revert assetsDynamic assetsWithOrder.
  induction assetsStatic as [| asset0 rest IH]; intros assetsDynamic assetsWithOrder Hall.
  { by eexists. }
  simpl.
  destruct (list_find _ assetsDynamic) as [[ref dynamic] |] eqn:Hfind.
  - apply list_find_Some in Hfind as (Href & Haddr & _).
    destruct (flag_set _).
    + apply IH. intros asset Hin. apply Hall. by right.
    + apply IH. intros asset Hin. rewrite insert_same_address by done.
      apply Hall. by right.
  - apply find_dynamic_None in Hfind. exfalso. apply Hfind, Hall. by left.
Qed.

End Merge.

Lemma get_cache_miss (w : World) addresses overrides t vmo statics dynamics sm he t' :
  cachedFetcherGet w t = Fulfilled None →
  get_fetch w addresses overrides (t ++ [CacheFetch "vaults/get"])
  = (Fulfilled (vmo, statics, dynamics, sm, he), t') →
  get w addresses overrides t = (get_merge vmo sm he statics dynamics, t').
Proof.
  intros Hcache Hfetch. unfold get, bind at 1, invoke at 1. rewrite Hcache.
  by rewrite (bind_fulfilled _ _ _ _ _ Hfetch).
Qed.

(** C5.  On a cache miss, if some static record has no dynamic record of
    the same address among the fetched dynamic records, [get] is rejected
    with the error "Dynamic asset does not exist for ..." naming such a
    record: the record is not dropped from a fulfilled listing. *)
Theorem C5_missing_dynamic_aborts_listing (w : World) addresses overrides t
    vmo statics dynamics sm he t' asset :
  cachedFetcherGet w t = Fulfilled None →
  get_fetch w addresses overrides (t ++ [CacheFetch "vaults/get"])
  = (Fulfilled (vmo, statics, dynamics, sm, he), t') →
  asset ∈ statics →
  VaultStatic.address asset ∉ map VaultDynamic.address dynamics →
  ∃ a, a ∈ statics
       ∧ (VaultStatic.address a ∉ map VaultDynamic.address dynamics)
       ∧ get w addresses overrides t
         = (Rejected (missing_dynamic (VaultStatic.address a)), t').
Proof.
  intros Hcache Hfetch Hin Hmiss.
  destruct (get_loop_missing vmo sm he statics dynamics [] asset Hin Hmiss)
    as (a & Ha & Hna & Hloop).
  exists a. split; [done |]. split; [done |].
  rewrite (get_cache_miss _ _ _ _ _ _ _ _ _ _ Hcache Hfetch).
  unfold get_merge. by rewrite Hloop.
Qed.

Lemma C5_missing_dynamic_aborts_listing_witness :
  ∃ a, a ∈ [static vaultA DAI "A"; static vaultB DAI "B"]
       ∧ get divergedWorld None None []
         = (Rejected (missing_dynamic (VaultStatic.address a)),
            [CacheFetch "vaults/get"; MetaVaults; AssetsStatic 0 None None;
             CacheFetch "vaults/getDynamic"; ZapperSupportedVaultAddresses;
             AssetsDynamic 0 None None; VisionApy [vaultA];
             VaultsStrategiesMetadata [vaultA]; AssetsHistoricEarnings]).
Proof.
  edestruct (C5_missing_dynamic_aborts_listing divergedWorld None None []
               [override vaultB (Some true) None]
               [static vaultA DAI "A"; static vaultB DAI "B"]
               [enrichDynamic divergedWorld [override vaultB (Some true) None] ∅
                              (dynamic vaultA DAI)]
               [] []
               [CacheFetch "vaults/get"; MetaVaults; AssetsStatic 0 None None;
                CacheFetch "vaults/getDynamic"; ZapperSupportedVaultAddresses;
                AssetsDynamic 0 None None; VisionApy [vaultA];
                VaultsStrategiesMetadata [vaultA]; AssetsHistoricEarnings]
               (static vaultB DAI "B")) as (a & Ha & _ & Hget).
  - reflexivity.
  - reflexivity.
  - apply list_elem_of_In. simpl. auto.
  - intros Hin. apply list_elem_of_In in Hin. simpl in Hin.
    destruct Hin as [Heq | []]. discriminate Heq.
  - exists a. split; [exact Ha | exact Hget].
Defined.

(** C10.  The check for the dynamic record comes before the [hideAlways]
    filter: a static record that its override hides and that has no
    dynamic record makes the loop fail at that very record, and [get]
    is rejected with the missing-dynamic error instead of leaving the
    record out. *)
Theorem C10_missing_dynamic_checked_before_hideAlways (w : World) addresses overrides t
    vmo statics dynamics sm he t' asset hidden :
  cachedFetcherGet w t = Fulfilled None →
  get_fetch w addresses overrides (t ++ [CacheFetch "vaults/get"])
  = (Fulfilled (vmo, statics, dynamics, sm, he), t') →
  asset ∈ statics →
  findOverrides vmo (VaultStatic.address asset) = Some hidden →
  Overrides.hideAlways hidden = Some true →
  VaultStatic.address asset ∉ map VaultDynamic.address dynamics →
  (∀ rest entries,
     get_loop vmo sm he (asset :: rest) dynamics entries
     = Rejected (missing_dynamic (VaultStatic.address asset)))
  ∧ ∃ a, get w addresses overrides t
         = (Rejected (missing_dynamic (VaultStatic.address a)), t').
Proof.
  intros Hcache Hfetch Hin Hfind Hhide Hmiss. split.
  - intros rest entries. simpl.
    apply find_dynamic_None in Hmiss. by rewrite Hmiss.
  - destruct (get_loop_missing vmo sm he statics dynamics [] asset Hin Hmiss)
      as (a & _ & _ & Hloop).
    exists a. rewrite (get_cache_miss _ _ _ _ _ _ _ _ _ _ Hcache Hfetch).
    unfold get_merge. by rewrite Hloop.
Qed.

Lemma C10_missing_dynamic_checked_before_hideAlways_witness :
  ∃ a, get divergedWorld None None []
       = (Rejected (missing_dynamic (VaultStatic.address a)),
          [CacheFetch "vaults/get"; MetaVaults; AssetsStatic 0 None None;
           CacheFetch "vaults/getDynamic"; ZapperSupportedVaultAddresses;
           AssetsDynamic 0 None None; VisionApy [vaultA];
           VaultsStrategiesMetadata [vaultA]; AssetsHistoricEarnings]).
Proof.
  edestruct (C10_missing_dynamic_checked_before_hideAlways divergedWorld None None []
               [override vaultB (Some true) None]
               [static vaultA DAI "A"; static vaultB DAI "B"]
               [enrichDynamic divergedWorld [override vaultB (Some true) None] ∅
                              (dynamic vaultA DAI)]
               [] []
               [CacheFetch "vaults/get"; MetaVaults; AssetsStatic 0 None None;
                CacheFetch "vaults/getDynamic"; ZapperSupportedVaultAddresses;
                AssetsDynamic 0 None None; VisionApy [vaultA];
                VaultsStrategiesMetadata [vaultA]; AssetsHistoricEarnings]
               (static vaultB DAI "B")
               (override vaultB (Some true) None)) as (_ & Hget).
  - reflexivity.
  - reflexivity.
  - apply list_elem_of_In. simpl. auto.
  - reflexivity.
  - reflexivity.
  - intros Hin. apply list_elem_of_In in Hin. simpl in Hin.
    destruct Hin as [Heq | []]. discriminate Heq.
  - exact Hget.
Defined.

(** *** Sorting by [order] *)

Lemma key_le_refl k : regular k → key_le k k.
Proof.
  destruct k as [| | | q]; try done. intros _. unfold key_le. simpl.
  apply negb_false_iff, Qle_bool_iff. lra.
Qed.

Lemma key_le_trans a b c :
  regular a → regular b → regular c → key_le a b → key_le b c → key_le a c.
Proof.
  unfold key_le.
  destruct a as [| | | x], b as [| | | y], c as [| | | z]; simpl; try done.
  intros _ _ _ Hab Hbc.
  apply negb_false_iff, Qle_bool_iff in Hab, Hbc.
  apply negb_false_iff, Qle_bool_iff. lra.
Qed.

(** When the comparator sends [a] behind [b], [b] may stay in front of [a]. *)
Lemma key_le_flip a b :
  regular a → regular b → number_positive (number_sub a b) = true → key_le b a.
Proof.
  unfold key_le.
  destruct a as [| | | x], b as [| | | y]; simpl; try done.
  intros _ _ Hab. apply negb_true_iff in Hab.
  apply negb_false_iff, Qle_bool_iff.
  destruct (Qlt_le_dec 0 (x - y)) as [Hlt | Hle]; [lra |].
  apply Qle_bool_iff in Hle. congruence.
Qed.

Section Sorting.
Context {A : Type} (key : A → Number).

Local Abbreviation compareFn := (λ lhs rhs : A, number_sub (key lhs) (key rhs)).
Local Abbreviation before := (λ a b : A, key_le (key a) (key b)).

Lemma sort_insert_Permutation x (l : list A) : sort_insert compareFn x l ≡ₚ x :: l.
Proof.
  induction l as [| y l IH]; simpl; [done |].
  destruct (number_positive _); [| done].
  rewrite IH. apply Permutation_swap.
Qed.

Lemma Array_sort_Permutation (l : list A) : Array_sort compareFn l ≡ₚ l.
Proof.
  induction l as [| x l IH]; simpl; [done |].
  by rewrite sort_insert_Permutation, IH.
Qed.

Lemma sort_insert_sorted x (l : list A) :
  regular (key x) → Forall (λ y, regular (key y)) l →
  StronglySorted before l → StronglySorted before (sort_insert compareFn x l).
Proof.
  intros Hx Hreg Hsorted.
  induction Hsorted as [| y l Hsorted IH Hy]; simpl.
  { repeat constructor. }
  apply Forall_cons in Hreg as [Hry Hreg].
  destruct (number_positive _) eqn:Hpos.
  - constructor; [by apply IH |].
    rewrite sort_insert_Permutation. constructor; [| done].
    by apply key_le_flip.
  - constructor; [by constructor |].
    constructor; [done |].
    eapply Forall_impl; [apply Forall_and; split; [exact Hy | exact Hreg] |].
    intros z [Hyz Hrz]. simpl in *. by apply (key_le_trans _ (key y)).
Qed.

(** On regular keys the listing is in ascending order of the keys, with
    [-Infinity] in front of every finite key. *)
Lemma Array_sort_sorted (l : list A) :
  Forall (λ y, regular (key y)) l → StronglySorted before (Array_sort compareFn l).
Proof.
  induction l as [| x l IH]; simpl; intros Hreg; [constructor |].
  apply Forall_cons in Hreg as [Hx Hreg].
  apply sort_insert_sorted; [done | | by apply IH].
  by rewrite Array_sort_Permutation.
Qed.

(** An entry without an order is never behind an entry with one. *)
Lemma Array_sort_unordered_first (l l1 l2 l3 : list A) a b q :
  Forall (λ y, regular (key y)) l →
  Array_sort compareFn l = l1 ++ a :: l2 ++ b :: l3 →
  key a = Finite q → key b ≠ NegInfinity.
Proof.
  intros Hreg Hsplit Ha Hb.
  pose proof (Array_sort_sorted l Hreg) as Hsorted. rewrite Hsplit in Hsorted.
  apply StronglySorted_app_1_r, StronglySorted_inv in Hsorted as [_ Hall].
  rewrite Forall_app, Forall_cons in Hall. destruct Hall as (_ & Hab & _).
  unfold key_le in Hab. by rewrite Ha, Hb in Hab.
Qed.

End Sorting.

(** C3, at the failing input.  [vaultA] has the explicit order 1 and
    [vaultB] has no override; the key of [vaultB] is [Math.max()], which is
    [-Infinity], and the listing puts [vaultB] first. *)
Theorem C3_unordered_vault_sorts_first :
  Overrides.order <$> findOverrides [override vaultA None (Some (Finite 1))] vaultA
  = Some (Some (Finite 1))
  ∧ findOverrides [override vaultA None (Some (Finite 1))] vaultB = None
  ∧ Math_max [] = NegInfinity
  ∧ ∃ vaults,
      (get orderWorld None None []).1 = Fulfilled vaults
      ∧ map Vault.address vaults = [vaultB; vaultA].
Proof.
  repeat split. eexists. split; [vm_compute; reflexivity | reflexivity].
Qed.

(** ** Metadata overrides *)

(** C7 (amended).  Applied to a dynamic record, an override that lacks the
    display name, the symbol or the icon leaves the display name, the
    symbol and the icon of the record as they were, and an override that
    lacks [migrationAvailable] leaves the truth value of the migration flag
    as it was.  The zap routing hints, the disabled flags and the migration
    contract and target are copied from the override whether it has them or
    not. *)
Theorem C7_absent_override_fields (dynamic : VaultDynamic.t) (overrides : Overrides.t) :
  let before := VaultDynamic.metadata dynamic in
  let after := VaultDynamic.metadata (fillMetadataOverrides dynamic overrides) in
  (Overrides.displayName overrides = None →
   Metadata.displayName after = Metadata.displayName before)
  ∧ (Overrides.vaultSymbolOverride overrides = None →
     Metadata.symbol after = Metadata.symbol before)
  ∧ (Overrides.vaultIconOverride overrides = None →
     Metadata.displayIcon after = Metadata.displayIcon before)
  ∧ (Overrides.migrationAvailable overrides = None →
     flag_set (Metadata.migrationAvailable after)
     = flag_set (Metadata.migrationAvailable before))
  ∧ Metadata.allowZapIn after = Overrides.allowZapIn overrides
  ∧ Metadata.allowZapOut after = Overrides.allowZapOut overrides
  ∧ Metadata.zapInWith after = Overrides.zapInWith overrides
  ∧ Metadata.zapOutWith after = Overrides.zapOutWith overrides
  ∧ Metadata.depositsDisabled after = Overrides.depositsDisabled overrides
  ∧ Metadata.withdrawalsDisabled after = Overrides.withdrawalsDisabled overrides
  ∧ Metadata.migrationContract after = Overrides.migrationContract overrides
  ∧ Metadata.migrationTargetVault after = Overrides.migrationTargetVault overrides.
Proof.
  destruct dynamic as [address typeId tokenId balance m], overrides; simpl.
  repeat split; try (intros ->); simpl;
    repeat match goal with
           | |- context [if ?b then _ else _] => destruct b; simpl
           end;
    try reflexivity.
  all: by rewrite orb_false_r.
Qed.

Lemma C7_absent_override_fields_witness :
  Metadata.displayName
    (VaultDynamic.metadata
       (fillMetadataOverrides (zappable vaultA DAI) (override vaultA None None)))
  = "DAI".
Proof.
  exact (proj1 (C7_absent_override_fields (zappable vaultA DAI) (override vaultA None None))
               eq_refl).
Defined.

(** C7 as stated fails for the zap routing hints, the disabled flags and
    the migration targets: an override without them clears the values the
    record had. *)
Lemma C7_absent_zap_hint_clears_the_value :
  Overrides.allowZapIn (override vaultA None None) = None
  ∧ Overrides.zapInWith (override vaultA None None) = None
  ∧ Overrides.depositsDisabled (override vaultA None None) = None
  ∧ Overrides.migrationContract (override vaultA None None) = None
  ∧ Metadata.allowZapIn (VaultDynamic.metadata (zappable vaultA DAI)) = Some true
  ∧ Metadata.allowZapIn
      (VaultDynamic.metadata
         (fillMetadataOverrides (zappable vaultA DAI) (override vaultA None None)))
    = None
  ∧ Metadata.zapInWith
      (VaultDynamic.metadata
         (fillMetadataOverrides (zappable vaultA DAI) (override vaultA None None)))
    ≠ Metadata.zapInWith (VaultDynamic.metadata (zappable vaultA DAI))
  ∧ Metadata.depositsDisabled
      (VaultDynamic.metadata
         (fillMetadataOverrides (zappable vaultA DAI) (override vaultA None None)))
    ≠ Metadata.depositsDisabled (VaultDynamic.metadata (zappable vaultA DAI))
  ∧ Metadata.migrationContract
      (VaultDynamic.metadata
         (fillMetadataOverrides (zappable vaultA DAI) (override vaultA None None)))
    ≠ Metadata.migrationContract (VaultDynamic.metadata (zappable vaultA DAI)).
Proof. repeat split; (reflexivity || discriminate). Qed.

(** ** Chunked fallback *)

Section Chunks.
Context {A : Type}.
Implicit Types (array : list A) (size fuel : nat).

Lemma chunk_from_concat fuel size array :
  (0 < size)%nat → (length array ≤ fuel)%nat →
  concat (chunk_from fuel size array) = array.
Proof.
  intros Hsize. revert array.
  induction fuel as [| fuel IH]; intros array Hfuel.
  - destruct array; [done | simpl in Hfuel; lia].
  - destruct array as [| x array]; [done |].
    change (chunk_from (S fuel) size (x :: array))
      with (take size (x :: array) :: chunk_from fuel size (drop size (x :: array))).
    simpl concat. rewrite IH; [apply take_drop |].
    rewrite length_drop. simpl in *. lia.
Qed.

Lemma chunk_from_bounds fuel size array :
  (0 < size)%nat →
  Forall (λ chunk, (1 ≤ length chunk ≤ size)%nat) (chunk_from fuel size array).
Proof.
  intros Hsize. revert array.
  induction fuel as [| fuel IH]; intros array.
  - destruct array; constructor.
  - destruct array as [| x array]; [constructor |].
    change (chunk_from (S fuel) size (x :: array))
      with (take size (x :: array) :: chunk_from fuel size (drop size (x :: array))).
    constructor; [| apply IH].
    rewrite length_take. simpl. lia.
Qed.

(** The sizes of the chunks only depend on the number of elements. *)
Lemma chunk_from_lengths {B} fuel size array (array' : list B) :
  length array = length array' →
  map length (chunk_from fuel size array) = map length (chunk_from fuel size array').
Proof.
  revert array array'.
  induction fuel as [| fuel IH]; intros array array' Hlen.
  - by destruct array, array'.
  - destruct array as [| x array], array' as [| y array']; try done.
    change (chunk_from (S fuel) size (x :: array))
      with (take size (x :: array) :: chunk_from fuel size (drop size (x :: array))).
    change (chunk_from (S fuel) size (y :: array'))
      with (take size (y :: array') :: chunk_from fuel size (drop size (y :: array'))).
    simpl map. f_equal.
    + rewrite !length_take. by rewrite Hlen.
    + apply IH. rewrite !length_drop. by rewrite Hlen.
Qed.

Lemma chunkArray_concat array size :
  (0 < size)%nat → concat (chunkArray array size) = array.
Proof. intros. by apply chunk_from_concat. Qed.

Lemma chunkArray_61 array :
  length array = 61%nat → map length (chunkArray array 30) = [30; 30; 1]%nat.
Proof.
  intros Hlen. unfold chunkArray.
  rewrite (chunk_from_lengths _ _ _ (replicate 61 tt)), Hlen.
  - by vm_compute.
  - by rewrite length_replicate.
Qed.

End Chunks.


(** ** Chunk queries *)

Lemma enrichDynamic_address (w : World) metadataOverrides assetsApy dynamic :
  VaultDynamic.address (enrichDynamic w metadataOverrides assetsApy dynamic)
  = VaultDynamic.address dynamic.
Proof. unfold enrichDynamic. by destruct (findOverrides _ _). Qed.

Lemma dynamic_queries_app t1 t2 :
  dynamic_queries (t1 ++ t2) = dynamic_queries t1 ++ dynamic_queries t2.
Proof. apply omap_app. Qed.

Lemma position_queries_app t1 t2 :
  position_queries (t1 ++ t2) = position_queries t1 ++ position_queries t2.
Proof. apply omap_app. Qed.

(** A [Promise.all] of promises that are fulfilled from every history is
    fulfilled with their results, and adds their invocations. *)
Lemma Promise_all_fulfilled {X R} (f : X → Async R) (P : X → R → Trace → Prop)
    (xs : list X) t :
  (∀ x t, x ∈ xs → ∃ r evs, f x t = (Fulfilled r, t ++ evs) ∧ P x r evs) →
  ∃ res : list (R * Trace),
    Promise_all (map f xs) t = (Fulfilled (map fst res), t ++ concat (map snd res))
    ∧ Forall2 (λ x re, P x re.1 re.2) xs res.
Proof.
  revert t. induction xs as [| x xs IH]; intros t Hf.
  - exists []. simpl. unfold resolve. by rewrite app_nil_r.
  - destruct (Hf x t) as (r & evs & Hx & HP); [by left |].
    destruct (IH (t ++ evs)) as (res & Hall & Hres).
    { intros. apply Hf. by right. }
    exists ((r, evs) :: res). simpl. rewrite Hx, Hall. simpl.
    rewrite app_assoc. split; [done | by constructor].
Qed.

Section ChunkQueries.
Context (w : World) (overrides : option CallOverrides).

Lemma adapters_dynamic_run metadataOverrides addresses
    (records : nat → list VaultDynamic.t) t :
  (∀ t addrs, ∃ apy, vision_apy w t addrs = Fulfilled apy) →
  (∀ t adapter, adapter ∈ adapters w →
     adapter_assetsDynamic w t adapter addresses overrides = Fulfilled (records adapter)) →
  ∃ res : list (list VaultDynamic.t * Trace),
    Promise_all
      (map (λ adapter,
              let* data :=
                invoke (AssetsDynamic adapter addresses overrides)
                       (λ t, adapter_assetsDynamic w t adapter addresses overrides) in
              let* assetsApy :=
                invoke (VisionApy (map VaultDynamic.address data))
                       (λ t, vision_apy w t (map VaultDynamic.address data)) in
              resolve (map (enrichDynamic w metadataOverrides assetsApy) data))
           (adapters w)) t
    = (Fulfilled (map fst res), t ++ concat (map snd res))
    ∧ Forall2 (λ adapter re,
                 map VaultDynamic.address re.1 = map VaultDynamic.address (records adapter)
                 ∧ dynamic_queries re.2 = [(adapter, addresses)])
              (adapters w) res.
Proof.
  intros Hvision Hadapter.
  apply (Promise_all_fulfilled _
           (λ adapter r evs,
              map VaultDynamic.address r = map VaultDynamic.address (records adapter)
              ∧ dynamic_queries evs = [(adapter, addresses)])).
  intros adapter t0 Hin. unfold bind, invoke, resolve.
  rewrite (Hadapter t0 adapter Hin). cbv zeta.
  destruct (Hvision (t0 ++ [AssetsDynamic adapter addresses overrides])
                    (map VaultDynamic.address (records adapter))) as [apy ->].
  eexists _, _. split; [by rewrite <- app_assoc |]. split; [| done].
  rewrite map_map. apply map_ext. intros dynamic. apply enrichDynamic_address.
Qed.

Lemma getDynamic_chunk vmo addresses (records : nat → list VaultDynamic.t) t :
  (∀ t, cachedFetcherGetDynamic w t = Fulfilled None) →
  (∀ t, ∃ supported, zapper_supportedVaultAddresses w t = Fulfilled supported) →
  (∀ t addrs, ∃ apy, vision_apy w t addrs = Fulfilled apy) →
  (∀ t adapter, adapter ∈ adapters w →
     adapter_assetsDynamic w t adapter addresses overrides = Fulfilled (records adapter)) →
  ∃ dynamics evs,
    getDynamic w addresses (Some vmo) overrides t = (Fulfilled dynamics, t ++ evs)
    ∧ map VaultDynamic.address dynamics
      = concat (map (λ adapter, map VaultDynamic.address (records adapter)) (adapters w))
    ∧ dynamic_queries evs = map (λ adapter, (adapter, addresses)) (adapters w).
Proof.
  intros Hcache Hzapper Hvision Hadapter.
  assert (∀ ads (res : list (list VaultDynamic.t * Trace)),
            Forall2 (λ adapter re,
                       map VaultDynamic.address re.1
                       = map VaultDynamic.address (records adapter)
                       ∧ dynamic_queries re.2 = [(adapter, addresses)])
                    ads res →
            map VaultDynamic.address (concat (map fst res))
            = concat (map (λ adapter, map VaultDynamic.address (records adapter)) ads)
            ∧ dynamic_queries (concat (map snd res))
              = map (λ adapter, (adapter, addresses)) ads) as Hres.
  { intros ads res Hall.
    induction Hall as [| adapter re ads res [Hr Hevs] _ [IHr IHevs]]; [done |].
    simpl. by rewrite map_app, dynamic_queries_app, Hr, Hevs, IHr, IHevs. }
  unfold getDynamic. unfold bind at 1, invoke at 1. rewrite Hcache.
  unfold bind at 1, resolve at 1. unfold bind at 1.
  destruct (isEthereum w (chainId w)).
  - unfold bind at 1, invoke at 1.
    destruct (Hzapper (t ++ [CacheFetch "vaults/getDynamic"])) as [supported ->].
    unfold resolve at 1. unfold bind at 1.
    match goal with
    | |- context [enrichDynamic w ?mo] =>
        destruct (adapters_dynamic_run mo addresses records
                    ((t ++ [CacheFetch "vaults/getDynamic"])
                       ++ [ZapperSupportedVaultAddresses]) Hvision Hadapter)
          as (res & -> & Hall)
    end.
    destruct (Hres _ res Hall) as [Hr Hevs].
    eexists _, _. unfold resolve. split; [by rewrite <- !app_assoc |].
    split; [done |]. by simpl.
  - unfold resolve at 1. unfold bind at 1.
    match goal with
    | |- context [enrichDynamic w ?mo] =>
        destruct (adapters_dynamic_run mo addresses records
                    (t ++ [CacheFetch "vaults/getDynamic"]) Hvision Hadapter)
          as (res & -> & Hall)
    end.
    destruct (Hres _ res Hall) as [Hr Hevs].
    eexists _, _. unfold resolve. split; [by rewrite <- !app_assoc |].
    split; [done |]. by simpl.
Qed.

End ChunkQueries.

(** Promises that are fulfilled, from every history, with a result and
    invocations that do not depend on the history. *)
Lemma Promise_all_exact {X R} (f : X → Async R) (g : X → R) (ev : X → Trace)
    (xs : list X) t :
  (∀ x t, x ∈ xs → f x t = (Fulfilled (g x), t ++ ev x)) →
  Promise_all (map f xs) t = (Fulfilled (map g xs), t ++ concat (map ev xs)).
Proof.
  revert t. induction xs as [| x xs IH]; intros t Hf.
  - simpl. unfold resolve. by rewrite app_nil_r.
  - simpl. rewrite (Hf x t) by (by left).
    rewrite IH by (intros; apply Hf; by right).
    by rewrite app_assoc.
Qed.

Lemma concat_singletons {X Y} (f : X → Y) (xs : list X) :
  concat (map (λ x, [f x]) xs) = map f xs.
Proof. induction xs as [| x xs IH]; [done |]. simpl. by rewrite IH. Qed.

Lemma Permutation_concat_map {X Y} (f g : X → list Y) (xs : list X) :
  (∀ x, x ∈ xs → f x ≡ₚ g x) → concat (map f xs) ≡ₚ concat (map g xs).
Proof.
  induction xs as [| x xs IH]; intros Hfg; [done |].
  simpl. rewrite (Hfg x) by (by left). rewrite IH; [done |].
  intros. apply Hfg. by right.
Qed.

Lemma concat_map_app_Permutation {X Y} (f g : X → list Y) (xs : list X) :
  concat (map (λ x, f x ++ g x) xs) ≡ₚ concat (map f xs) ++ concat (map g xs).
Proof.
  induction xs as [| x xs IH]; [done |].
  simpl. rewrite IH. by rewrite <- !app_assoc, (Permutation_app_swap_app (g x)).
Qed.

(** The answers per adapter and chunk hold the same records whether they
    are flattened adapter by adapter or chunk by chunk. *)
Lemma concat_transpose {X Y Z} (f : X → Y → list Z) (xs : list X) (ys : list Y) :
  concat (map (λ x, concat (map (λ y, f x y) ys)) xs)
  ≡ₚ concat (map (λ y, concat (map (λ x, f x y) xs)) ys).
Proof.
  induction xs as [| x xs IH]; simpl.
  - induction ys as [| y ys IHy]; [done |]. by simpl.
  - rewrite IH. by rewrite <- concat_map_app_Permutation.
Qed.

Section Fallback.
Context (w : World) (overrides : option CallOverrides).

Lemma getStatic_exact addresses (staticsOf : nat → list VaultStatic.t) t :
  (∀ t adapter, adapter ∈ adapters w →
     adapter_assetsStatic w t adapter addresses overrides = Fulfilled (staticsOf adapter)) →
  getStatic w addresses overrides t
  = (Fulfilled (concat (map staticsOf (adapters w))),
     t ++ map (λ adapter, AssetsStatic adapter addresses overrides) (adapters w)).
Proof.
  intros Hstatic. unfold getStatic, bind.
  rewrite (Promise_all_exact _ staticsOf
             (λ adapter, [AssetsStatic adapter addresses overrides])).
  - by rewrite (concat_singletons (λ adapter, AssetsStatic adapter addresses overrides)).
  - intros adapter t0 Hin. unfold invoke. by rewrite Hstatic.
Qed.

(** Lines 70-75 of [get], once the unchunked query has been rejected. *)
Lemma get_assetsDynamic_fallback addresses vmo statics
    (dynamicsOf : list Address → nat → list VaultDynamic.t) e t t1 :
  let allAddresses := map VaultStatic.address statics in
  let chunks := chunkArray allAddresses 30 in
  getDynamic w addresses (Some vmo) overrides t = (Rejected e, t1) →
  (∀ t, cachedFetcherGetDynamic w t = Fulfilled None) →
  (∀ t, ∃ supported, zapper_supportedVaultAddresses w t = Fulfilled supported) →
  (∀ t addrs, ∃ apy, vision_apy w t addrs = Fulfilled apy) →
  serves_chunks (adapters w) chunks
                (λ t adapter chunk, adapter_assetsDynamic w t adapter chunk overrides)
                VaultDynamic.address dynamicsOf →
  ∃ dynamics evs,
    get_assetsDynamic w addresses vmo statics overrides t = (Fulfilled dynamics, t1 ++ evs)
    ∧ map VaultDynamic.address dynamics ≡ₚ allAddresses
    ∧ dynamic_queries evs ≡ₚ chunk_queries (adapters w) chunks.
Proof.
  intros allAddresses chunks Hunchunked Hcache Hzapper Hvision Hserved.
  unfold get_assetsDynamic, try_catch. rewrite Hunchunked. fold allAddresses chunks.
  unfold bind.
  destruct (Promise_all_fulfilled
              (λ chunk, getDynamic w (Some chunk) (Some vmo) overrides)
              (λ chunk dynamics evs,
                 map VaultDynamic.address dynamics
                 = concat (map (λ adapter, map VaultDynamic.address (dynamicsOf chunk adapter))
                               (adapters w))
                 ∧ dynamic_queries evs = map (λ adapter, (adapter, Some chunk)) (adapters w))
              chunks t1) as (res & -> & Hres).
  { intros chunk t0 Hin. destruct (Hserved chunk Hin) as [Hanswer _].
    by apply getDynamic_chunk. }
  exists (concat (map fst res)), (concat (map snd res)). split; [done |].
  assert (map VaultDynamic.address (concat (map fst res))
          = concat (map (λ chunk,
                           concat (map (λ adapter,
                                          map VaultDynamic.address (dynamicsOf chunk adapter))
                                       (adapters w)))
                        chunks)
          ∧ dynamic_queries (concat (map snd res)) = chunk_queries (adapters w) chunks)
    as [-> ->].
  { unfold chunk_queries. clear Hserved.
    induction Hres as [| chunk re cs res [Hr Hevs] _ [IHr IHevs]]; [done |].
    simpl. by rewrite map_app, dynamic_queries_app, Hr, Hevs, IHr, IHevs. }
  split; [| done].
  rewrite (Permutation_concat_map _ id).
  - rewrite map_id. subst chunks. rewrite chunkArray_concat; [done | lia].
  - intros chunk Hin. by destruct (Hserved chunk Hin) as [_ Hcover].
Qed.

Lemma position_queries_statics addresses (ads : list nat) :
  position_queries (map (λ adapter, AssetsStatic adapter addresses overrides) ads) = [].
Proof. by induction ads. Qed.

Lemma position_queries_chunks adapter account (chunks : list (list Address)) :
  position_queries
    (map (λ chunk, AdapterPositionsOf adapter account (Some chunk) overrides) chunks)
  = map (λ chunk, (adapter, Some chunk)) chunks.
Proof.
  unfold position_queries.
  induction chunks as [| chunk chunks IH]; [done |].
  simpl. by f_equal.
Qed.

(** [positionsOf] when no adapter falls back. *)
Lemma positionsOf_unchunked account addresses (positions : nat → list Position.t) t :
  (∀ t adapter, adapter ∈ adapters w →
     adapter_positionsOf w t adapter account addresses overrides
     = Fulfilled (positions adapter)) →
  positionsOf w account addresses overrides t
  = (Fulfilled (concat (map positions (adapters w))),
     t ++ map (λ adapter, AdapterPositionsOf adapter account addresses overrides)
              (adapters w)).
Proof.
  intros Hanswer. unfold positionsOf, bind.
  rewrite (Promise_all_exact _ positions
             (λ adapter, [AdapterPositionsOf adapter account addresses overrides])).
  - by rewrite (concat_singletons
                  (λ adapter, AdapterPositionsOf adapter account addresses overrides)).
  - intros adapter t0 Hin.
    unfold positionsOf_adapter, try_catch, adapter_positions, invoke.
    by rewrite Hanswer.
Qed.

(** Lines 219-231 of [positionsOf], for one adapter whose unchunked query
    is rejected. *)
Lemma positionsOf_adapter_fallback adapter account addresses
    (positionsFor : list Address → nat → list Position.t)
    (staticsOf : nat → list VaultStatic.t) t :
  let requested :=
    default (map VaultStatic.address (concat (map staticsOf (adapters w)))) addresses in
  let chunks := chunkArray requested 30 in
  (∃ e, adapter_positionsOf w t adapter account addresses overrides = Rejected e) →
  (addresses = None →
   ∀ t adapter, adapter ∈ adapters w →
     adapter_assetsStatic w t adapter None overrides = Fulfilled (staticsOf adapter)) →
  (∀ chunk t, chunk ∈ chunks →
     adapter_positionsOf w t adapter account (Some chunk) overrides
     = Fulfilled (positionsFor chunk adapter)) →
  positionsOf_adapter w adapter account addresses overrides t
  = (Fulfilled (concat (map (λ chunk, positionsFor chunk adapter) chunks)),
     t ++ [AdapterPositionsOf adapter account addresses overrides]
       ++ match addresses with
          | None => map (λ adapter, AssetsStatic adapter None overrides) (adapters w)
          | Some _ => []
          end
       ++ map (λ chunk, AdapterPositionsOf adapter account (Some chunk) overrides) chunks).
Proof.
  intros requested chunks [e Hunchunked] Hstatic Hanswer.
  unfold positionsOf_adapter, try_catch, adapter_positions at 1, invoke at 1.
  rewrite Hunchunked. unfold bind at 1.
  assert (∀ t0,
            Promise_all
              (map (λ chunk, adapter_positions w adapter account (Some chunk) overrides)
                   chunks) t0
            = (Fulfilled (map (λ chunk, positionsFor chunk adapter) chunks),
               t0 ++ map (λ chunk, AdapterPositionsOf adapter account (Some chunk) overrides)
                         chunks)) as Hchunks.
  { intros t0.
    rewrite (Promise_all_exact _ (λ chunk, positionsFor chunk adapter)
               (λ chunk, [AdapterPositionsOf adapter account (Some chunk) overrides])).
    - by rewrite (concat_singletons
                    (λ chunk, AdapterPositionsOf adapter account (Some chunk) overrides)).
    - intros chunk t1 Hin. unfold adapter_positions, invoke. by rewrite Hanswer. }
  destruct addresses as [addresses |].
  - unfold resolve at 1. unfold bind. fold requested chunks.
    rewrite Hchunks. unfold resolve. by rewrite <- !app_assoc.
  - unfold bind at 1. rewrite (getStatic_exact None staticsOf) by (by apply Hstatic).
    unfold resolve at 1. unfold bind. fold requested chunks.
    rewrite Hchunks. unfold resolve. by rewrite <- !app_assoc.
Qed.

Lemma positionsOf_fallback account addresses
    (positionsFor : list Address → nat → list Position.t)
    (staticsOf : nat → list VaultStatic.t) t :
  let requested :=
    default (map VaultStatic.address (concat (map staticsOf (adapters w)))) addresses in
  let chunks := chunkArray requested 30 in
  (∀ t adapter, adapter ∈ adapters w →
     ∃ e, adapter_positionsOf w t adapter account addresses overrides = Rejected e) →
  (addresses = None →
   ∀ t adapter, adapter ∈ adapters w →
     adapter_assetsStatic w t adapter None overrides = Fulfilled (staticsOf adapter)) →
  serves_chunks (adapters w) chunks
                (λ t adapter chunk, adapter_positionsOf w t adapter account chunk overrides)
                Position.assetAddress positionsFor →
  ∃ positions evs,
    positionsOf w account addresses overrides t = (Fulfilled positions, t ++ evs)
    ∧ map Position.assetAddress positions ≡ₚ requested
    ∧ position_queries evs
      ≡ₚ concat (map (λ adapter,
                        (adapter, addresses) :: map (λ chunk, (adapter, Some chunk)) chunks)
                     (adapters w)).
Proof.
  intros requested chunks Hunchunked Hstatic Hserved.
  unfold positionsOf, bind.
  rewrite (Promise_all_exact _
             (λ adapter, concat (map (λ chunk, positionsFor chunk adapter) chunks))
             (λ adapter,
                [AdapterPositionsOf adapter account addresses overrides]
                  ++ match addresses with
                     | None => map (λ adapter, AssetsStatic adapter None overrides)
                                   (adapters w)
                     | Some _ => []
                     end
                  ++ map (λ chunk, AdapterPositionsOf adapter account (Some chunk) overrides)
                         chunks)).
  2: { intros adapter t0 Hin.
       apply positionsOf_adapter_fallback; [by apply Hunchunked | done |].
       intros chunk t1 Hchunk. by apply (Hserved chunk Hchunk). }
  eexists _, _. unfold resolve. split; [done |]. split.
  - rewrite concat_map, map_map.
    rewrite (map_ext _ (λ adapter,
                          concat (map (λ chunk,
                                         map Position.assetAddress
                                             (positionsFor chunk adapter))
                                      chunks))).
    2: { intros adapter. by rewrite concat_map, map_map. }
    rewrite (concat_transpose
               (λ adapter chunk, map Position.assetAddress (positionsFor chunk adapter))).
    rewrite (Permutation_concat_map _ id).
    + rewrite map_id. subst chunks. rewrite chunkArray_concat; [done | lia].
    + intros chunk Hin. by destruct (Hserved chunk Hin) as [_ Hcover].
  - induction (adapters w) as [| adapter ads IH] at 2 3; [done |].
    simpl. rewrite !position_queries_app, IH.
    rewrite position_queries_chunks.
    destruct addresses; [done |]. by rewrite position_queries_statics.
Qed.

End Fallback.

(** C6.  The chunks are those of [chunkArray] with size 30 over the full
    address list: each holds between 1 and 30 addresses, together they are
    the address list, and 61 addresses give chunks of 30, 30 and 1.  In
    [get] and in [positionsOf] a fulfilled unchunked query is the answer,
    and no chunk query is made.  When the unchunked query of [get] has
    been rejected, and the registry adapters serve the chunks, every chunk
    is queried once at every adapter and the flattened answers hold one
    record for each address of the static records.  When the unchunked
    position queries are rejected, and the adapters serve the chunks of
    the requested addresses (of the addresses of all static records when
    none is requested), every adapter is asked once for every chunk and
    the flattened answers hold one position for each of these addresses.
    The queries are counted without regard to their order. *)
Theorem C6_chunked_fallback (w : World) addresses vmo statics overrides account
    (dynamicsOf : list Address → nat → list VaultDynamic.t)
    (positionsFor : list Address → nat → list Position.t)
    (staticsOf : nat → list VaultStatic.t) t :
  let allAddresses := map VaultStatic.address statics in
  let chunks := chunkArray allAddresses 30 in
  let requested :=
    default (map VaultStatic.address (concat (map staticsOf (adapters w)))) addresses in
  let positionChunks := chunkArray requested 30 in
  concat chunks = allAddresses
  ∧ Forall (λ chunk, (1 ≤ length chunk ≤ 30)%nat) chunks
  ∧ (length statics = 61%nat → map length chunks = [30; 30; 1]%nat)
  ∧ (∀ dynamics t1,
       getDynamic w addresses (Some vmo) overrides t = (Fulfilled dynamics, t1) →
       get_assetsDynamic w addresses vmo statics overrides t = (Fulfilled dynamics, t1))
  ∧ (∀ positions : nat → list Position.t,
       (∀ t adapter, adapter ∈ adapters w →
          adapter_positionsOf w t adapter account addresses overrides
          = Fulfilled (positions adapter)) →
       positionsOf w account addresses overrides t
       = (Fulfilled (concat (map positions (adapters w))),
          t ++ map (λ adapter, AdapterPositionsOf adapter account addresses overrides)
                   (adapters w)))
  ∧ (∀ e t1,
       getDynamic w addresses (Some vmo) overrides t = (Rejected e, t1) →
       (∀ t, cachedFetcherGetDynamic w t = Fulfilled None) →
       (∀ t, ∃ supported, zapper_supportedVaultAddresses w t = Fulfilled supported) →
       (∀ t addrs, ∃ apy, vision_apy w t addrs = Fulfilled apy) →
       serves_chunks (adapters w) chunks
                     (λ t adapter chunk, adapter_assetsDynamic w t adapter chunk overrides)
                     VaultDynamic.address dynamicsOf →
       ∃ dynamics evs,
         get_assetsDynamic w addresses vmo statics overrides t
         = (Fulfilled dynamics, t1 ++ evs)
         ∧ map VaultDynamic.address dynamics ≡ₚ allAddresses
         ∧ dynamic_queries evs ≡ₚ chunk_queries (adapters w) chunks)
  ∧ ((∀ t adapter, adapter ∈ adapters w →
        ∃ e, adapter_positionsOf w t adapter account addresses overrides = Rejected e) →
     (addresses = None →
      ∀ t adapter, adapter ∈ adapters w →
        adapter_assetsStatic w t adapter None overrides = Fulfilled (staticsOf adapter)) →
     serves_chunks (adapters w) positionChunks
                   (λ t adapter chunk,
                      adapter_positionsOf w t adapter account chunk overrides)
                   Position.assetAddress positionsFor →
     ∃ positions evs,
       positionsOf w account addresses overrides t = (Fulfilled positions, t ++ evs)
       ∧ map Position.assetAddress positions ≡ₚ requested
       ∧ position_queries evs
         ≡ₚ concat (map (λ adapter,
                           (adapter, addresses)
                             :: map (λ chunk, (adapter, Some chunk)) positionChunks)
                        (adapters w))).
Proof.
  intros allAddresses chunks requested positionChunks.
  split; [| split; [| split; [| split; [| split; [| split]]]]].
  - apply chunkArray_concat. lia.
  - apply chunk_from_bounds. lia.
  - intros Hlen. apply chunkArray_61. subst allAddresses. by rewrite length_map.
  - intros dynamics t1 Hunchunked. unfold get_assetsDynamic, try_catch.
    by rewrite Hunchunked.
  - intros positions. apply positionsOf_unchunked.
  - intros e t1. apply get_assetsDynamic_fallback.
  - apply positionsOf_fallback.
Qed.

Lemma C6_chunked_fallback_witness :
  map length (chunkArray manyAddresses 30) = [30; 30; 1]%nat
  ∧ (∃ dynamics evs,
       get_assetsDynamic chunkWorld None [] (map (λ a, static a DAI "v") manyAddresses)
                         None []
       = (Fulfilled dynamics,
          [CacheFetch "vaults/getDynamic"; ZapperSupportedVaultAddresses;
           AssetsDynamic 0 None None] ++ evs)
       ∧ map VaultDynamic.address dynamics ≡ₚ manyAddresses
       ∧ dynamic_queries evs ≡ₚ chunk_queries [0%nat] (chunkArray manyAddresses 30))
  ∧ ∃ positions evs,
      positionsOf chunkWorld account (Some manyAddresses) None [] = (Fulfilled positions, evs)
      ∧ map Position.assetAddress positions ≡ₚ manyAddresses
      ∧ position_queries evs
        ≡ₚ concat (map (λ adapter,
                          (adapter, Some manyAddresses)
                            :: map (λ chunk, (adapter, Some chunk))
                                   (chunkArray manyAddresses 30))
                       [0%nat]).
Proof.
  destruct (C6_chunked_fallback chunkWorld (Some manyAddresses) []
              (map (λ a, static a DAI "v") manyAddresses) None account
              (λ chunk _, map (λ a, dynamic a DAI) chunk)
              (λ chunk _, map (λ a, position (dynamic a DAI)) chunk)
              (λ _, []) [])
    as (_ & _ & Hsizes & _ & _ & _ & Hpositions).
  destruct (C6_chunked_fallback chunkWorld None []
              (map (λ a, static a DAI "v") manyAddresses) None account
              (λ chunk _, map (λ a, dynamic a DAI) chunk)
              (λ chunk _, map (λ a, position (dynamic a DAI)) chunk)
              (λ _, []) [])
    as (_ & _ & _ & _ & _ & Hdynamics & _).
  assert (∀ chunk, chunk ∈ chunkArray manyAddresses 30 →
                   chunk = take 30 manyAddresses
                   ∨ chunk = take 30 (drop 30 manyAddresses)
                   ∨ chunk = drop 60 manyAddresses) as Hchunks.
  { intros chunk Hin. vm_compute in Hin.
    repeat (apply elem_of_cons in Hin as [-> | Hin]);
      [by left | by right; left | by right; right | by apply elem_of_nil in Hin]. }
  split; [| split].
  - apply Hsizes. reflexivity.
  - apply (Hdynamics (OtherError "call size limit exceeded")
                     [CacheFetch "vaults/getDynamic"; ZapperSupportedVaultAddresses;
                      AssetsDynamic 0 None None]).
    + vm_compute. reflexivity.
    + reflexivity.
    + intros. by eexists.
    + intros. by eexists.
    + intros chunk Hin.
      destruct (Hchunks chunk Hin) as [-> | [-> | ->]];
        (split; [intros; vm_compute; reflexivity | vm_compute; reflexivity]).
  - destruct Hpositions as (positions & evs & Hrun & Hkeys & Hqueries).
    + intros. eexists. vm_compute. reflexivity.
    + discriminate.
    + intros chunk Hin.
      destruct (Hchunks chunk Hin) as [-> | [-> | ->]];
        (split; [intros; vm_compute; reflexivity | vm_compute; reflexivity]).
    + exists positions, evs. split; [exact Hrun |]. split; [exact Hkeys |].
      exact Hqueries.
Defined.

(** * Further properties of the vault interface *)

(** ** What the listing contains *)

Section Listing.
Context (vmo : list Overrides.t) (sm : list StrategiesMetadata.t)
        (he : list AssetHistoricEarnings.t).

Local Abbreviation visible :=
  (λ asset : VaultStatic.t, negb (hidden vmo (VaultStatic.address asset))).

Local Abbreviation entry_ok := (entry_ok vmo).

Lemma get_loop_entries assetsStatic assetsDynamic entries assetsDynamic' entries' :
  get_loop vmo sm he assetsStatic assetsDynamic entries
  = Fulfilled (assetsDynamic', entries') →
  Forall entry_ok entries →
  map ordered_asset entries'
  = map ordered_asset entries ++ List.filter visible assetsStatic
  ∧ Forall entry_ok entries'.
Proof.
  revert assetsDynamic entries.
  induction assetsStatic as [| asset rest IH]; intros assetsDynamic entries Hloop Hok.
  { simpl in Hloop. injection Hloop as <- <-. by rewrite app_nil_r. }
  simpl in Hloop.
  destruct (list_find _ assetsDynamic) as [[ref dynamic] |] eqn:Hfind; [| done].
  apply list_find_Some in Hfind as (Href & Haddr & _).
  simpl. unfold hidden at 1.
  destruct (flag_set _) eqn:Hhidden; simpl.
  - by apply IH in Hloop.
  - apply IH in Hloop as [Hassets Hok'].
    + split; [| done]. rewrite Hassets, map_app. simpl. by rewrite <- app_assoc.
    + apply Forall_app. split; [done |].
      constructor; [| constructor]. by split.
Qed.

Lemma vault_of_static_part assetsDynamic e :
  entry_ok e → static_part (vault_of assetsDynamic e) = static_fields (ordered_asset e).
Proof. intros [Haddr _]. unfold static_part, static_fields. simpl. by rewrite Haddr. Qed.

(** The sorted entries of a fulfilled merge. *)
Lemma get_merge_entries assetsStatic assetsDynamic vaults :
  get_merge vmo sm he assetsStatic assetsDynamic = Fulfilled vaults →
  ∃ store entries,
    vaults = map (vault_of store) entries
    ∧ Forall entry_ok entries
    ∧ map ordered_asset entries ≡ₚ List.filter visible assetsStatic
    ∧ (Forall (λ e, regular (order e)) entries →
       StronglySorted (λ a b, key_le (order a) (order b)) entries).
Proof.
  unfold get_merge. intros Hmerge.
  destruct (get_loop vmo sm he assetsStatic assetsDynamic [])
    as [[store entries] | e] eqn:Hloop; [| done].
  injection Hmerge as <-.
  apply get_loop_entries in Hloop as [Hassets Hok]; [| constructor].
  simpl in Hassets.
  exists store, (Array_sort (λ lhs rhs, number_sub (order lhs) (order rhs)) entries).
  split; [done |].
  split; [by rewrite (Array_sort_Permutation order) |].
  split.
  - rewrite <- Hassets. apply Permutation_map. apply (Array_sort_Permutation order).
  - intros Hreg. apply (Array_sort_sorted order).
    by rewrite (Array_sort_Permutation order) in Hreg.
Qed.

End Listing.

Lemma map_ext_Forall' {A B} (f g : A → B) (l : list A) :
  Forall (λ x, f x = g x) l → map f l = map g l.
Proof. induction 1; simpl; congruence. Qed.

(** X1.  A fulfilled listing holds exactly one vault per static record that
    is not hidden by its override, with the address, token, name, version,
    symbol and decimals of that record: nothing else is left out, added or
    duplicated. *)
Theorem X1_listing_is_the_visible_static_records (w : World) addresses overrides t
    vmo statics dynamics sm he t' vaults t'' :
  cachedFetcherGet w t = Fulfilled None →
  get_fetch w addresses overrides (t ++ [CacheFetch "vaults/get"])
  = (Fulfilled (vmo, statics, dynamics, sm, he), t') →
  get w addresses overrides t = (Fulfilled vaults, t'') →
  map static_part vaults
  ≡ₚ map static_fields
       (List.filter (λ asset, negb (hidden vmo (VaultStatic.address asset))) statics).
Proof.
  intros Hcache Hfetch Hget.
  rewrite (get_cache_miss _ _ _ _ _ _ _ _ _ _ Hcache Hfetch) in Hget.
  injection Hget as Hmerge _.
  apply get_merge_entries in Hmerge as (store & entries & -> & Hok & Hperm & _).
  rewrite <- Hperm, !map_map.
  erewrite map_ext_Forall'; [done |].
  eapply Forall_impl; [exact Hok |].
  intros e He. by apply (vault_of_static_part vmo).
Qed.

Import Fixtures.

(** Runs [get] and its fetch phase in a sample world and hands the values
    to a statement about the listing. *)
Ltac listing_witness w statement :=
  let fetched :=
    eval vm_compute in (get_fetch w None None ([] ++ [CacheFetch "vaults/get"])) in
  let listed := eval vm_compute in (get w None None []) in
  match fetched with
  | (Fulfilled (?vmo, ?statics, ?dynamics, ?sm, ?he), ?t') =>
      match listed with
      | (Fulfilled ?vaults, ?t'') =>
          exists vaults; split; [vm_compute; reflexivity |];
          refine (statement w None None [] vmo statics dynamics sm he t' vaults t''
                            eq_refl _ _);
          vm_compute; reflexivity
      end
  end.

Lemma X1_listing_is_the_visible_static_records_witness :
  ∃ vaults,
    (get hiddenWorld None None []).1 = Fulfilled vaults
    ∧ map static_part vaults
      ≡ₚ map static_fields
           (List.filter
              (λ asset,
                 negb (hidden [override vaultA None (Some (Finite 2));
                               override vaultB (Some true) (Some (Finite 0));
                               override vaultC None (Some (Finite 1))]
                              (VaultStatic.address asset)))
              [static vaultA DAI "A"; static vaultB DAI "B"; static vaultC DAI "C"]).
Proof. listing_witness hiddenWorld X1_listing_is_the_visible_static_records. Defined.

(** X2.  On a cache miss, a vault whose override sets [hideAlways] is in
    no fulfilled listing, whatever its [order].  (A cached listing is
    returned as it is.) *)
Theorem X2_hidden_vault_is_never_listed (w : World) addresses overrides t
    vmo statics dynamics sm he t' vaults t'' :
  cachedFetcherGet w t = Fulfilled None →
  get_fetch w addresses overrides (t ++ [CacheFetch "vaults/get"])
  = (Fulfilled (vmo, statics, dynamics, sm, he), t') →
  get w addresses overrides t = (Fulfilled vaults, t'') →
  Forall (λ vault, hidden vmo (Vault.address vault) = false) vaults.
Proof.
  intros Hcache Hfetch Hget.
  rewrite (get_cache_miss _ _ _ _ _ _ _ _ _ _ Hcache Hfetch) in Hget.
  injection Hget as Hmerge _.
  apply get_merge_entries in Hmerge as (store & entries & -> & Hok & Hperm & _).
  apply Forall_forall. intros vault Hin.
  apply list_elem_of_In, in_map_iff in Hin as (e & <- & He).
  assert (ordered_asset e ∈ map ordered_asset entries) as Hasset.
  { apply list_elem_of_In, in_map. exact He. }
  rewrite Hperm in Hasset. apply list_elem_of_In, filter_In in Hasset as [_ Hvisible].
  apply list_elem_of_In in He. rewrite Forall_forall in Hok.
  destruct (Hok e He) as [Haddr _]. simpl. rewrite Haddr.
  by apply negb_true_iff.
Qed.

Lemma X2_hidden_vault_is_never_listed_witness :
  ∃ vaults,
    (get hiddenWorld None None []).1 = Fulfilled vaults
    ∧ Forall (λ vault,
                hidden [override vaultA None (Some (Finite 2));
                        override vaultB (Some true) (Some (Finite 0));
                        override vaultC None (Some (Finite 1))]
                       (Vault.address vault) = false) vaults.
Proof. listing_witness hiddenWorld X2_hidden_vault_is_never_listed. Defined.

Lemma StronglySorted_map_on {A B} (P : A → Prop) (R1 : relation A) (R2 : relation B)
    (f : A → B) (l : list A) :
  (∀ x y, P x → P y → R1 x y → R2 (f x) (f y)) →
  Forall P l → StronglySorted R1 l → StronglySorted R2 (map f l).
Proof.
  intros HR HP Hsorted. induction Hsorted as [| x l Hsorted IH Hx]; simpl.
  { constructor. }
  apply Forall_cons in HP as [HPx HP].
  constructor; [by apply IH |].
  apply Forall_map, Forall_forall. intros y Hy.
  rewrite Forall_forall in Hx, HP. by apply HR; auto.
Qed.

Lemma sort_key_regular vmo address :
  Forall (λ o, from_option regular True (Overrides.order o)) vmo →
  regular (sort_key vmo address).
Proof.
  intros Hreg. unfold sort_key, findOverrides.
  destruct (find _ vmo) as [o |] eqn:Hfind; simpl; [| done].
  apply find_some in Hfind as [Hin _].
  rewrite Forall_forall in Hreg. apply list_elem_of_In in Hin.
  specialize (Hreg o Hin). by destruct (Overrides.order o).
Qed.

(** X3.  On a cache miss, when every [order] of the overrides is a finite
    number, a fulfilled listing is in ascending order of the sort keys, the
    key of a vault being the [order] of its override and [-Infinity]
    without one.  (A cached listing is returned as it is.) *)
Theorem X3_listing_is_sorted_by_key (w : World) addresses overrides t
    vmo statics dynamics sm he t' vaults t'' :
  cachedFetcherGet w t = Fulfilled None →
  get_fetch w addresses overrides (t ++ [CacheFetch "vaults/get"])
  = (Fulfilled (vmo, statics, dynamics, sm, he), t') →
  get w addresses overrides t = (Fulfilled vaults, t'') →
  Forall (λ o, from_option regular True (Overrides.order o)) vmo →
  StronglySorted
    (λ v1 v2, key_le (sort_key vmo (Vault.address v1)) (sort_key vmo (Vault.address v2)))
    vaults.
Proof.
  intros Hcache Hfetch Hget Hreg.
  rewrite (get_cache_miss _ _ _ _ _ _ _ _ _ _ Hcache Hfetch) in Hget.
  injection Hget as Hmerge _.
  apply get_merge_entries in Hmerge as (store & entries & -> & Hok & _ & Hsorted).
  assert (∀ e, entry_ok vmo e → order e = sort_key vmo (Vault.address (vault_of store e)))
    as Hkey.
  { intros e [Haddr Horder]. simpl. by rewrite Haddr. }
  eapply (StronglySorted_map_on (entry_ok vmo)); [| exact Hok |].
  - intros x y Hx Hy Hle. cbv beta.
    rewrite <- (Hkey x Hx), <- (Hkey y Hy). exact Hle.
  - apply Hsorted. eapply Forall_impl; [exact Hok |].
    intros e [_ ->]. by apply sort_key_regular.
Qed.

Lemma X3_listing_is_sorted_by_key_witness :
  ∃ vaults,
    (get hiddenWorld None None []).1 = Fulfilled vaults
    ∧ StronglySorted
        (λ v1 v2,
           key_le (sort_key [override vaultA None (Some (Finite 2));
                             override vaultB (Some true) (Some (Finite 0));
                             override vaultC None (Some (Finite 1))] (Vault.address v1))
                  (sort_key [override vaultA None (Some (Finite 2));
                             override vaultB (Some true) (Some (Finite 0));
                             override vaultC None (Some (Finite 1))] (Vault.address v2)))
        vaults.
Proof.
  let fetched :=
    eval vm_compute in
      (get_fetch hiddenWorld None None ([] ++ [CacheFetch "vaults/get"])) in
  let listed := eval vm_compute in (get hiddenWorld None None []) in
  match fetched with
  | (Fulfilled (?vmo, ?statics, ?dynamics, ?sm, ?he), ?t') =>
      match listed with
      | (Fulfilled ?vaults, ?t'') =>
          exists vaults; split; [vm_compute; reflexivity |];
          refine (X3_listing_is_sorted_by_key hiddenWorld None None [] vmo statics
                    dynamics sm he t' vaults t'' eq_refl _ _ _);
          [vm_compute; reflexivity | vm_compute; reflexivity |]
      end
  end.
  repeat constructor.
Defined.

(** ** Display names *)

Section DisplayNames.
Context (vmo : list Overrides.t) (sm : list StrategiesMetadata.t)
        (he : list AssetHistoricEarnings.t).

Local Abbreviation named :=
  (λ (store : list VaultDynamic.t) (e : Ordered),
     ∃ d, store !! ordered_ref e = Some d
          ∧ Metadata.displayName (VaultDynamic.metadata d) ≠ "").

Lemma get_loop_display_names assetsStatic assetsDynamic entries assetsDynamic' entries' :
  get_loop vmo sm he assetsStatic assetsDynamic entries
  = Fulfilled (assetsDynamic', entries') →
  Forall (λ asset, VaultStatic.name asset ≠ "") assetsStatic →
  Forall (named assetsDynamic) entries →
  Forall (named assetsDynamic') entries'.
Proof.
  revert assetsDynamic entries.
  induction assetsStatic as [| asset rest IH];
    intros assetsDynamic entries Hloop Hnames Hnamed.
  { simpl in Hloop. by injection Hloop as <- <-. }
  simpl in Hloop. apply Forall_cons in Hnames as [Hname Hnames].
  destruct (list_find _ assetsDynamic) as [[ref dynamic] |] eqn:Hfind; [| done].
  apply list_find_Some in Hfind as (Href & _ & _).
  destruct (flag_set _); [by eapply IH |].
  eapply IH; [exact Hloop | exact Hnames |].
  pose proof (lookup_lt_Some _ _ _ Href) as Hlt.
  assert (∀ n : string, (if negb (String.eqb n "") then n else VaultStatic.name asset) ≠ "")
    as Hfallback.
  { intros n. destruct (String.eqb n "") eqn:Hn; simpl; [done |].
    by apply String.eqb_neq. }
  apply Forall_app. split.
  - eapply Forall_impl; [exact Hnamed |].
    intros e (d & Hd & Hdn). simpl in *.
    destruct (decide (ordered_ref e = ref)) as [-> | Hne].
    + eexists. split; [by apply list_lookup_insert_eq |]. simpl. apply Hfallback.
    + exists d. split; [by rewrite list_lookup_insert_ne | done].
  - constructor; [| constructor]. simpl.
    eexists. split; [by apply list_lookup_insert_eq |]. simpl. apply Hfallback.
Qed.

End DisplayNames.

(** X4.  On a cache miss, the display name of a listed vault falls back to
    the name of its static record: when no static record has an empty
    name, no listed vault has an empty display name, whatever the adapters
    and the aliases supplied.  (A cached listing is returned as it is.) *)
Theorem X4_listed_vaults_have_a_display_name (w : World) addresses overrides t
    vmo statics dynamics sm he t' vaults t'' :
  cachedFetcherGet w t = Fulfilled None →
  get_fetch w addresses overrides (t ++ [CacheFetch "vaults/get"])
  = (Fulfilled (vmo, statics, dynamics, sm, he), t') →
  get w addresses overrides t = (Fulfilled vaults, t'') →
  Forall (λ asset, VaultStatic.name asset ≠ "") statics →
  Forall (λ vault, Metadata.displayName (Vault.metadata vault) ≠ "") vaults.
Proof.
  intros Hcache Hfetch Hget Hnames.
  rewrite (get_cache_miss _ _ _ _ _ _ _ _ _ _ Hcache Hfetch) in Hget.
  injection Hget as Hmerge _. unfold get_merge in Hmerge.
  destruct (get_loop vmo sm he statics dynamics []) as [[store entries] | e] eqn:Hloop;
    [| done].
  injection Hmerge as <-.
  apply get_loop_display_names in Hloop; [| done | constructor].
  apply Forall_map.
  rewrite (Array_sort_Permutation order).
  eapply Forall_impl; [exact Hloop |].
  intros e (d & Hd & Hdn). simpl. by rewrite Hd.
Qed.

Lemma X4_listed_vaults_have_a_display_name_witness :
  ∃ vaults,
    (get hiddenWorld None None []).1 = Fulfilled vaults
    ∧ Forall (λ vault, Metadata.displayName (Vault.metadata vault) ≠ "") vaults.
Proof.
  let fetched :=
    eval vm_compute in
      (get_fetch hiddenWorld None None ([] ++ [CacheFetch "vaults/get"])) in
  let listed := eval vm_compute in (get hiddenWorld None None []) in
  match fetched with
  | (Fulfilled (?vmo, ?statics, ?dynamics, ?sm, ?he), ?t') =>
      match listed with
      | (Fulfilled ?vaults, ?t'') =>
          exists vaults; split; [vm_compute; reflexivity |];
          refine (X4_listed_vaults_have_a_display_name hiddenWorld None None [] vmo
                    statics dynamics sm he t' vaults t'' eq_refl _ _ _);
          [vm_compute; reflexivity | vm_compute; reflexivity |]
      end
  end.
  repeat constructor; discriminate.
Defined.

(** ** Which failures reject the listing *)

Section Reliable.
Context {A B : Type}.

Lemma reliable_resolve (a : A) : reliable (resolve a).
Proof. intros t. by exists a, t. Qed.

Lemma reliable_invoke ev (answer : Trace → Settled A) :
  (∀ t, ∃ a, answer t = Fulfilled a) → reliable (invoke ev answer).
Proof. intros H t. destruct (H t) as [a Ha]. exists a, (t ++ [ev]). unfold invoke. by rewrite Ha. Qed.

Lemma reliable_bind (m : Async A) (k : A → Async B) :
  reliable m → (∀ a, reliable (k a)) → reliable (bind m k).
Proof.
  intros Hm Hk t. destruct (Hm t) as (a & t' & Ha).
  destruct (Hk a t') as (b & t'' & Hb). exists b, t''. unfold bind. by rewrite Ha.
Qed.

Lemma reliable_try_catch_handler (m : Async A) (handler : Error → Async A) :
  (∀ e, reliable (handler e)) → reliable (try_catch m handler).
Proof.
  intros Hh t. unfold try_catch. destruct (m t) as [[a | e] t']; [by exists a, t' |].
  apply Hh.
Qed.

Lemma reliable_try_catch (m : Async A) (handler : Error → Async A) :
  reliable m → reliable (try_catch m handler).
Proof. intros Hm t. destruct (Hm t) as (a & t' & Ha). exists a, t'. unfold try_catch. by rewrite Ha. Qed.

Lemma reliable_Promise_all (ps : list (Async A)) :
  Forall reliable ps → reliable (Promise_all ps).
Proof.
  induction 1 as [| p ps Hp _ IH]; intros t; [by exists [], t |].
  destruct (Hp t) as (a & t1 & Ha). destruct (IH t1) as (l & t2 & Hl).
  exists (a :: l), t2. simpl. by rewrite Ha, Hl.
Qed.

End Reliable.

Lemma get_loop_rejected vmo sm he assetsStatic assetsDynamic entries e :
  get_loop vmo sm he assetsStatic assetsDynamic entries = Rejected e →
  ∃ address, e = missing_dynamic address.
Proof.
  revert assetsDynamic entries.
  induction assetsStatic as [| asset rest IH]; intros assetsDynamic entries; [done |].
  simpl. destruct (list_find _ assetsDynamic) as [[ref dynamic] |].
  - destruct (flag_set _); apply IH.
  - intros [= <-]. by eexists.
Qed.

Section ReliableWorld.
Context (w : World).
Hypothesis cache_get : ∀ t, ∃ c, cachedFetcherGet w t = Fulfilled c.
Hypothesis cache_dynamic : ∀ t, ∃ c, cachedFetcherGetDynamic w t = Fulfilled c.
Hypothesis static_answers :
  ∀ t adapter addresses overrides,
    ∃ r, adapter_assetsStatic w t adapter addresses overrides = Fulfilled r.
Hypothesis dynamic_answers :
  ∀ t adapter addresses overrides,
    ∃ r, adapter_assetsDynamic w t adapter addresses overrides = Fulfilled r.
Hypothesis apy_answers : ∀ t addresses, ∃ r, vision_apy w t addresses = Fulfilled r.
Hypothesis zapper_answers : ∀ t, ∃ r, zapper_supportedVaultAddresses w t = Fulfilled r.

Lemma reliable_getStatic addresses overrides : reliable (getStatic w addresses overrides).
Proof using static_answers.
  apply reliable_bind; [| intros; apply reliable_resolve].
  apply reliable_Promise_all, Forall_forall. intros p Hp.
  apply list_elem_of_In, in_map_iff in Hp as (adapter & <- & _).
  apply reliable_invoke. intros t. apply static_answers.
Qed.

Lemma reliable_metaVaultsOrEmpty : reliable (metaVaultsOrEmpty w).
Proof. apply reliable_try_catch_handler. intros; apply reliable_resolve. Qed.

Lemma reliable_getDynamic addresses vmo overrides :
  reliable (getDynamic w addresses vmo overrides).
Proof using cache_dynamic dynamic_answers apy_answers zapper_answers.
  apply reliable_bind; [by apply reliable_invoke |].
  intros [cached |].
  { destruct addresses; apply reliable_resolve. }
  apply reliable_bind.
  { destruct vmo; [apply reliable_resolve | apply reliable_metaVaultsOrEmpty]. }
  intros metadataOverrides. apply reliable_bind.
  { destruct (isEthereum w (chainId w)); [| apply reliable_resolve].
    apply reliable_bind; [by apply reliable_invoke | intros; apply reliable_resolve]. }
  intros metadataOverrides'. apply reliable_bind; [| intros; apply reliable_resolve].
  apply reliable_Promise_all, Forall_forall. intros p Hp.
  apply list_elem_of_In, in_map_iff in Hp as (adapter & <- & _).
  apply reliable_bind; [apply reliable_invoke; intros; apply dynamic_answers |].
  intros data. apply reliable_bind; [apply reliable_invoke; intros; apply apy_answers |].
  intros; apply reliable_resolve.
Qed.

Lemma reliable_get_fetch addresses overrides : reliable (get_fetch w addresses overrides).
Proof using cache_dynamic static_answers dynamic_answers apy_answers zapper_answers.
  apply reliable_bind; [apply reliable_metaVaultsOrEmpty |].
  intros vmo. apply reliable_bind; [apply reliable_getStatic |].
  intros statics. apply reliable_bind.
  { apply reliable_try_catch, reliable_getDynamic. }
  intros dynamics. apply reliable_bind.
  { apply reliable_try_catch_handler. intros; apply reliable_resolve. }
  intros sm. apply reliable_bind.
  { apply reliable_try_catch_handler. intros; apply reliable_resolve. }
  intros; apply reliable_resolve.
Qed.

Lemma get_only_rejects_for_a_missing_dynamic addresses overrides t :
  ∃ t', (∃ vaults, get w addresses overrides t = (Fulfilled vaults, t'))
        ∨ (∃ address, get w addresses overrides t = (Rejected (missing_dynamic address), t')).
Proof using cache_get cache_dynamic static_answers dynamic_answers apy_answers
        zapper_answers.
  destruct (cache_get t) as [[cached |] Hcache].
  { unfold get, bind, invoke. rewrite Hcache.
    destruct addresses; eexists; left; by eexists. }
  destruct (reliable_get_fetch addresses overrides (t ++ [CacheFetch "vaults/get"]))
    as ([[[[vmo statics] dynamics] sm] he] & t' & Hfetch).
  exists t'. rewrite (get_cache_miss _ _ _ _ _ _ _ _ _ _ Hcache Hfetch).
  destruct (get_merge vmo sm he statics dynamics) as [vaults | e] eqn:Hmerge.
  - left. by exists vaults.
  - right. unfold get_merge in Hmerge.
    destruct (get_loop vmo sm he statics dynamics []) as [[store entries] | e'] eqn:Hloop;
      [done |].
    injection Hmerge as <-.
    apply get_loop_rejected in Hloop as [address ->]. by exists address.
Qed.

End ReliableWorld.

(** X5.  Failures of the meta service, of the strategies metadata and of
    the historic earnings never reject the listing: when the caches, the
    registry adapters, the APY service and the zapper's list of supported
    vaults answer, [get] is fulfilled or rejected with the missing-dynamic
    error, whatever those three services do. *)
Theorem X5_enrichment_failures_do_not_reject_the_listing (w : World) :
  (∀ t, ∃ c, cachedFetcherGet w t = Fulfilled c) →
  (∀ t, ∃ c, cachedFetcherGetDynamic w t = Fulfilled c) →
  (∀ t adapter addresses overrides,
     ∃ r, adapter_assetsStatic w t adapter addresses overrides = Fulfilled r) →
  (∀ t adapter addresses overrides,
     ∃ r, adapter_assetsDynamic w t adapter addresses overrides = Fulfilled r) →
  (∀ t addresses, ∃ r, vision_apy w t addresses = Fulfilled r) →
  (∀ t, ∃ r, zapper_supportedVaultAddresses w t = Fulfilled r) →
  ∀ addresses overrides t,
    ∃ t', (∃ vaults, get w addresses overrides t = (Fulfilled vaults, t'))
          ∨ (∃ address,
               get w addresses overrides t = (Rejected (missing_dynamic address), t')).
Proof. intros. by apply get_only_rejects_for_a_missing_dynamic. Qed.

Lemma X5_enrichment_failures_do_not_reject_the_listing_witness :
  ∃ t', (∃ vaults,
           get (degradedWorld) None None [] = (Fulfilled vaults, t'))
        ∨ (∃ address,
             get (degradedWorld) None None []
             = (Rejected (missing_dynamic address), t')).
Proof.
  apply (X5_enrichment_failures_do_not_reject_the_listing (degradedWorld));
    intros; eexists; reflexivity.
Defined.

(** ** The dynamic fetch *)

Lemma Promise_all_rejecting {X A} (f : X → Async A) (l : list X) e evs t :
  (∀ x t, f x t = (Rejected e, t ++ evs)) →
  Promise_all (map f l) t
  = (match l with [] => Fulfilled [] | _ => Rejected e end,
     t ++ concat (map (λ _, evs) l)).
Proof.
  intros Hf. revert t. induction l as [| x l IH]; intros t; simpl.
  { by rewrite app_nil_r. }
  rewrite Hf, IH, <- app_assoc. by destruct l.
Qed.

(** X6.  On Ethereum the dynamic fetch of [get] depends on the zapper: when
    the dynamic cache is empty and the zapper rejects the query for its
    supported vaults, [getDynamic] stops there, and so does each chunk
    query of the fallback.  The fetch is rejected with the zapper's error
    as soon as there is one chunk (and fulfilled with no record when there
    is none); besides the two invocations of the unchunked query it makes
    one cache fetch and one zapper query per chunk, in an order that is
    left open, and no registry adapter is asked for a dynamic record. *)
Theorem X6_zapper_failure_rejects_the_dynamic_fetch (w : World) addresses vmo statics
    overrides e t :
  isEthereum w (chainId w) = true →
  (∀ t, cachedFetcherGetDynamic w t = Fulfilled None) →
  (∀ t, zapper_supportedVaultAddresses w t = Rejected e) →
  let chunks := chunkArray (map VaultStatic.address statics) 30 in
  getDynamic w addresses (Some vmo) overrides t = (Rejected e, t ++ stopped_at_zapper)
  ∧ ∃ evs,
      get_assetsDynamic w addresses vmo statics overrides t
      = (match chunks with [] => Fulfilled [] | _ => Rejected e end,
         t ++ stopped_at_zapper ++ evs)
      ∧ evs ≡ₚ concat (map (λ _, stopped_at_zapper) chunks)
      ∧ dynamic_queries evs = [].
Proof.
  intros Hchain Hcache Hzapper chunks.
  assert (∀ a t, getDynamic w a (Some vmo) overrides t = (Rejected e, t ++ stopped_at_zapper))
    as Hdynamic.
  { intros a t0. unfold getDynamic, bind, invoke, resolve.
    rewrite Hcache, Hchain, Hzapper. by rewrite <- app_assoc. }
  split; [apply Hdynamic |].
  exists (concat (map (λ _, stopped_at_zapper) chunks)).
  split; [| split; [done |]].
  - unfold get_assetsDynamic, try_catch. rewrite Hdynamic.
    unfold bind. fold chunks.
    rewrite (Promise_all_rejecting
               (λ chunk, getDynamic w (Some chunk) (Some vmo) overrides) chunks e
               stopped_at_zapper).
    + rewrite <- app_assoc. by destruct chunks.
    + intros chunk t0. apply Hdynamic.
  - by induction chunks.
Qed.

Lemma X6_zapper_failure_rejects_the_dynamic_fetch_witness :
  ∃ evs,
    get_assetsDynamic (withoutZapper (OtherError "zapper unavailable") orderWorld) None []
                      [static vaultA DAI "A"; static vaultB DAI "B"] None []
    = (Rejected (OtherError "zapper unavailable"),
       [] ++ [CacheFetch "vaults/getDynamic"; ZapperSupportedVaultAddresses] ++ evs)
    ∧ evs ≡ₚ [CacheFetch "vaults/getDynamic"; ZapperSupportedVaultAddresses]
    ∧ dynamic_queries evs = [].
Proof.
  exact (proj2 (X6_zapper_failure_rejects_the_dynamic_fetch
                  (withoutZapper (OtherError "zapper unavailable") orderWorld) None []
                  [static vaultA DAI "A"; static vaultB DAI "B"] None
                  (OtherError "zapper unavailable") []
                  eq_refl (λ _, eq_refl) (λ _, eq_refl))).
Defined.

(** ** Metadata overrides, continued *)

(** The sequence of assignments of [fillMetadataOverrides] amounts to the
    property-by-property description. *)
Lemma fillMetadataOverrides_overridden (dynamic : VaultDynamic.t) (overrides : Overrides.t) :
  fillMetadataOverrides dynamic overrides
  = VaultDynamic.set_metadata (overridden (VaultDynamic.metadata dynamic) overrides) dynamic.
Proof.
  unfold fillMetadataOverrides, overridden, overridden_apy.
  destruct (string_set (Overrides.displayName overrides)),
           (string_set (Overrides.vaultSymbolOverride overrides)),
           (string_set (Overrides.vaultIconOverride overrides)),
           (string_set (Overrides.apyTypeOverride overrides)),
           (number_set (Overrides.apyOverride overrides));
    reflexivity.
Qed.

Lemma overridden_idempotent (m : Metadata.t) (o : Overrides.t) :
  overridden (overridden m o) o = overridden m o.
Proof.
  destruct m. unfold overridden, overridden_apy.
  cbn [Metadata.symbol Metadata.displayName Metadata.displayIcon Metadata.pricePerShare
       Metadata.defaultDisplayToken Metadata.apy Metadata.emergencyShutdown
       Metadata.strategies Metadata.historicEarnings Metadata.migrationAvailable].
  destruct (string_set (Overrides.displayName o)),
           (string_set (Overrides.vaultSymbolOverride o)),
           (string_set (Overrides.vaultIconOverride o)),
           (string_set (Overrides.apyTypeOverride o)),
           (number_set (Overrides.apyOverride o));
    cbn [flag_set default]; unfold id; rewrite <- ?orb_assoc, ?orb_diag; reflexivity.
Qed.

(** X7.  Applying the same override record twice gives the record that
    applying it once gives. *)
Theorem X7_fillMetadataOverrides_is_idempotent (dynamic : VaultDynamic.t)
    (overrides : Overrides.t) :
  fillMetadataOverrides (fillMetadataOverrides dynamic overrides) overrides
  = fillMetadataOverrides dynamic overrides.
Proof.
  rewrite !fillMetadataOverrides_overridden.
  destruct dynamic as [address typeId tokenId balance m].
  unfold VaultDynamic.set_metadata. cbn [VaultDynamic.metadata VaultDynamic.address
    VaultDynamic.typeId VaultDynamic.tokenId VaultDynamic.underlyingTokenBalance].
  by rewrite overridden_idempotent.
Qed.

(** X8.  Overrides that are present win: a non-empty display name, symbol
    or icon override is the display name, symbol or icon of the result; an
    APY override that is a non-zero number makes the APY of the result
    carry that net APY with the type "override", whatever the type
    override says; with only a type override the APY carries that type,
    and a record without APY gets the empty APY first. *)
Theorem X8_present_overrides_win (dynamic : VaultDynamic.t) (overrides : Overrides.t) :
  let before := VaultDynamic.metadata dynamic in
  let after := VaultDynamic.metadata (fillMetadataOverrides dynamic overrides) in
  (∀ name, Overrides.displayName overrides = Some name → name ≠ "" →
           Metadata.displayName after = name)
  ∧ (∀ symbol, Overrides.vaultSymbolOverride overrides = Some symbol → symbol ≠ "" →
               Metadata.symbol after = symbol)
  ∧ (∀ icon, Overrides.vaultIconOverride overrides = Some icon → icon ≠ "" →
             Metadata.displayIcon after = icon)
  ∧ (∀ n, Overrides.apyOverride overrides = Some n → number_truthy n = true →
          ∃ apy, Metadata.apy after = Some apy
                 ∧ Apy.net_apy apy = n ∧ Apy.type apy = "override")
  ∧ (∀ type, Overrides.apyTypeOverride overrides = Some type → type ≠ "" →
             number_set (Overrides.apyOverride overrides) = false →
             ∃ apy, Metadata.apy after = Some apy
                    ∧ Apy.type apy = type
                    ∧ Apy.net_apy apy
                      = Apy.net_apy (default makeEmptyApy (Metadata.apy before)))
  ∧ (string_set (Overrides.apyTypeOverride overrides) = false →
     number_set (Overrides.apyOverride overrides) = false →
     Metadata.apy after = Metadata.apy before).
Proof.
  destruct dynamic as [address typeId tokenId balance m], overrides. simpl.
  assert (∀ s : string, s ≠ "" → negb (String.eqb s "") = true) as Hset.
  { intros s Hs. apply negb_true_iff. by apply String.eqb_neq. }
  repeat split.
  - intros name -> Hname. simpl. rewrite (Hset _ Hname). simpl.
    repeat match goal with
           | |- context [if ?b then _ else _] => destruct b; simpl
           end; reflexivity.
  - intros symbol -> Hsymbol. simpl. rewrite (Hset _ Hsymbol). simpl.
    repeat match goal with
           | |- context [if ?b then _ else _] => destruct b; simpl
           end; reflexivity.
  - intros icon -> Hicon. simpl. rewrite (Hset _ Hicon). simpl.
    repeat match goal with
           | |- context [if ?b then _ else _] => destruct b; simpl
           end; reflexivity.
  - intros n -> Hn. simpl. rewrite Hn. simpl. eexists. split; [reflexivity |]. by split.
  - intros type -> Htype Hnone. simpl in *. rewrite (Hset _ Htype), Hnone. simpl.
    eexists. split; [reflexivity |]. split; [done |].
    repeat match goal with
           | |- context [if ?b then _ else _] => destruct b; simpl
           end; reflexivity.
  - intros Htype Hnone. simpl in *. rewrite Htype, Hnone.
    repeat match goal with
           | |- context [if ?b then _ else _] => destruct b; simpl
           end; reflexivity.
Qed.

Lemma X8_present_overrides_win_witness :
  Metadata.displayName
    (VaultDynamic.metadata (fillMetadataOverrides (zappable vaultA DAI) (branding vaultA)))
  = "Dai Stablecoin"
  ∧ ∃ apy,
      Metadata.apy
        (VaultDynamic.metadata (fillMetadataOverrides (zappable vaultA DAI) (branding vaultA)))
      = Some apy
      ∧ Apy.net_apy apy = Finite (7 # 100) ∧ Apy.type apy = "override".
Proof.
  destruct (X8_present_overrides_win (zappable vaultA DAI) (branding vaultA))
    as (Hname & _ & _ & Hapy & _).
  split.
  - apply Hname; [reflexivity | discriminate].
  - apply Hapy; reflexivity.
Defined.

(** X9.  Applying an override record never touches the address, the type,
    the token and the balance of the dynamic record, nor its price per
    share, default display token, emergency-shutdown flag, strategies and
    historic earnings.  The migration flag can only be raised, and the
    hide-if-no-deposits flag is recomputed from the emergency shutdown of
    the record and the [retired] and [migrationAvailable] fields of the
    override alone. *)
Theorem X9_fillMetadataOverrides_frame (dynamic : VaultDynamic.t) (overrides : Overrides.t) :
  let before := VaultDynamic.metadata dynamic in
  let filled := fillMetadataOverrides dynamic overrides in
  let after := VaultDynamic.metadata filled in
  VaultDynamic.address filled = VaultDynamic.address dynamic
  ∧ VaultDynamic.typeId filled = VaultDynamic.typeId dynamic
  ∧ VaultDynamic.tokenId filled = VaultDynamic.tokenId dynamic
  ∧ VaultDynamic.underlyingTokenBalance filled = VaultDynamic.underlyingTokenBalance dynamic
  ∧ Metadata.pricePerShare after = Metadata.pricePerShare before
  ∧ Metadata.defaultDisplayToken after = Metadata.defaultDisplayToken before
  ∧ Metadata.emergencyShutdown after = Metadata.emergencyShutdown before
  ∧ Metadata.strategies after = Metadata.strategies before
  ∧ Metadata.historicEarnings after = Metadata.historicEarnings before
  ∧ Metadata.migrationAvailable after
    = Some (flag_set (Metadata.migrationAvailable before)
            || flag_set (Overrides.migrationAvailable overrides))
  ∧ Metadata.hideIfNoDeposits after
    = Some (flag_set (Metadata.emergencyShutdown before)
            || flag_set (Overrides.retired overrides)
            || flag_set (Overrides.migrationAvailable overrides)).
Proof.
  destruct dynamic as [address typeId tokenId balance m], overrides. simpl.
  repeat split;
    repeat match goal with
           | |- context [if ?b then _ else _] => destruct b; simpl
           end; reflexivity.
Qed.

(** X10.  The enrichment of a dynamic record inside [getDynamic] keeps its
    address, type, token and balance.  A vault of the wrapped native token
    is displayed as the native asset: its default display token is
    [EthAddress] and, unless an override names it, its display name is
    "ETH"; any other vault is displayed with its own token and, unless an
    override names it, with the symbol of the token's alias, or with the
    empty name when there is no alias.  Without APY overrides the APY is
    the entry of the APY batch for the address. *)
Theorem X10_enrichDynamic (w : World) (metadataOverrides : list Overrides.t)
    (assetsApy : gmap string Apy.t) (dynamic : VaultDynamic.t) :
  let enriched := enrichDynamic w metadataOverrides assetsApy dynamic in
  let after := VaultDynamic.metadata enriched in
  let overrides := findOverrides metadataOverrides (VaultDynamic.address dynamic) in
  let unnamed := string_set (overrides ≫= Overrides.displayName) = false in
  let wrapped := VaultDynamic.tokenId dynamic = WethAddress w in
  VaultDynamic.address enriched = VaultDynamic.address dynamic
  ∧ VaultDynamic.typeId enriched = VaultDynamic.typeId dynamic
  ∧ VaultDynamic.tokenId enriched = VaultDynamic.tokenId dynamic
  ∧ VaultDynamic.underlyingTokenBalance enriched
    = VaultDynamic.underlyingTokenBalance dynamic
  ∧ (wrapped → Metadata.defaultDisplayToken after = EthAddress w)
  ∧ (wrapped → unnamed → Metadata.displayName after = "ETH")
  ∧ (¬ wrapped → Metadata.defaultDisplayToken after = VaultDynamic.tokenId dynamic)
  ∧ (¬ wrapped → unnamed →
     Metadata.displayName after
     = default "" (asset_alias w (VaultDynamic.tokenId dynamic)))
  ∧ (string_set (overrides ≫= Overrides.apyTypeOverride) = false →
     number_set (overrides ≫= Overrides.apyOverride) = false →
     Metadata.apy after = assetsApy !! VaultDynamic.address dynamic).
Proof.
  intros enriched after overrides unnamed wrapped.
  subst enriched after unnamed wrapped. unfold enrichDynamic. fold overrides.
  destruct dynamic as [address typeId tokenId balance m].
  cbn [VaultDynamic.address VaultDynamic.typeId VaultDynamic.tokenId
       VaultDynamic.underlyingTokenBalance VaultDynamic.metadata].
  assert (tokenId = WethAddress w → String.eqb tokenId (WethAddress w) = true) as Hw
    by apply String.eqb_eq.
  assert (tokenId ≠ WethAddress w → String.eqb tokenId (WethAddress w) = false) as Hnw
    by apply String.eqb_neq.
  destruct overrides as [o |].
  - rewrite fillMetadataOverrides_overridden.
    cbn [VaultDynamic.set_metadata VaultDynamic.address VaultDynamic.typeId
         VaultDynamic.tokenId VaultDynamic.underlyingTokenBalance VaultDynamic.metadata
         mbind option_bind].
    unfold overridden, overridden_apy. cbn [Metadata.defaultDisplayToken Metadata.displayName Metadata.apy].
    repeat split.
    + intros H. rewrite (Hw H). reflexivity.
    + intros H Hunnamed. rewrite (Hw H), Hunnamed. reflexivity.
    + intros H. rewrite (Hnw H). reflexivity.
    + intros H Hunnamed. rewrite (Hnw H), Hunnamed. reflexivity.
    + intros Htype Hnumber. rewrite Htype, Hnumber.
      destruct (String.eqb tokenId (WethAddress w)); reflexivity.
  - cbn [VaultDynamic.set_metadata VaultDynamic.address VaultDynamic.typeId
         VaultDynamic.tokenId VaultDynamic.underlyingTokenBalance VaultDynamic.metadata].
    repeat split.
    + intros H. rewrite (Hw H). reflexivity.
    + intros H _. rewrite (Hw H). reflexivity.
    + intros H. rewrite (Hnw H). reflexivity.
    + intros H _. rewrite (Hnw H). reflexivity.
    + intros _ _. destruct (String.eqb tokenId (WethAddress w)); reflexivity.
Qed.

Lemma X10_enrichDynamic_witness :
  Metadata.displayName
    (VaultDynamic.metadata (enrichDynamic orderWorld [] ∅ (dynamic vaultA WETH)))
  = "ETH"
  ∧ Metadata.defaultDisplayToken
      (VaultDynamic.metadata (enrichDynamic orderWorld [] ∅ (dynamic vaultA WETH)))
    = ETH
  ∧ Metadata.defaultDisplayToken
      (VaultDynamic.metadata (enrichDynamic orderWorld [] ∅ (dynamic vaultA DAI)))
    = DAI.
Proof.
  destruct (X10_enrichDynamic orderWorld [] ∅ (dynamic vaultA WETH))
    as (_ & _ & _ & _ & Htoken & Hname & _).
  destruct (X10_enrichDynamic orderWorld [] ∅ (dynamic vaultA DAI))
    as (_ & _ & _ & _ & _ & _ & Hown & _).
  split; [exact (Hname eq_refl eq_refl) |].
  split; [exact (Htoken eq_refl) |].
  apply Hown. discriminate.
Defined.

(** ** Routes, continued *)

Section MoreRoutes.
Context (w : World).

Lemma emits_from {A} P (m : Async A) t :
  emits P m → ∃ evs, (m t).2 = t ++ evs ∧ Forall P evs.
Proof. intros Hm. apply Hm. Qed.

Lemma emits_fantom_deposit_address vault token :
  isFantom w (chainId w) = true →
  emits not_address_lookup (getDepositContractAddress w vault token).
Proof.
  intros Hfantom. unfold getDepositContractAddress.
  destruct (isNativeToken w token); [apply emits_resolve |].
  apply emits_bind.
  { destruct (negb _); [by apply emits_isUnderlyingToken | apply emits_resolve]. }
  intros underlying. destruct (underlying && _).
  { apply emits_bind.
    - destruct (partner w); [by apply emits_invoke | apply emits_resolve].
    - intros [a |]; [| apply emits_throw].
      destruct (String.eqb a ""); [apply emits_throw | apply emits_resolve]. }
  destruct underlying; [apply emits_resolve |].
  rewrite Hfantom. apply emits_resolve.
Qed.

Lemma emits_fantom_withdraw_address vault token :
  isFantom w (chainId w) = true →
  emits not_address_lookup (getWithdrawContractAddress w vault token).
Proof.
  intros Hfantom. apply emits_bind; [by apply emits_isUnderlyingToken |].
  intros [|]; [apply emits_resolve |]. rewrite Hfantom. apply emits_resolve.
Qed.

End MoreRoutes.

(** X11.  On Fantom the address provider is never consulted to resolve a
    spender: every zap, a withdraw to a token other than the underlying one
    or a deposit of a token that is neither native nor underlying, resolves
    to the one router address written in the code, and a deposit into a
    pickle jar does so without even fetching the static record. *)
Theorem X11_fantom_zaps_resolve_to_the_router (w : World) vault token :
  isFantom w (chainId w) = true →
  emits not_address_lookup (getDepositContractAddress w vault token)
  ∧ emits not_address_lookup (getWithdrawContractAddress w vault token)
  ∧ (∀ t vaultRef rest t',
       getStatic w (Some [vault]) None t = (Fulfilled (vaultRef :: rest), t') →
       VaultStatic.token vaultRef ≠ token →
       getWithdrawContractAddress w vault token t = (Fulfilled widoRouter, t')
       ∧ (isNativeToken w token = false → isZappingIntoPickleJar w vault = false →
          getDepositContractAddress w vault token t = (Fulfilled widoRouter, t')))
  ∧ (∀ t, isNativeToken w token = false → isZappingIntoPickleJar w vault = true →
          getDepositContractAddress w vault token t = (Fulfilled widoRouter, t)).
Proof.
  intros Hfantom.
  split; [by apply emits_fantom_deposit_address |].
  split; [by apply emits_fantom_withdraw_address |].
  split.
  - intros t vaultRef rest t' Hstatic Hne.
    apply String.eqb_neq in Hne.
    assert (isUnderlyingToken w vault token t = (Fulfilled false, t')) as Hunderlying.
    { unfold isUnderlyingToken. rewrite (bind_fulfilled _ _ _ _ _ Hstatic).
      unfold resolve. by rewrite Hne. }
    split.
    + unfold getWithdrawContractAddress. rewrite (bind_fulfilled _ _ _ _ _ Hunderlying).
      by rewrite Hfantom.
    + intros Hnative Hjar. unfold getDepositContractAddress.
      rewrite Hnative, Hjar. simpl negb. cbv iota.
      rewrite (bind_fulfilled _ _ _ _ _ Hunderlying). simpl. by rewrite Hfantom.
  - intros t Hnative Hjar. unfold getDepositContractAddress.
    rewrite Hnative, Hjar. simpl. unfold bind, resolve. simpl. by rewrite Hfantom.
Qed.

Lemma X11_fantom_zaps_resolve_to_the_router_witness :
  getWithdrawContractAddress fantomWorld vaultA WETH []
  = (Fulfilled widoRouter, [AssetsStatic 0 (Some [vaultA]) None])
  ∧ getDepositContractAddress fantomJarWorld jar DAI [] = (Fulfilled widoRouter, []).
Proof.
  destruct (X11_fantom_zaps_resolve_to_the_router fantomWorld vaultA WETH eq_refl)
    as (_ & _ & Hzap & _).
  destruct (X11_fantom_zaps_resolve_to_the_router fantomJarWorld jar DAI eq_refl)
    as (_ & _ & _ & Hjar).
  split.
  - refine (proj1 (Hzap [] (static vaultA DAI "A") [] _ _ _)); [reflexivity | discriminate].
  - apply Hjar; reflexivity.
Defined.

Section JarPriority.
Context (w : World).

Lemma emits_zapIn_pickle vault token amount account options overrides :
  emits jar_zap_only (zapIn w vault token amount account options PICKLE overrides).
Proof.
  unfold zapIn. destruct (deposit_slippage options) as [slippage |]; [| apply emits_throw].
  destruct (isFantom w (chainId w)).
  - apply emits_bind; [apply emits_throw |].
    intros tx. by apply emits_sendTransaction.
  - apply emits_bind; [by apply emits_invoke |].
    intros q. apply emits_try_catch; [by apply emits_sendTransaction |].
    intros e. case_bool_decide; [by apply emits_sendTransaction | apply emits_throw].
Qed.

End JarPriority.

(** X12.  Membership in the pickle-jar set is decided before the token is
    compared with the underlying token: whatever token is deposited into a
    jar, also the jar's own underlying token and also for a partner-eligible
    account, [deposit] only quotes a PICKLE zap, validates and sends (on
    Fantom the zap ends at the missing wido method before anything is
    invoked); it never populates a direct or a partner deposit and never
    fetches the static record. *)
Theorem X12_jar_deposits_are_always_zaps (w : World) vault token amount account options
    overrides :
  isZappingIntoPickleJar w vault = true →
  emits jar_zap_only (deposit w vault token amount account options overrides).
Proof.
  intros Hjar. unfold deposit. rewrite Hjar. apply emits_zapIn_pickle.
Qed.

Lemma X12_jar_deposits_are_always_zaps_witness :
  ∃ evs,
    (deposit jarWorld jar DAI "1000" account
             {| deposit_slippage := Some (Finite 1) |} ∅ []).2 = [] ++ evs
    ∧ Forall jar_zap_only evs.
Proof.
  exact (X12_jar_deposits_are_always_zaps jarWorld jar DAI "1000" account
           {| deposit_slippage := Some (Finite 1) |} ∅ eq_refl []).
Defined.

(** X13.  A vault that no registry adapter knows: when the static query
    for the vault is fulfilled with no record, [withdraw], [deposit] (into
    a vault that is not a pickle jar) and the resolution of the withdraw
    spender are rejected with a type error right after the query, so that
    nothing is populated, approved or sent. *)
Theorem X13_unknown_vault_is_a_type_error (w : World) vault token amount account
    depositOptions withdrawOptions overrides t t' :
  getStatic w (Some [vault]) (Some overrides) t = (Fulfilled [], t') →
  (∃ message,
     withdraw w vault token amount account withdrawOptions overrides t
     = (Rejected (TypeError message), t'))
  ∧ (isZappingIntoPickleJar w vault = false →
     ∃ message,
       deposit w vault token amount account depositOptions overrides t
       = (Rejected (TypeError message), t'))
  ∧ (∀ t1 t1',
       getStatic w (Some [vault]) None t1 = (Fulfilled [], t1') →
       ∃ message,
         getWithdrawContractAddress w vault token t1 = (Rejected (TypeError message), t1')
         ∧ approveWithdraw w account vault token None None t1
           = (Rejected (TypeError message), t1')).
Proof.
  intros Hstatic. split; [| split].
  - eexists. unfold withdraw. by rewrite (bind_fulfilled _ _ _ _ _ Hstatic).
  - intros Hjar. eexists. unfold deposit. rewrite Hjar.
    by rewrite (bind_fulfilled _ _ _ _ _ Hstatic).
  - intros t1 t1' Hnone.
    assert (∃ message,
              isUnderlyingToken w vault token t1 = (Rejected (TypeError message), t1'))
      as [message Hunderlying].
    { eexists. unfold isUnderlyingToken. by rewrite (bind_fulfilled _ _ _ _ _ Hnone). }
    assert (getWithdrawContractAddress w vault token t1
            = (Rejected (TypeError message), t1')) as Haddress.
    { unfold getWithdrawContractAddress. by rewrite (bind_rejected _ _ _ _ _ Hunderlying). }
    exists message. split; [done |].
    unfold approveWithdraw. by rewrite (bind_rejected _ _ _ _ _ Haddress).
Qed.

Lemma X13_unknown_vault_is_a_type_error_witness :
  ∃ message,
    withdraw emptyWorld vaultA DAI "1000" account
             {| slippage := Some (Finite 1); signature := None |} ∅ []
    = (Rejected (TypeError message), [AssetsStatic 0 (Some [vaultA]) (Some ∅)]).
Proof.
  exact (proj1 (X13_unknown_vault_is_a_type_error emptyWorld vaultA DAI "1000" account
                  {| deposit_slippage := None |}
                  {| slippage := Some (Finite 1); signature := None |} ∅ []
                  [AssetsStatic 0 (Some [vaultA]) (Some ∅)] eq_refl)).
Defined.

(** ** Sending *)

(** X14.  The verdict of the allow list does not decide whether a
    transaction is sent: whenever the validation is fulfilled, with a
    positive or a negative verdict, the transaction is handed unchanged to
    the signer and the outcome is the signer's; only a rejected validation
    call keeps the transaction from the signer, and without an allow-list
    service the transaction goes to the signer directly. *)
Theorem X14_allow_list_verdict_is_not_enforced (w : World) (tx : TransactionRequest) t :
  let validation := ValidateCalldata (prop tx "to") (prop tx "data") in
  (∀ validate verdict,
     allowListService w = Some validate →
     validate t (prop tx "to") (prop tx "data") = Fulfilled verdict →
     sendTransaction w tx t
     = (signer_sendTransaction w (t ++ [validation]) tx,
        t ++ [validation; SignerSendTransaction tx]))
  ∧ (∀ validate e,
       allowListService w = Some validate →
       validate t (prop tx "to") (prop tx "data") = Rejected e →
       sendTransaction w tx t = (Rejected e, t ++ [validation]))
  ∧ (allowListService w = None →
     sendTransaction w tx t
     = (signer_sendTransaction w t tx, t ++ [SignerSendTransaction tx])).
Proof.
  intros validation. unfold sendTransaction, validateTx, bind, invoke, resolve.
  split; [| split].
  - intros validate verdict -> ->. by rewrite <- app_assoc.
  - by intros validate e -> ->.
  - by intros ->.
Qed.

Lemma X14_allow_list_verdict_is_not_enforced_witness :
  sendTransaction refusingWorld {[ "to" := VString vaultA; "gasPrice" := VBigNumber 9 ]} []
  = (Fulfilled {| hash := "0xhash" |},
     [ValidateCalldata (VString vaultA) VUndefined;
      SignerSendTransaction {[ "to" := VString vaultA; "gasPrice" := VBigNumber 9 ]}]).
Proof.
  exact (proj1 (X14_allow_list_verdict_is_not_enforced refusingWorld
                  {[ "to" := VString vaultA; "gasPrice" := VBigNumber 9 ]} [])
               (λ _ _ _, Fulfilled (false, Some "destination not allowed"))
               (false, Some "destination not allowed") eq_refl eq_refl).
Defined.

(** X15.  A deposit that has to be zapped and carries no slippage is
    rejected with the missing-slippage error before anything is quoted or
    sent: for a pickle jar before any collaborator is invoked at all, for
    another vault right after the static queries of the registry
    adapters. *)
Theorem X15_zap_deposit_without_slippage (w : World) vault token amount account options
    overrides t :
  deposit_slippage options = None →
  (isZappingIntoPickleJar w vault = true →
   deposit w vault token amount account options overrides t
   = (Rejected missing_slippage, t))
  ∧ (isZappingIntoPickleJar w vault = false →
     ∀ vaultRef rest t',
       getStatic w (Some [vault]) (Some overrides) t = (Fulfilled (vaultRef :: rest), t') →
       VaultStatic.token vaultRef ≠ token →
       deposit w vault token amount account options overrides t
       = (Rejected missing_slippage, t')
       ∧ t' = t ++ map (λ adapter, AssetsStatic adapter (Some [vault]) (Some overrides))
                       (adapters w)).
Proof.
  intros Hslippage. split.
  - intros Hjar. unfold deposit, zapIn. by rewrite Hjar, Hslippage.
  - intros Hjar vaultRef rest t' Hstatic Hne. split.
    + unfold deposit. rewrite Hjar, (bind_fulfilled _ _ _ _ _ Hstatic).
      apply String.eqb_neq in Hne. rewrite Hne. simpl negb. cbv iota.
      unfold zapIn. by rewrite Hslippage.
    + pose proof (getStatic_trace w (Some [vault]) (Some overrides) t) as Htrace.
      by rewrite Hstatic in Htrace.
Qed.

Lemma X15_zap_deposit_without_slippage_witness :
  deposit jarWorld jar ETH "1000" account {| deposit_slippage := None |} ∅ []
  = (Rejected missing_slippage, [])
  ∧ deposit legacyWorld vaultA WETH "1000" account {| deposit_slippage := None |} ∅ []
    = (Rejected missing_slippage, [AssetsStatic 0 (Some [vaultA]) (Some ∅)]).
Proof.
  split.
  - exact (proj1 (X15_zap_deposit_without_slippage jarWorld jar ETH "1000" account
                    {| deposit_slippage := None |} ∅ [] eq_refl) eq_refl).
  - refine (proj1 (proj2 (X15_zap_deposit_without_slippage legacyWorld vaultA WETH "1000"
                            account {| deposit_slippage := None |} ∅ [] eq_refl)
                         eq_refl (static vaultA DAI "A") [] _ _ _));
      [reflexivity | discriminate].
Defined.

Lemma agree_outside_gas_insert (o base : Obj) k v :
  k ∈ gas_keys → agree_outside_gas o base → agree_outside_gas (<[k := v]> o) base.
Proof.
  intros Hk Ho k' Hk'. rewrite lookup_insert_ne; [by apply Ho |].
  intros ->. by apply Hk'.
Qed.

Lemma gas_keys_gasPrice : "gasPrice" ∈ gas_keys.
Proof. unfold gas_keys. set_solver. Qed.
Lemma gas_keys_maxFeePerGas : "maxFeePerGas" ∈ gas_keys.
Proof. unfold gas_keys. set_solver. Qed.
Lemma gas_keys_maxPriorityFeePerGas : "maxPriorityFeePerGas" ∈ gas_keys.
Proof. unfold gas_keys. set_solver. Qed.

Lemma emits_executeVaultContractTransaction P
    (makeTransaction : CallOverrides → Async TransactionResponse) (overrides : CallOverrides) :
  (∀ o, agree_outside_gas o overrides → emits P (makeTransaction o)) →
  emits P (executeVaultContractTransaction makeTransaction overrides).
Proof.
  intros Hmk. unfold executeVaultContractTransaction.
  assert (agree_outside_gas (<["gasPrice" := VUndefined]> overrides) overrides) as H1.
  { apply agree_outside_gas_insert; [apply gas_keys_gasPrice | done]. }
  apply emits_try_catch; [by apply Hmk |].
  intros e. case_bool_decide; [| apply emits_throw].
  apply Hmk.
  apply agree_outside_gas_insert; [apply gas_keys_gasPrice |].
  apply agree_outside_gas_insert; [apply gas_keys_maxPriorityFeePerGas |].
  by apply agree_outside_gas_insert; [apply gas_keys_maxFeePerGas |].
Qed.

(** X16.  A withdraw to the underlying token is direct whatever the
    options say: after the static queries it is the run of
    [executeVaultContractTransaction] on the attempt that populates
    [withdraw(amount)] on the vault contract and sends the result.  It asks
    for no slippage: when the contract populates the transaction and the
    first send is accepted, the withdraw is fulfilled with the signer's
    response, for every value of the options.  It populates with overrides
    that differ from the caller's in the gas properties at most, and
    consults neither the zapper nor the address provider. *)
Theorem X16_withdraw_of_the_underlying_token_is_direct (w : World) vault token amount
    account options overrides t vaultRef rest t' :
  getStatic w (Some [vault]) (Some overrides) t = (Fulfilled (vaultRef :: rest), t') →
  VaultStatic.token vaultRef = token →
  let attempt (o : CallOverrides) : Async TransactionResponse :=
    bind (invoke (ContractPopulate vault "withdraw" amount o)
                 (λ t, contract_populateTransaction w t vault "withdraw" amount o))
         (sendTransaction w) in
  let first := <["gasPrice" := VUndefined]> overrides in
  withdraw w vault token amount account options overrides t
  = executeVaultContractTransaction attempt overrides t'
  ∧ (∀ tx response t'',
       contract_populateTransaction w t' vault "withdraw" amount first = Fulfilled tx →
       sendTransaction w tx (t' ++ [ContractPopulate vault "withdraw" amount first])
       = (Fulfilled response, t'') →
       withdraw w vault token amount account options overrides t
       = (Fulfilled response, t''))
  ∧ ∃ evs,
      (withdraw w vault token amount account options overrides t).2 = t' ++ evs
      ∧ Forall (direct_withdraw_only vault amount overrides) evs.
Proof.
  intros Hstatic Htoken attempt first. apply String.eqb_eq in Htoken.
  assert (withdraw w vault token amount account options overrides t
          = executeVaultContractTransaction attempt overrides t') as Hdirect.
  { unfold withdraw. by rewrite (bind_fulfilled _ _ _ _ _ Hstatic), Htoken. }
  split; [exact Hdirect |]. split.
  - intros tx response t'' Hpopulate Hsend. rewrite Hdirect.
    unfold executeVaultContractTransaction, try_catch, attempt, bind, invoke.
    fold first. by rewrite Hpopulate, Hsend.
  - rewrite Hdirect.
    apply emits_executeVaultContractTransaction.
    intros o Ho. apply emits_bind; [by apply emits_invoke |].
    intros tx. by apply emits_sendTransaction.
Qed.

Lemma X16_withdraw_of_the_underlying_token_is_direct_witness :
  withdraw orderWorld vaultA DAI "1000" account
           {| slippage := None; signature := None |} ∅ []
  = (Fulfilled {| hash := "0xhash" |},
     [AssetsStatic 0 (Some [vaultA]) (Some ∅);
      ContractPopulate vaultA "withdraw" "1000" (<["gasPrice" := VUndefined]> ∅);
      ValidateCalldata (VString vaultA) (VString "withdraw");
      SignerSendTransaction
        (spread (populated vaultA "withdraw") (<["gasPrice" := VUndefined]> ∅))]).
Proof.
  refine (proj1 (proj2 (X16_withdraw_of_the_underlying_token_is_direct orderWorld vaultA
                          DAI "1000" account {| slippage := None; signature := None |} ∅ []
                          (static vaultA DAI "A") []
                          [AssetsStatic 0 (Some [vaultA]) (Some ∅)] _ _))
                (spread (populated vaultA "withdraw") (<["gasPrice" := VUndefined]> ∅))
                {| hash := "0xhash" |} _ _ _);
    [vm_compute; reflexivity | reflexivity | reflexivity | vm_compute; reflexivity].
Defined.

(** X17.  A direct deposit for a vault that the partner service allows is
    populated by the partner service and never on the vault contract; when
    the partner service populates nothing, the deposit is rejected with
    "deposit transaction failed" after that single call, and since this
    error carries no code the gas fallback does not try again and nothing
    is sent. *)
Theorem X17_partner_deposit (w : World) vault token amount account options overrides t
    vaultRef rest t' p :
  isZappingIntoPickleJar w vault = false →
  getStatic w (Some [vault]) (Some overrides) t = (Fulfilled (vaultRef :: rest), t') →
  VaultStatic.token vaultRef = token →
  partner w = Some p →
  Partner.isAllowed p vault = true →
  (∃ evs,
     (deposit w vault token amount account options overrides t).2 = t' ++ evs
     ∧ Forall (partner_deposit_only vault amount) evs)
  ∧ (Partner.populateDepositTransaction p t' vault amount
       (<["gasPrice" := VUndefined]> overrides) = Fulfilled None →
     deposit w vault token amount account options overrides t
     = (Rejected (SdkError "deposit transaction failed"),
        t' ++ [PartnerPopulateDeposit vault amount (<["gasPrice" := VUndefined]> overrides)])).
Proof.
  intros Hjar Hstatic Htoken Hpartner Hallowed. apply String.eqb_eq in Htoken.
  assert (shouldUsePartnerService w vault = true) as Hshould.
  { unfold shouldUsePartnerService. by rewrite Hpartner. }
  unfold deposit. rewrite Hjar, (bind_fulfilled _ _ _ _ _ Hstatic), Htoken.
  simpl negb. cbv iota. split.
  - apply emits_executeVaultContractTransaction.
    intros o _. apply emits_bind.
    + unfold populateDepositTransaction. rewrite Hshould, Hpartner.
      by apply emits_invoke.
    + intros [tx |]; [by apply emits_sendTransaction | apply emits_throw].
  - intros Hnothing.
    unfold executeVaultContractTransaction, try_catch, bind, populateDepositTransaction.
    rewrite Hshould, Hpartner. unfold invoke. cbn [negb]. cbv beta iota.
    rewrite Hnothing.
    unfold throw. by case_bool_decide.
Qed.

Lemma X17_partner_deposit_witness :
  deposit silentPartnerWorld vaultA DAI "1000" account {| deposit_slippage := None |} ∅ []
  = (Rejected (SdkError "deposit transaction failed"),
     [AssetsStatic 0 (Some [vaultA]) (Some ∅)]
     ++ [PartnerPopulateDeposit vaultA "1000" (<["gasPrice" := VUndefined]> ∅)]).
Proof.
  refine (proj2 (X17_partner_deposit silentPartnerWorld vaultA DAI "1000" account
                   {| deposit_slippage := None |} ∅ [] (static vaultA DAI "A") []
                   [AssetsStatic 0 (Some [vaultA]) (Some ∅)] silentPartner
                   _ _ _ _ _) _); reflexivity.
Defined.

(** X18.  The gas fallback of the zap route touches the gas properties
    only: both transactions that [executeZapperTransaction] may hand to the
    signer agree with [{ ...transactionRequest, ...overrides }] on every
    other property, where a property set by the caller's overrides wins
    over the one of the quote; besides validating and sending, the
    submitter invokes nothing. *)
Theorem X18_zap_fallback_keeps_the_other_properties (w : World)
    (request : TransactionRequest) (overrides : CallOverrides) (fallbackGasPrice : Val) :
  emits (sends_like (spread request overrides))
        (executeZapperTransaction w request overrides fallbackGasPrice)
  ∧ (∀ k v, overrides !! k = Some v → spread request overrides !! k = Some v)
  ∧ (∀ k, overrides !! k = None → spread request overrides !! k = request !! k).
Proof.
  split; [| split].
  - unfold executeZapperTransaction.
    apply emits_try_catch.
    + apply emits_sendTransaction; [done |]. simpl.
      by apply agree_outside_gas_insert; [apply gas_keys_gasPrice |].
    + intros e. case_bool_decide; [| apply emits_throw].
      apply emits_sendTransaction; [done |]. simpl.
      apply agree_outside_gas_insert; [apply gas_keys_gasPrice |].
      apply agree_outside_gas_insert; [apply gas_keys_maxPriorityFeePerGas |].
      by apply agree_outside_gas_insert; [apply gas_keys_maxFeePerGas |].
  - intros k v Hk. unfold spread. by apply lookup_union_Some_l.
  - intros k Hk. unfold spread. by apply lookup_union_r.
Qed.

Lemma X18_zap_fallback_keeps_the_other_properties_witness :
  spread {[ "to" := VString zapContract; "gasLimit" := VBigNumber 500000 ]}
         {[ "gasLimit" := VBigNumber 21000 ]} !! "gasLimit"
  = Some (VBigNumber 21000)
  ∧ spread {[ "to" := VString zapContract; "gasLimit" := VBigNumber 500000 ]}
           {[ "gasLimit" := VBigNumber 21000 ]} !! "to"
    = Some (VString zapContract).
Proof.
  destruct (X18_zap_fallback_keeps_the_other_properties legacyWorld
              {[ "to" := VString zapContract; "gasLimit" := VBigNumber 500000 ]}
              {[ "gasLimit" := VBigNumber 21000 ]} VUndefined) as (_ & Hwins & Hkeeps).
  split.
  - apply Hwins. reflexivity.
  - rewrite Hkeeps; reflexivity.
Defined.

(** ** Positions and static records *)

(** X19.  With an address filter, [positionsOf] never asks for static
    records: unchunked or chunked, every invocation is a position query of
    a registry adapter for the requested account. *)
Theorem X19_filtered_positions_never_fetch_static_records (w : World) account
    (addresses : list Address) overrides :
  emits (positions_of_account account) (positionsOf w account (Some addresses) overrides).
Proof.
  apply emits_bind; [| intros; apply emits_resolve].
  apply emits_Promise_all, Forall_forall. intros p Hp.
  apply list_elem_of_In, in_map_iff in Hp as (adapter & <- & _).
  apply emits_try_catch; [by apply emits_invoke |].
  intros _. apply emits_bind; [apply emits_resolve |].
  intros allAddresses. apply emits_bind; [| intros; apply emits_resolve].
  apply emits_Promise_all, Forall_forall. intros p Hp.
  apply list_elem_of_In, in_map_iff in Hp as (chunk & <- & _).
  by apply emits_invoke.
Qed.

(** X20.  [getStatic] asks every registered adapter once, in the order of
    registration and with the caller's filter and overrides, also when an
    adapter rejects: a rejection does not keep the later adapters from
    being asked. *)
Theorem X20_getStatic_asks_every_adapter_once (w : World) addresses overrides t :
  (getStatic w addresses overrides t).2
  = t ++ map (λ adapter, AssetsStatic adapter addresses overrides) (adapters w).
Proof.
  unfold getStatic, bind.
  pose proof (Promise_all_invoke_trace
                (λ adapter, AssetsStatic adapter addresses overrides)
                (λ adapter t, adapter_assetsStatic w t adapter addresses overrides)
                (adapters w) t) as Htrace.
  destruct (Promise_all _ t) as [[arr | e] t1]; simpl in *; by subst.
Qed.

(** ** Tokens and balances *)

Lemma traverse_fulfilled {A B} (f : A → Settled B) (l : list A) (r : list B) :
  traverse f l = Fulfilled r → Forall2 (λ x y, f x = Fulfilled y) l r.
Proof.
  revert r. induction l as [| x l IH]; intros r; simpl.
  - intros [= <-]. constructor.
  - destruct (f x) as [y | e] eqn:Hx; [| done].
    destruct (traverse f l) as [r' | e]; [| done].
    intros [= <-]. constructor; auto.
Qed.

Lemma traverse_rejected {A B} (f : A → Settled B) (pre : list A) x post e :
  Forall (λ y, ∃ z, f y = Fulfilled z) pre →
  f x = Rejected e →
  traverse f (pre ++ x :: post) = Rejected e.
Proof.
  intros Hpre Hx. induction Hpre as [| y pre [z Hy] _ IH]; simpl.
  - by rewrite Hx.
  - by rewrite Hy, IH.
Qed.

Lemma allOf_fulfilled {E A} (P : A → Prop) (ps : list (Promise (E := E) A)) t r t' :
  Forall (λ p, ∀ t y t', p t = (Fulfilled y, t') → P y) ps →
  allOf ps t = (Fulfilled r, t') →
  Forall P r.
Proof.
  intros Hps. revert t r. induction Hps as [| p ps Hp _ IH]; intros t r; simpl.
  - unfold fulfil. intros [= <- <-]. constructor.
  - destruct (p t) as [[a | e] t1] eqn:Hpt;
      destruct (allOf ps t1) as [[l | e'] t2] eqn:Hall; try done.
    intros [= <- <-]. constructor; eauto.
Qed.

Lemma fillTokenMetadataOverrides_frame (token : Token.t) (overrides : TokenMetadata.t) :
  let filled := fillTokenMetadataOverrides token overrides in
  Token.address filled = Token.address token
  ∧ Token.decimals filled = Token.decimals token
  ∧ Token.priceUsdc filled = Token.priceUsdc token
  ∧ Token.dataSource filled = Token.dataSource token
  ∧ Token.supported filled = Token.supported token
  ∧ Token.metadata filled = Token.metadata token.
Proof.
  unfold fillTokenMetadataOverrides.
  destruct (string_set (TokenMetadata.tokenIconOverride overrides)),
           (string_set (TokenMetadata.tokenSymbolOverride overrides)),
           (string_set (TokenMetadata.tokenNameOverride overrides)); done.
Qed.

Lemma tokenOf_vault_token (w : World) icons tokensMetadata token priceUsdc :
  vault_token (tokenOf w icons tokensMetadata token priceUsdc).
Proof.
  unfold tokenOf. cbv zeta.
  destruct (find _ tokensMetadata) as [metadata |] eqn:Hfind.
  - apply find_some in Hfind as [_ Haddress%String.eqb_eq].
    match goal with
    | |- vault_token (fillTokenMetadataOverrides ?x ?m) =>
        destruct (fillTokenMetadataOverrides_frame x m) as (Ha & _ & Hp & Hds & Hs & Hm)
    end.
    unfold vault_token. rewrite Ha, Hp, Hds, Hs, Hm.
    destruct (string_set (asset_alias w (ERC20.address token))); simpl;
      (repeat split; [by eexists | by intros ? [= <-]]).
  - unfold vault_token.
    destruct (string_set (asset_alias w (ERC20.address token))); simpl;
      (repeat split; [by eexists | done]).
Qed.

(** X21.  The symbol of a token built by [tokens]: a non-empty
    [tokenSymbolOverride] of the first metadata entry for the token's
    address wins over the alias symbol of the asset service, and a
    non-empty alias symbol wins over the symbol read from the chain.  The
    address and the decimals are always the ones read from the chain. *)
Theorem X21_token_symbol_precedence (w : World) icons tokensMetadata (token : ERC20.t)
    priceUsdc :
  let result := tokenOf w icons tokensMetadata token priceUsdc in
  let override :=
    metadata_for tokensMetadata (ERC20.address token) ≫= TokenMetadata.tokenSymbolOverride in
  let alias := asset_alias w (ERC20.address token) in
  Token.address result = ERC20.address token
  ∧ Token.decimals result = ERC20.decimals token
  ∧ Token.symbol result
    = (if string_set override then default "" override
       else if string_set alias then default "" alias
       else ERC20.symbol token).
Proof.
  unfold tokenOf, metadata_for. cbv zeta.
  destruct (find _ tokensMetadata) as [metadata |]; simpl.
  - match goal with
    | |- context [fillTokenMetadataOverrides ?x ?m] =>
        destruct (fillTokenMetadataOverrides_frame x m) as (-> & -> & _)
    end.
    unfold fillTokenMetadataOverrides.
    destruct (string_set (asset_alias w (ERC20.address token)));
      destruct (string_set (TokenMetadata.tokenIconOverride metadata)),
               (string_set (TokenMetadata.tokenSymbolOverride metadata)),
               (string_set (TokenMetadata.tokenNameOverride metadata)); done.
  - by destruct (string_set (asset_alias w (ERC20.address token))).
Qed.

(** X22.  On a cache miss every token of a fulfilled [tokens] has the data
    source "vaults", is supported for vaults only, carries a price, and the
    metadata attached to it, if any, is an entry for the token's own
    address. *)
Theorem X22_fresh_tokens_are_vault_tokens (w : World) (s : TokenServices) overrides t
    (tokenList : list Token.t) t' :
  cachedFetcherTokens s t = Fulfilled None →
  tokens w s overrides t = (Fulfilled tokenList, t') →
  Forall vault_token tokenList.
Proof.
  intros Hmiss. unfold tokens, andThen at 1, call at 1. rewrite Hmiss.
  unfold andThen at 1, call at 1.
  destruct (asset_ready s _); [| done].
  unfold andThen at 1.
  destruct (allOf _ _) as [[arr | e] t1] eqn:Hall; [| done].
  unfold fulfil. intros [= <- <-].
  apply Forall_concat.
  eapply (allOf_fulfilled (Forall vault_token)); [| exact Hall].
  apply Forall_map, Forall_forall. intros adapter _ t0 y t0'.
  unfold andThen at 1, call at 1.
  destruct (adapter_tokens s t0 adapter overrides) as [tokenAddresses | e]; [| done].
  unfold andThen at 1, both, call.
  destruct (helper_tokens s _ tokenAddresses overrides) as [erc20s | e]; [| done].
  destruct (tokens_metadata s _ tokenAddresses) as [tokensMetadata | e]; [| done].
  cbn [fst snd].
  apply (allOf_fulfilled vault_token).
  apply Forall_map, Forall_forall. intros token _ t2 result t2'.
  unfold andThen, fulfil.
  destruct (oracle_getPriceUsdc s t2 (ERC20.address token) overrides); [| done].
  intros [= <- _]. apply tokenOf_vault_token.
Qed.

Lemma X22_fresh_tokens_are_vault_tokens_witness :
  ∃ tokenList,
    (tokens legacyWorld sampleTokenServices None []).1 = Fulfilled tokenList
    ∧ map Token.symbol tokenList = ["DAI.e"%string]
    ∧ Forall vault_token tokenList.
Proof.
  let run := eval vm_compute in (tokens legacyWorld sampleTokenServices None []) in
  match run with
  | (Fulfilled ?tokenList, ?t') =>
      exists tokenList; split; [vm_compute; reflexivity |];
      split; [vm_compute; reflexivity |];
      refine (X22_fresh_tokens_are_vault_tokens legacyWorld sampleTokenServices None []
                tokenList t' eq_refl _);
      vm_compute; reflexivity
  end.
Defined.

Lemma balanceOf_paired (tokens : list Token.t) (entry : TokenBalance.t)
    (balance : Balance.t Token.t) :
  balanceOf tokens entry = Fulfilled balance →
  paired_with tokens balance ∧ Balance.address balance = TokenBalance.address entry.
Proof.
  unfold balanceOf.
  destruct (find _ tokens) as [token |] eqn:Hfind; [| done].
  apply find_some in Hfind as [Hin Haddress%String.eqb_eq].
  intros [= <-]. unfold paired_with. simpl.
  split; [split |]; [by apply list_elem_of_In | done | done].
Qed.

Lemma balanceOf_keeps_entry (tokens : list Token.t) (entry : TokenBalance.t)
    (balance : Balance.t Token.t) :
  balanceOf tokens entry = Fulfilled balance → keeps_entry tokens entry balance.
Proof.
  unfold balanceOf, keeps_entry.
  destruct (find _ tokens) as [token |]; [| done].
  by intros [= <-].
Qed.

(** X23.  [balances] fetches the token list without the caller's
    overrides and asks the helper once for the balances of exactly those
    tokens.  A fulfilled call returns the helper's balances, one for one
    and in the helper's order, each with the helper's address and amounts
    (balance, value and price) and with the first token of the list that
    has the balance's address. *)
Theorem X23_balances_are_paired_with_their_token (w : World) (s : TokenServices) address
    overrides t (result : list (Balance.t Token.t)) t' :
  balances w s address overrides t = (Fulfilled result, t') →
  ∃ tokenList t1 answer,
    tokens w s None t = (Fulfilled tokenList, t1)
    ∧ helper_tokenBalances s t1 address (map Token.address tokenList) overrides
      = Fulfilled answer
    ∧ t' = t1 ++ [HelperTokenBalances address (map Token.address tokenList) overrides]
    ∧ Forall2 (keeps_entry tokenList) answer result
    ∧ map Balance.address result = map TokenBalance.address answer
    ∧ Forall (paired_with tokenList) result.
Proof.
  unfold balances, andThen at 1.
  destruct (tokens w s None t) as [[tokenList | e] t1]; [| done].
  unfold andThen, call.
  destruct (helper_tokenBalances s t1 address _ overrides) as [answer | e] eqn:Hanswer;
    [| done].
  destruct (traverse _ answer) as [paired | e] eqn:Hpaired; [| done].
  intros [= <- <-]. exists tokenList, t1, answer.
  apply traverse_fulfilled in Hpaired.
  split; [done |]. split; [done |]. split; [done |]. clear Hanswer.
  split; [| split].
  - eapply Forall2_impl; [exact Hpaired |]. intros entry balance.
    apply balanceOf_keeps_entry.
  - induction Hpaired as [| entry balance answer result Hb _ IH]; [done |].
    apply balanceOf_paired in Hb as [_ Hb]. simpl. by rewrite Hb, IH.
  - induction Hpaired as [| entry balance answer result Hb _ IH]; [done |].
    apply balanceOf_paired in Hb as [Hb _]. by constructor.
Qed.

Lemma X23_balances_are_paired_with_their_token_witness :
  ∃ result tokenList answer,
    (balances legacyWorld exactTokenServices Sample.account None []).1 = Fulfilled result
    ∧ map Balance.balance result = ["5"%string]
    ∧ Forall2 (keeps_entry tokenList) answer result.
Proof.
  let run :=
    eval vm_compute in (balances legacyWorld exactTokenServices Sample.account None []) in
  match run with
  | (Fulfilled ?result, ?t') =>
      destruct (X23_balances_are_paired_with_their_token legacyWorld exactTokenServices
                  Sample.account None [] result t')
        as (tokenList & _ & answer & _ & _ & _ & Hkept & _);
        [vm_compute; reflexivity |];
      exists result, tokenList, answer;
      split; [vm_compute; reflexivity |]; split; [vm_compute; reflexivity | exact Hkept]
  end.
Defined.

Lemma balanceOf_known (tokens : list Token.t) (entry : TokenBalance.t) :
  known_token tokens entry → ∃ balance, balanceOf tokens entry = Fulfilled balance.
Proof.
  unfold known_token, balanceOf. intros Hin.
  apply list_elem_of_In, in_map_iff in Hin as (token & Haddress & Hin).
  destruct (find _ tokens) as [found |] eqn:Hfind; [by eexists |].
  apply (find_none _ _ Hfind) in Hin. apply String.eqb_neq in Hin. done.
Qed.

(** X24.  One balance for a token that is not in the token list rejects
    the whole of [balances]: when the helper's answer holds a balance whose
    address no token has, the call is rejected with the SdkError "Token
    does not exist for Balance(address)" naming the first such address, and
    the balances that could be paired are lost with it. *)
Theorem X24_balance_of_an_unknown_token (w : World) (s : TokenServices) address overrides t
    (tokenList : list Token.t) t1 (known : list TokenBalance.t) stray rest :
  tokens w s None t = (Fulfilled tokenList, t1) →
  helper_tokenBalances s t1 address (map Token.address tokenList) overrides
  = Fulfilled (known ++ stray :: rest) →
  Forall (known_token tokenList) known →
  ¬ known_token tokenList stray →
  balances w s address overrides t
  = (Rejected (SdkError ("Token does not exist for Balance("
                         +:+ TokenBalance.address stray +:+ ")")),
     t1 ++ [HelperTokenBalances address (map Token.address tokenList) overrides]).
Proof.
  intros Htokens Hanswer Hknown Hstray.
  unfold balances, andThen at 1. rewrite Htokens.
  unfold andThen, call. rewrite Hanswer.
  rewrite (traverse_rejected _ known stray rest
             (SdkError ("Token does not exist for Balance("
                        +:+ TokenBalance.address stray +:+ ")"))); [done | |].
  - eapply Forall_impl; [exact Hknown |]. intros entry. apply balanceOf_known.
  - unfold balanceOf.
    destruct (find _ tokenList) as [token |] eqn:Hfind; [| done].
    apply find_some in Hfind as [Hin Haddress%String.eqb_eq].
    destruct Hstray. unfold known_token. rewrite <- Haddress.
    apply list_elem_of_In, in_map, Hin.
Qed.

Lemma X24_balance_of_an_unknown_token_witness :
  (balances legacyWorld sampleTokenServices Sample.account None []).1
  = Rejected (SdkError ("Token does not exist for Balance(" +:+ Sample.WETH +:+ ")")).
Proof.
  let run := eval vm_compute in (tokens legacyWorld sampleTokenServices None []) in
  match run with
  | (Fulfilled ?tokenList, ?t1) =>
      rewrite (X24_balance_of_an_unknown_token legacyWorld sampleTokenServices
                 Sample.account None [] tokenList t1
                 [ {| TokenBalance.address := Sample.DAI; TokenBalance.balance := "5";
                      TokenBalance.balanceUsdc := "5"; TokenBalance.priceUsdc := "1" |} ]
                 {| TokenBalance.address := Sample.WETH; TokenBalance.balance := "1";
                    TokenBalance.balanceUsdc := "1"; TokenBalance.priceUsdc := "1" |}
                 [])
  end.
  - vm_compute. reflexivity.
  - vm_compute. reflexivity.
  - vm_compute. reflexivity.
  - repeat constructor.
  - unfold known_token. rewrite list_elem_of_In. simpl. intros [H | []]. discriminate H.
Defined.

(** X25.  The address filter of [metadataOf] keeps, in the order of the
    earnings data, exactly the entries whose asset address is in the
    filter, and costs no further call; an empty filter is a filter like any
    other, so it returns no entry where an absent filter returns them
    all. *)
Theorem X25_metadataOf_filter (s : TokenServices) address (addresses : list Address) t :
  (metadataOf s address (Some addresses) t).2 = (metadataOf s address None t).2
  ∧ ∀ everything,
      (metadataOf s address None t).1 = Fulfilled everything →
      ∃ kept,
        (metadataOf s address (Some addresses) t).1 = Fulfilled kept
        ∧ sublist kept everything
        ∧ (∀ asset, asset ∈ kept
                    ↔ asset ∈ everything ∧ VaultUserMetadata.assetAddress asset ∈ addresses)
        ∧ (addresses = [] → kept = []).
Proof.
  unfold metadataOf, andThen, call, fulfil.
  destruct (earnings_accountAssetsData s t address) as [data | e]; simpl; [| done].
  split; [done |]. intros everything [= <-].
  eexists. split; [done |]. split; [| split].
  - induction (AccountAssetsData.earningsAssetData data) as [| asset l IH]; simpl; [done |].
    destruct (includes addresses _); by constructor.
  - intros asset. rewrite !list_elem_of_In, List.filter_In.
    unfold includes. rewrite existsb_exists.
    split.
    + by intros [Hin (a & Ha & ->%String.eqb_eq)].
    + intros [Hin Ha]. split; [done |]. exists (VaultUserMetadata.assetAddress asset).
      split; [done | apply String.eqb_refl].
  - intros ->. induction (AccountAssetsData.earningsAssetData data); done.
Qed.

Lemma X25_metadataOf_filter_witness :
  ∃ kept,
    (metadataOf sampleTokenServices Sample.account (Some []) []).1 = Fulfilled kept
    ∧ kept = []
    ∧ (metadataOf sampleTokenServices Sample.account None []).1
      = Fulfilled [ {| VaultUserMetadata.assetAddress := Sample.vaultA;
                       VaultUserMetadata.earned := "1" |};
                    {| VaultUserMetadata.assetAddress := Sample.vaultB;
                       VaultUserMetadata.earned := "2" |} ].
Proof.
  destruct (proj2 (X25_metadataOf_filter sampleTokenServices Sample.account [] [])
                  _ eq_refl) as (kept & Hkept & _ & _ & Hempty).
  exists kept. split; [exact Hkept |]. split; [exact (Hempty eq_refl) | reflexivity].
Defined.

(** ** The wido service *)

Lemma traverse_rejecting {A B} (f : A → Settled B) (l : list A) x e :
  x ∈ l → f x = Rejected e → ∃ e', traverse f l = Rejected e'.
Proof.
  intros Hin Hx. induction Hin as [x l | x y l _ IH]; simpl.
  - rewrite Hx. by eexists.
  - destruct (f y); [| by eexists].
    destruct (IH Hx) as [e' ->]. by eexists.
Qed.

Lemma traverse_total {A B} (f : A → Settled B) (l : list A) :
  Forall (λ x, ∃ y, f x = Fulfilled y) l → ∃ r, traverse f l = Fulfilled r.
Proof.
  induction 1 as [| x l [y Hx] _ [r IH]]; simpl.
  - by eexists.
  - rewrite Hx, IH. by eexists.
Qed.

(** X26.  The chain guards of the wido service.  On chain 1337 every
    operation that would use the wido library is rejected with the error
    "Unsupported" before the library is called, and [getContractAddress]
    throws it.  [supportedVaultAddresses] has a stricter guard: it is
    rejected on every chain but chain 1, also on chains that the other
    operations serve, and it never calls the library. *)
Theorem X26_wido_chain_guards (lib : Wido.Lib) (chainId : Z) vault token amount account
    slippagePercentage t :
  (chainId = 1337 →
   Wido.supportedTokens chainId lib t = (Rejected Wido.Unsupported, t)
   ∧ Wido.balances chainId lib account t = (Rejected Wido.Unsupported, t)
   ∧ Wido.getContractAddress chainId lib = Rejected Wido.Unsupported
   ∧ Wido.zapInApprovalState chainId lib token account t = (Rejected Wido.Unsupported, t)
   ∧ Wido.zapInApprovalTransaction chainId lib token amount t
     = (Rejected Wido.Unsupported, t)
   ∧ Wido.zapOutApprovalState chainId lib vault account t = (Rejected Wido.Unsupported, t)
   ∧ Wido.zapOutApprovalTransaction chainId lib vault amount t
     = (Rejected Wido.Unsupported, t)
   ∧ Wido.zapIn chainId lib vault token amount account slippagePercentage t
     = (Rejected Wido.Unsupported, t)
   ∧ Wido.zapOut chainId lib vault token amount account slippagePercentage t
     = (Rejected Wido.Unsupported, t))
  ∧ (chainId ≠ 1 →
     Wido.supportedVaultAddresses chainId t = (Rejected Wido.Unsupported, t))
  ∧ (Wido.supportedVaultAddresses chainId t).2 = t.
Proof.
  split; [| split].
  - intros ->. done.
  - intros Hchain. unfold Wido.supportedVaultAddresses.
    by apply Z.eqb_neq in Hchain as ->.
  - unfold Wido.supportedVaultAddresses. by destruct (chainId =? 1).
Qed.

Lemma X26_wido_chain_guards_witness :
  Wido.zapIn 1337 Wido.sampleLib vaultA DAI "1000" account (Finite 0.01) []
  = (Rejected Wido.Unsupported, [])
  ∧ Wido.supportedVaultAddresses 250 [] = (Rejected Wido.Unsupported, []).
Proof.
  destruct (X26_wido_chain_guards Wido.sampleLib 1337 vaultA DAI "1000" account
              (Finite 0.01) []) as (Hlocal & _ & _).
  destruct (X26_wido_chain_guards Wido.sampleLib 250 vaultA DAI "1000" account
              (Finite 0.01) []) as (_ & Hvaults & _).
  split.
  - apply Hlocal. reflexivity.
  - apply Hvaults. discriminate.
Defined.




(** X28.  A fulfilled [balances] of the wido service asked the library
    once, for the account on the service's own chain only; it returns one
    balance per balance of the library, in the library's order, whose
    address is the normalised address of the entry (the native address for
    the zero address), whose token has that same address and the entry's
    symbol as name and as symbol, and whose amount is the entry's. *)
Theorem X28_wido_balances (chainId : Z) (lib : Wido.Lib) address t
    (result : list (Balance.t ERC20.t)) t' :
  Wido.balances chainId lib address t = (Fulfilled result, t') →
  ∃ answer,
    Wido.getBalances lib t address [chainId] = Fulfilled answer
    ∧ t' = t ++ [Wido.GetBalances address [chainId]]
    ∧ Forall2 (wido_balance lib) answer result.
Proof.
  unfold Wido.balances.
  destruct (chainId =? 1337); [done |].
  unfold andThen, call.
  destruct (Wido.getBalances lib t address [chainId]) as [answer | e]; [| done].
  destruct (traverse _ _) as [balances | e] eqn:Hbalances; [| done].
  intros [= <- <-]. exists answer.
  split; [done |]. split; [done |].
  apply traverse_fulfilled in Hbalances.
  eapply Forall2_impl; [exact Hbalances |].
  intros entry balance. unfold Wido.balanceOf, wido_balance.
  destruct (Wido.normalise lib _) as [normalised | e]; [| done].
  by intros [= <-].
Qed.

Lemma X28_wido_balances_witness :
  ∃ result,
    (Wido.balances 1 (strictLib "0xbad") account []).1 = Fulfilled result
    ∧ map Balance.address result = [ETH].
Proof.
  let run := eval vm_compute in (Wido.balances 1 (strictLib "0xbad") account []) in
  match run with
  | (Fulfilled ?result, ?t') =>
      destruct (X28_wido_balances 1 (strictLib "0xbad") account [] result t')
        as (answer & _ & _ & _); [vm_compute; reflexivity |];
      exists result; split; vm_compute; reflexivity
  end.
Defined.

(** X29.  One address that [getAddress] refuses rejects the whole token
    list of the wido service: when a token of the library's answer has a
    symbol and its address does not normalise, [supportedTokens] is
    rejected after the single library call and no token is returned.  The
    tokens without a symbol are dropped before their address is looked at:
    when the address of every token that has a symbol normalises, the call
    is fulfilled whatever the addresses of the others are. *)
Theorem X29_one_malformed_address_rejects_the_token_list (chainId : Z) (lib : Wido.Lib) t
    (tokenList : list Wido.LibToken) :
  chainId ≠ 1337 →
  Wido.getSupportedTokens lib t chainId = Fulfilled tokenList →
  (∀ entry e,
     entry ∈ tokenList →
     has_symbol entry = true →
     Wido.normalise lib (Wido.t_address entry) = Rejected e →
     ∃ e', Wido.supportedTokens chainId lib t
           = (Rejected e', t ++ [Wido.GetSupportedTokens chainId]))
  ∧ (Forall (λ entry, has_symbol entry = true →
                      ∃ address, Wido.normalise lib (Wido.t_address entry)
                                 = Fulfilled address)
            tokenList →
     ∃ listed, Wido.supportedTokens chainId lib t
               = (Fulfilled listed, t ++ [Wido.GetSupportedTokens chainId])).
Proof.
  intros Hchain Hanswer. apply Z.eqb_neq in Hchain.
  unfold Wido.supportedTokens, andThen, call. rewrite Hchain, Hanswer.
  change (λ token, negb (String.eqb (Wido.t_symbol token) "")) with has_symbol.
  split.
  - intros entry e Hin Hsymbol Hbad.
    destruct (traverse_rejecting (Wido.supportedToken chainId lib)
                (List.filter has_symbol tokenList) entry e) as [e' ->].
    + apply list_elem_of_In, List.filter_In. split; [by apply list_elem_of_In | done].
    + unfold Wido.supportedToken. by rewrite Hbad.
    + by eexists.
  - intros Hgood.
    destruct (traverse_total (Wido.supportedToken chainId lib)
                (List.filter has_symbol tokenList)) as [listed ->]; [| by eexists].
    apply Forall_forall. intros entry Hin.
    apply list_elem_of_In, List.filter_In in Hin as [Hin Hsymbol].
    apply list_elem_of_In in Hin.
    rewrite Forall_forall in Hgood.
    destruct (Hgood entry Hin Hsymbol) as [address Haddress].
    unfold Wido.supportedToken. rewrite Haddress. by eexists.
Qed.

Lemma X29_one_malformed_address_rejects_the_token_list_witness :
  ∃ e, Wido.supportedTokens 1 (strictLib "0xbad") []
       = (Rejected e, [] ++ [Wido.GetSupportedTokens 1]).
Proof.
  refine (proj1 (X29_one_malformed_address_rejects_the_token_list 1 (strictLib "0xbad") []
                   [ {| Wido.t_address := "0xdai"; Wido.t_symbol := "DAI";
                        Wido.t_decimals := 18 |};
                     {| Wido.t_address := "0xbad"; Wido.t_symbol := "BAD";
                        Wido.t_decimals := 18 |} ] _ eq_refl)
                {| Wido.t_address := "0xbad"; Wido.t_symbol := "BAD"; Wido.t_decimals := 18 |}
                (OtherError "invalid address") _ eq_refl eq_refl).
  - discriminate.
  - apply list_elem_of_In. simpl. right. left. reflexivity.
Defined.

(** X30.  Zapping out is the reverse quote of zapping in: [zapOut] for a
    vault and a token asks the library for the quote that [zapIn] asks for
    with the two exchanged, on the service's chain on both sides and for
    the same amount, slippage and user.  The transaction of [zapIn] names
    the account as sender; that of [zapOut] has the same data and
    destination and no sender. *)
Theorem X30_zap_out_is_the_reverse_quote (chainId : Z) (lib : Wido.Lib) vault token amount
    account slippagePercentage t :
  (Wido.zapOut chainId lib vault token amount account slippagePercentage t).2
  = (Wido.zapIn chainId lib token vault amount account slippagePercentage t).2
  ∧ ∀ tx t',
      Wido.zapOut chainId lib vault token amount account slippagePercentage t
      = (Fulfilled tx, t') →
      tx !! "from" = None
      ∧ Wido.zapIn chainId lib token vault amount account slippagePercentage t
        = (Fulfilled (<["from" := VString account]> tx), t').
Proof.
  unfold Wido.zapOut, Wido.zapIn.
  destruct (chainId =? 1337); [done |].
  unfold andThen, call, fulfil.
  destruct (Wido.quote lib t _) as [[data to] | e]; [| done].
  simpl. split; [done |].
  intros tx t' [= <- <-]. split; [done |].
  reflexivity.
Qed.

Lemma X30_zap_out_is_the_reverse_quote_witness :
  Wido.zapIn 1 Wido.sampleLib DAI vaultA "1000" account (Finite 0.01) []
  = (Fulfilled (<["from" := VString account]>
                  ({[ "data" := VString "0xquote"; "to" := VString "0xWido" ]} : Obj)),
     [Wido.Quote {| Wido.fromChainId := 1; Wido.fromToken := vaultA;
                    Wido.toChainId := 1; Wido.toToken := DAI;
                    Wido.amount := "1000"; Wido.slippagePercentage := Finite 0.01;
                    Wido.user := account |}]).
Proof.
  exact (proj2 (proj2 (X30_zap_out_is_the_reverse_quote 1 Wido.sampleLib vaultA DAI "1000"
                         account (Finite 0.01) []) _ _ eq_refl)).
Defined.
